(** * Risk scoring engine: a shallow embedding of [src/main.py]

    The engine scores security events against assets under a rule policy,
    keeps one [ScoreResult] per resolved event, and aggregates the scores
    per asset (count, sum, mean, maximum, 95th and 99th percentile).

    Python's [float] is IEEE 754 binary64.  We compute with Rocq's
    executable specification of it ([SpecFloat], precision 53, [emax] 1024),
    so every rounding of the program is a rounding of the model.

    The dictionaries of the program become records: a key read with
    [d.get(key)] is an optional field, and the fields given to [float] hold
    an arbitrary JSON value.  A function that can raise returns [res].
    [sorted] and [list.sort] are a stable insertion sort that only asks
    [<], which is what Python's sort computes whenever [<] is a strict weak
    order on the elements: for floats, whenever none of them is a NaN.
    With a NaN in the list Python's sort returns some other permutation,
    and the theorems on sorted values assume there is none.

    The records have the shapes of the data model: an id, a type and the
    asset of an event are strings, tags and labels are lists of strings.
    The loaders store what the file holds without a check, so a file can
    put other JSON values there (a list inside [labels], say), on which
    [set()] and [dict.get] raise [TypeError]; such files are outside the
    embedding, and every statement here is about records of these shapes.

    The loaders, the policy constructors, [load_or_default],
    [filter_events], [read_cli_pairs], [fmt_table] and the branch [report]
    of [cli] are embedded as well, from the documents the files hold;
    reading and writing the files, [uuid4] and the clock stay outside. *)

From Stdlib Require Import ZArith String Ascii List Bool Lia.
From Stdlib Require Import Floats.SpecFloat.
From Stdlib Require Import Sorting.Sorted Sorting.Permutation.
From Stdlib Require OrderedTypeEx.
From stdpp Require Import gmap strings list fin_maps.

Open Scope string_scope.
Open Scope list_scope.
Open Scope Z_scope.

(** ** Binary64 *)

Abbreviation float := spec_float.

Definition prec : Z := 53.
Definition emax : Z := 1024.

Definition fadd : float -> float -> float := SFadd prec emax.
Definition fsub : float -> float -> float := SFsub prec emax.
Definition fmul : float -> float -> float := SFmul prec emax.
Definition fdiv : float -> float -> float := SFdiv prec emax.
Definition fopp : float -> float := SFopp.
Definition flt : float -> float -> bool := SFltb.
Definition fle : float -> float -> bool := SFleb.
Definition feq : float -> float -> bool := SFeqb.

Definition is_nan (x : float) : bool :=
  match x with S754_nan => true | _ => false end.

Definition is_inf (x : float) : bool :=
  match x with S754_infinity _ => true | _ => false end.

(** Literals of the source, as the nearest binary64. *)
Definition f0 : float := S754_zero false.
Definition f1 : float := S754_finite false 4503599627370496 (-52).
Definition f100 : float := S754_finite false 7036874417766400 (-46).

(** The correctly rounded integer: [float(z)] when it does not overflow. *)
Definition Z2f (z : Z) : float := binary_normalize prec emax z 0 false.

(** A decimal literal [num/den]: one correctly rounded division of two
    exactly representable integers. *)
Definition dec (num den : Z) : float := fdiv (Z2f num) (Z2f den).

(** ** Python values and exceptions *)

(** The values a JSON document can put in a field. *)
Unset Elimination Schemes.
Inductive pyval : Type :=
| PyNone
| PyBool (b : bool)
| PyInt (z : Z)
| PyFloat (f : float)
| PyStr (s : string)
| PyList (items : list pyval)
| PyDict (items : list (string * pyval)).
Set Elimination Schemes.

Inductive exn : Type := TypeError | ValueError | OverflowError | IndexError.

(** A computation that returns or raises. *)
Inductive res (A : Type) : Type :=
| Ok (a : A)
| Raise (e : exn).
Arguments Ok {A} a.
Arguments Raise {A} e.

#[export] Instance res_ret : MRet res := fun _ a => Ok a.
#[export] Instance res_bind : MBind res := fun _ _ f m =>
  match m with
  | Ok a => f a
  | Raise e => Raise e
  end.

Definition returns {A} (m : res A) : Prop := exists a, m = Ok a.

Definition get_default {A} (o : option A) (d : A) : A :=
  match o with Some v => v | None => d end.

(** [int -> float] conversion: round to nearest even, [OverflowError]
    when the integer is beyond the largest finite binary64. *)
Definition float_of_int (z : Z) : res float :=
  let f := Z2f z in
  if is_inf f then Raise OverflowError else Ok f.

(** The coercion of a number in arithmetic ([int * float], [p / 100.0]):
    [bool] is a subclass of [int]; anything else is a [TypeError]. *)
Definition arith_float (v : pyval) : res float :=
  match v with
  | PyFloat f => Ok f
  | PyInt z => float_of_int z
  | PyBool b => Ok (if b then f1 else f0)
  | _ => Raise TypeError
  end.

(** [math.floor] and [math.ceil] of a float, as Python integers. *)
Definition float_floor (x : float) : res Z :=
  match x with
  | S754_zero _ => Ok 0
  | S754_finite s m e =>
      let n := if s then Z.neg m else Z.pos m in
      Ok (if 0 <=? e then Z.shiftl n e else Z.shiftr n (- e))
  | S754_infinity _ => Raise OverflowError
  | S754_nan => Raise ValueError
  end.

Definition float_ceil (x : float) : res Z :=
  n ← float_floor (fopp x); Ok (- n).

(** [int(x)]: truncation toward zero. *)
Definition float_trunc (x : float) : res Z :=
  match x with
  | S754_finite true _ _ => float_ceil x
  | _ => float_floor x
  end.

(** [s[i]] on a list: a negative index counts from the end, and an
    index outside [-len, len) raises [IndexError]. *)
Definition py_index {A} (s : list A) (i : Z) : res A :=
  let n := Z.of_nat (length s) in
  let j := if i <? 0 then i + n else i in
  if (0 <=? j) && (j <? n) then
    match s !! Z.to_nat j with
    | Some x => Ok x
    | None => Raise IndexError
    end
  else Raise IndexError.

(** [max(a, b)]: the first argument unless the second is greater. *)
Definition py_max2 (a b : float) : float := if flt a b then b else a.

(** [max(vals)] on a non-empty list; [None] stands for the [ValueError]
    of an empty one, which [aggregate] never reaches. *)
Definition py_max (vals : list float) : option float :=
  match vals with
  | [] => None
  | v :: vs => Some (fold_left py_max2 vs v)
  end.

(** [sorted(vals)]: a stable sort that only asks [<].  Python's sort
    returns this list whenever [<] is a strict weak order on the elements
    (on floats: when no element is a NaN); on a list that holds a NaN it
    returns another permutation, which no definition here describes. *)
Fixpoint insert_sorted {A} (lt : A -> A -> bool) (x : A) (l : list A) : list A :=
  match l with
  | [] => [x]
  | y :: l' => if lt x y then x :: y :: l' else y :: insert_sorted lt x l'
  end.

Definition py_sorted {A} (lt : A -> A -> bool) (l : list A) : list A :=
  fold_left (fun acc x => insert_sorted lt x acc) l [].

(** ** Records

    The stored dictionaries, for files of the shapes of the data model:
    ids, types and the asset of an event are strings (or absent), tags and
    labels are lists of strings.  A file with other JSON values in these
    places is outside these records. *)

Record Asset : Type := mkAsset {
  as_id : string;
  as_name : string;
  as_type : option string;
  as_tags : list string;
  as_criticality : option pyval
}.

Record Event : Type := mkEvent {
  ev_id : string;
  ev_ts : Z;
  ev_asset : option string;
  ev_type : option string;
  ev_severity : option pyval;
  ev_labels : list string;
  ev_data : pyval
}.

(** The [when] and [calc] dictionaries of a rule: a key that is absent is
    [None]. *)
Record When : Type := mkWhen {
  event_type : option (list string);
  asset_type : option (list string);
  asset_tags_any : option (list string);
  event_labels_any : option (list string);
  event_severity_gte : option pyval
}.

Record Calc : Type := mkCalc {
  base : option pyval;
  mul_severity : option pyval;
  mul_criticality : option pyval;
  if_label_bonus : option (list (string * pyval));
  if_tag_bonus : option (list (string * pyval))
}.

Record Rule : Type := mkRule {
  rule_id : string;
  rule_name : string;
  weight : float;
  when : When;
  calc : Calc
}.

Record Policy : Type := mkPolicy {
  policy_id : string;
  policy_name : string;
  policy_version : string;
  rules : list Rule
}.

Record Applied : Type := mkApplied {
  ap_rule : string;
  ap_name : string;
  ap_score : float
}.

Record ScoreResult : Type := mkScoreResult {
  sr_event : string;
  sr_asset : string;
  sr_score : float;
  sr_applied : list Applied;
  sr_ts : Z
}.

Record AssetAggregate : Type := mkAggregate {
  agg_count : Z;
  agg_sum : float;
  agg_avg : float;
  agg_max : float;
  agg_p95 : float;
  agg_p99 : float
}.

(** [AssetStore.assets] is a dictionary from id to record; [load] stores
    every record under its own id. *)
Abbreviation AssetStore := (gmap string Asset).

Definition AssetStore_put (a : Asset) (store : AssetStore) : AssetStore :=
  <[as_id a := a]> store.

Definition AssetStore_get (store : AssetStore) (aid : option string) : option Asset :=
  match aid with
  | Some k => store !! k
  | None => None
  end.

Definition store_keyed_by_id (store : AssetStore) : Prop :=
  forall k a, store !! k = Some a -> as_id a = k.

(** [by_asset] is a [defaultdict(list)]: keys in insertion order, each with
    the totals appended so far. *)
Fixpoint by_asset_append (k : string) (v : float) (m : list (string * list float))
  : list (string * list float) :=
  match m with
  | [] => [(k, [v])]
  | (k', vs) :: m' =>
      if String.eqb k k' then (k', vs ++ [v]) :: m'
      else (k', vs) :: by_asset_append k v m'
  end.

Definition in_list (x : string) (l : list string) : bool :=
  existsb (String.eqb x) l.

(** [set(a).intersection(set(b))] is non-empty. *)
Definition intersects (a b : list string) : bool :=
  existsb (fun x => in_list x b) a.

(** ** The engine

    Two built-ins of Python are not code of the repository and stay
    parameters: the parse of a numeric literal by [float(str)] ([None] for
    text that is no literal), and [sum] over a list of floats (plain
    left-to-right addition in older interpreters, compensated in newer
    ones). *)

Section Engine.

Variable float_of_str : string -> option float.
Variable py_sum : list float -> float.

(** [float(v)] *)
Definition py_float (v : pyval) : res float :=
  match v with
  | PyFloat f => Ok f
  | PyInt z => float_of_int z
  | PyBool b => Ok (if b then f1 else f0)
  | PyStr s =>
      match float_of_str s with
      | Some f => Ok f
      | None => Raise ValueError
      end
  | PyNone | PyList _ | PyDict _ => Raise TypeError
  end.

(** [to_num(v, d=0.0)]: [float(v)], or [d] on any exception. *)
Definition to_num (v : pyval) (d : float) : float :=
  match py_float v with
  | Ok f => f
  | Raise _ => d
  end.

(** [x in l] for [x = d.get(key)], which is [None] when the key is absent. *)
Definition opt_in (x : option string) (l : list string) : bool :=
  match x with
  | Some s => in_list s l
  | None => false
  end.

(** [Rule.match] *)
Definition Rule_match (r : Rule) (asset : Asset) (event : Event) : res bool :=
  let cond := when r in
  let ok := true in
  let ok := match event_type cond with
            | Some l => ok && opt_in (ev_type event) l
            | None => ok
            end in
  let ok := match asset_type cond with
            | Some l => ok && opt_in (as_type asset) l
            | None => ok
            end in
  let ok := match asset_tags_any cond with
            | Some l => if intersects (as_tags asset) l then ok else false
            | None => ok
            end in
  let ok := match event_labels_any cond with
            | Some l => if intersects (ev_labels event) l then ok else false
            | None => ok
            end in
  match event_severity_gte cond with
  | Some t =>
      if ok then
        let sev := to_num (get_default (ev_severity event) (PyInt 0)) f0 in
        th ← py_float t; Ok (fle th sev)
      else Ok false
  | None => Ok ok
  end.

(** The loop [for k, v in bonus.items(): if k in present: bonus += float(v)]. *)
Fixpoint add_bonus (items : list (string * pyval)) (present : list string)
    (bonus : float) : res float :=
  match items with
  | [] => Ok bonus
  | (k, v) :: rest =>
      if in_list k present then
        fv ← py_float v; add_bonus rest present (fadd bonus fv)
      else add_bonus rest present bonus
  end.

(** [Rule.score] *)
Definition Rule_score (r : Rule) (asset : Asset) (event : Event) : res float :=
  let c := calc r in
  b ← py_float (get_default (base c) (PyInt 0));
  sev ← py_float (get_default (ev_severity event) (PyInt 0));
  crit ← py_float (get_default (as_criticality asset) (PyInt 0));
  mul_sev ← py_float (get_default (mul_severity c) (PyInt 0));
  mul_crit ← py_float (get_default (mul_criticality c) (PyInt 0));
  bonus ← match if_label_bonus c with
          | Some items => add_bonus items (ev_labels event) f0
          | None => Ok f0
          end;
  bonus ← match if_tag_bonus c with
          | Some items => add_bonus items (as_tags asset) bonus
          | None => Ok bonus
          end;
  let s := fadd (fadd (fadd b (fmul sev mul_sev)) (fmul crit mul_crit)) bonus in
  Ok (py_max2 f0 (fmul s (weight r))).

(** The inner loop of [evaluate]: the rules in policy order. *)
Fixpoint apply_rules (rs : list Rule) (a : Asset) (e : Event)
    (total : float) (applied : list Applied) : res (float * list Applied) :=
  match rs with
  | [] => Ok (total, applied)
  | r :: rs' =>
      m ← Rule_match r a e;
      if m : bool then
        val ← Rule_score r a e;
        if negb (feq val f0) then
          apply_rules rs' a e (fadd total val)
            (applied ++ [mkApplied (rule_id r) (rule_name r) val])
        else apply_rules rs' a e total applied
      else apply_rules rs' a e total applied
  end.

Record RiskEngine : Type := mkEngine {
  assets : AssetStore;
  events : list Event;
  policy : Policy;
  results : list ScoreResult;
  by_asset : list (string * list float)
}.

(** [RiskEngine.__init__] *)
Definition RiskEngine_init (a : AssetStore) (es : list Event) (p : Policy) : RiskEngine :=
  mkEngine a es p [] [].

(** The body of the loop of [evaluate] for one event. *)
Definition evaluate_event (e : Event) (eng : RiskEngine) : res RiskEngine :=
  match AssetStore_get (assets eng) (ev_asset e) with
  | None => Ok eng
  | Some a =>
      '(total, applied) ← apply_rules (rules (policy eng)) a e f0 [];
      Ok (mkEngine (assets eng) (events eng) (policy eng)
            (results eng ++ [mkScoreResult (ev_id e) (as_id a) total applied (ev_ts e)])
            (by_asset_append (as_id a) total (by_asset eng)))
  end.

Fixpoint evaluate_loop (es : list Event) (eng : RiskEngine) : res RiskEngine :=
  match es with
  | [] => Ok eng
  | e :: es' => eng' ← evaluate_event e eng; evaluate_loop es' eng'
  end.

(** [RiskEngine.evaluate] *)
Definition evaluate (eng : RiskEngine) : res RiskEngine :=
  evaluate_loop (events eng) eng.

(** [RiskEngine.percentile] *)
Definition percentile (vals : list float) (p : pyval) : res float :=
  let s := py_sorted flt vals in
  match s with
  | [] => Ok f0
  | _ :: _ =>
      pf ← arith_float p;
      n1 ← float_of_int (Z.of_nat (length s) - 1);
      let k := fmul n1 (fdiv pf f100) in
      f ← float_floor k;
      c ← float_ceil k;
      if f =? c then
        i ← float_trunc k; py_index s i
      else
        sf ← py_index s f;
        fc ← float_of_int c;
        let d0 := fmul sf (fsub fc k) in
        sc ← py_index s c;
        ff ← float_of_int f;
        let d1 := fmul sc (fsub k ff) in
        Ok (fadd d0 d1)
  end.

(** The dictionary [aggregate] builds for one asset. *)
Definition asset_stats (vals : list float) : res AssetAggregate :=
  let n := Z.of_nat (length vals) in
  let total := py_sum vals in
  fn ← float_of_int n;
  let avg := fdiv (py_sum vals) fn in
  let mx := get_default (py_max vals) f0 in
  p95 ← percentile vals (PyInt 95);
  p99 ← percentile vals (PyInt 99);
  Ok (mkAggregate n total avg mx p95 p99).

Fixpoint aggregate_loop (items : list (string * list float))
    : res (list (string * AssetAggregate)) :=
  match items with
  | [] => Ok []
  | (aid, vals) :: rest =>
      match vals with
      | [] => aggregate_loop rest
      | _ :: _ =>
          st ← asset_stats vals;
          agg ← aggregate_loop rest;
          Ok ((aid, st) :: agg)
      end
  end.

(** [RiskEngine.aggregate] *)
Definition aggregate (eng : RiskEngine) : res (list (string * AssetAggregate)) :=
  aggregate_loop (by_asset eng).

(** ** Report shaping *)

Record SummaryRow : Type := mkRow {
  row_asset : string;
  row_name : string;
  row_type : string;
  row_avg : float;
  row_max : float;
  row_p95 : float;
  row_p99 : float;
  row_count : Z
}.

Definition summary_row (store : AssetStore) (aid : string) (m : AssetAggregate)
  : SummaryRow :=
  match store !! aid with
  | Some a =>
      mkRow (as_id a) (as_name a) (get_default (as_type a) "")
        (agg_avg m) (agg_max m) (agg_p95 m) (agg_p99 m) (agg_count m)
  | None =>
      mkRow aid aid "" (agg_avg m) (agg_max m) (agg_p95 m) (agg_p99 m) (agg_count m)
  end.

(** The sort key [(-x['max'], -x['avg'], x['asset'])]. *)
Definition sort_key (x : SummaryRow) : float * float * string :=
  (fopp (row_max x), fopp (row_avg x), row_asset x).

(** [<] on the key tuples: the first component that differs decides. *)
Definition key_lt (k1 k2 : float * float * string) : bool :=
  let '(a1, b1, c1) := k1 in
  let '(a2, b2, c2) := k2 in
  if negb (feq a1 a2) then flt a1 a2
  else if negb (feq b1 b2) then flt b1 b2
  else String.ltb c1 c2.

Definition row_lt (x y : SummaryRow) : bool := key_lt (sort_key x) (sort_key y).

(** [out['summary'].sort(key=...)] *)
Definition sort_summary (rows : list SummaryRow) : list SummaryRow :=
  py_sorted row_lt rows.

Record Report : Type := mkReport {
  generated_at : Z;
  authors : string;
  summary : list SummaryRow;
  details : list ScoreResult
}.

(** [export_report], up to the write of the file: the document it dumps. *)
Definition export_report (now : Z) (eng : RiskEngine) (store : AssetStore) : res Report :=
  agg ← aggregate eng;
  let rows := map (fun '(aid, m) => summary_row store aid m) agg in
  Ok (mkReport now "t.me/Bengamin_Button t.me/XillenAdapter"
        (sort_summary rows) (results eng)).

End Engine.

(** ** The engine as a function of its inputs

    What one call of [evaluate] computes, without the engine's state: the
    contribution of each rule, the result of each resolved event, and the
    batch of results of a list of events. *)

Section Batch.

Variable float_of_str : string -> option float.

(** The entry a rule adds to [applied], if any. *)
Definition rule_outcome (r : Rule) (a : Asset) (e : Event) : res (option Applied) :=
  m ← Rule_match float_of_str r a e;
  if m : bool then
    val ← Rule_score float_of_str r a e;
    Ok (if negb (feq val f0)
        then Some (mkApplied (rule_id r) (rule_name r) val)
        else None)
  else Ok None.

Fixpoint contributions (rs : list Rule) (a : Asset) (e : Event) : res (list Applied) :=
  match rs with
  | [] => Ok []
  | r :: rs' =>
      o ← rule_outcome r a e;
      cs ← contributions rs' a e;
      Ok (match o with Some x => x :: cs | None => cs end)
  end.

(** [total += val] over the applied entries, left to right. *)
Definition sum_scores (cs : list Applied) (total : float) : float :=
  fold_left fadd (map ap_score cs) total.

Definition score_event (store : AssetStore) (p : Policy) (e : Event)
  : res (option ScoreResult) :=
  match AssetStore_get store (ev_asset e) with
  | None => Ok None
  | Some a =>
      cs ← contributions (rules p) a e;
      Ok (Some (mkScoreResult (ev_id e) (as_id a) (sum_scores cs f0) cs (ev_ts e)))
  end.

Fixpoint score_events (store : AssetStore) (p : Policy) (es : list Event)
  : res (list ScoreResult) :=
  match es with
  | [] => Ok []
  | e :: es' =>
      o ← score_event store p e;
      rest ← score_events store p es';
      Ok (match o with Some r => r :: rest | None => rest end)
  end.

(** The engines a program can hold: a new one, and what a call of
    [evaluate] that returns makes of one. *)
Inductive evaluated : RiskEngine -> Prop :=
| evaluated_init store es pol :
    evaluated (RiskEngine_init store es pol)
| evaluated_call eng eng' :
    evaluated eng -> evaluate float_of_str eng = Ok eng' -> evaluated eng'.

(** The fields and policy values [Rule.score] passes to [float] all
    convert. *)
Definition opt_numeric (o : option pyval) : Prop :=
  match o with
  | Some v => returns (py_float float_of_str v)
  | None => True
  end.

Definition bonus_numeric (o : option (list (string * pyval))) : Prop :=
  match o with
  | Some items => Forall (fun kv => returns (py_float float_of_str (snd kv))) items
  | None => True
  end.

Definition score_inputs_numeric (r : Rule) (a : Asset) (e : Event) : Prop :=
  opt_numeric (base (calc r)) /\
  opt_numeric (ev_severity e) /\
  opt_numeric (as_criticality a) /\
  opt_numeric (mul_severity (calc r)) /\
  opt_numeric (mul_criticality (calc r)) /\
  bonus_numeric (if_label_bonus (calc r)) /\
  bonus_numeric (if_tag_bonus (calc r)).

End Batch.

(** [by_asset[r.asset].append(r.score)] for each result of a batch. *)
Definition record_scores (batch : list ScoreResult) (m : list (string * list float))
  : list (string * list float) :=
  fold_left (fun m r => by_asset_append (sr_asset r) (sr_score r) m) batch m.

(** The loop of [AssetStore.load]: each record is stored under its id. *)
Definition AssetStore_load (recs : list Asset) (store : AssetStore) : AssetStore :=
  fold_left (fun s a => AssetStore_put a s) recs store.

Definition resolves (store : AssetStore) (e : Event) : bool :=
  match AssetStore_get store (ev_asset e) with
  | Some _ => true
  | None => false
  end.

(** ** Specification-side definitions *)

(** A score that [evaluate] records: positive, finite or infinite. *)
Definition is_pos (x : float) : bool :=
  match x with
  | S754_finite false _ _ | S754_infinity false => true
  | _ => false
  end.

(** The order of the summary in words: larger maximum first, then larger
    average, then smaller asset id. *)
Definition summary_order (a b : SummaryRow) : Prop :=
  flt (row_max b) (row_max a) = true \/
  (feq (row_max a) (row_max b) = true /\
   (flt (row_avg b) (row_avg a) = true \/
    (feq (row_avg a) (row_avg b) = true /\
     String.leb (row_asset a) (row_asset b) = true))).

(** Maximum and average are numbers, not NaN. *)
Definition row_numbers (r : SummaryRow) : bool :=
  negb (is_nan (row_max r)) && negb (is_nan (row_avg r)).

(** [p] is a number in [0, 100]: an integer, a boolean, or a binary64
    value. *)
Definition percent (p : pyval) : bool :=
  match p with
  | PyInt z => (0 <=? z) && (z <=? 100)
  | PyBool _ => true
  | PyFloat f => valid_binary prec emax f && fle f0 f && fle f f100
  | _ => false
  end.

(** [p] as the float the arithmetic uses. *)
Definition percent_value (p : pyval) : float :=
  match p with
  | PyInt z => Z2f z
  | PyBool b => if b then f1 else f0
  | PyFloat f => f
  | _ => f0
  end.

Definition floor_Z (x : float) : Z :=
  match float_floor x with Ok z => z | Raise _ => 0 end.

Definition ceil_Z (x : float) : Z :=
  match float_ceil x with Ok z => z | Raise _ => 0 end.

(** The linear-interpolation order statistic as the specification words
    it: sort ascending, [k = (n-1) * p/100], [f = floor k], [c = ceil k],
    the element at [k] if [f = c] and the interpolation of the elements at
    [f] and [c] otherwise; 0 for no element. *)
Definition percentile_formula (vals : list float) (p : float) : float :=
  let sorted := py_sorted flt vals in
  let n := Z.of_nat (length sorted) in
  if n =? 0 then f0
  else
    let k := fmul (Z2f (n - 1)) (fdiv p f100) in
    let f := floor_Z k in
    let c := ceil_Z k in
    if f =? c then nth (Z.to_nat f) sorted f0
    else fadd (fmul (nth (Z.to_nat f) sorted f0) (fsub (Z2f c) k))
              (fmul (nth (Z.to_nat c) sorted f0) (fsub k (Z2f f))).

(** The bonuses that apply, as the specification words them: the values
    of the entries of the mapping whose key is present (in the labels of
    the event, in the tags of the asset), in the order of the mapping. *)
Definition bonus_terms (float_of_str : string -> option float)
    (o : option (list (string * pyval))) (present : list string) : list float :=
  match o with
  | Some items =>
      map (fun kv => to_num float_of_str (snd kv) f0)
        (List.filter (fun kv => in_list (fst kv) present) items)
  | None => []
  end.

(** [label_bonus]: the sum of the label bonuses that apply, from 0.0. *)
Definition label_bonus (float_of_str : string -> option float)
    (r : Rule) (e : Event) : float :=
  fold_left fadd (bonus_terms float_of_str (if_label_bonus (calc r)) (ev_labels e)) f0.

(** [label_bonus + tag_bonus]: the tag bonuses that apply, added one after
    the other to the label bonus. *)
Definition bonus_total (float_of_str : string -> option float)
    (r : Rule) (a : Asset) (e : Event) : float :=
  fold_left fadd (bonus_terms float_of_str (if_tag_bonus (calc r)) (as_tags a))
    (label_bonus float_of_str r e).

(** The event with another value in its severity field. *)
Definition with_severity (e : Event) (v : pyval) : Event :=
  mkEvent (ev_id e) (ev_ts e) (ev_asset e) (ev_type e) (Some v) (ev_labels e) (ev_data e).

(** The scores of the results of one asset, in the order of the results. *)
Definition scores_of (aid : string) (rs : list ScoreResult) : list float :=
  map sr_score (List.filter (fun r => String.eqb aid (sr_asset r)) rs).

(** The list stored under a key of [by_asset]; empty for an absent key. *)
Fixpoint assoc (k : string) (m : list (string * list float)) : list float :=
  match m with
  | [] => []
  | (k', vs) :: m' => if String.eqb k k' then vs else assoc k m'
  end.

(** [by_asset] holds, under the asset ids of the results, the scores of
    each asset. *)
Definition grouped (m : list (string * list float)) (rs : list ScoreResult) : Prop :=
  NoDup (map fst m) /\
  (forall k, assoc k m = scores_of k rs) /\
  (forall k, k ∈ map fst m <-> k ∈ map sr_asset rs).

(** ** Rounding: auxiliary definitions *)

(** The round or the sticky bit of a shifted mantissa is set. *)
Definition inexact (mrs : shr_record) : bool := shr_r mrs || shr_s mrs.

(** After [k] halvings of [m0]: the quotient, and a set round or sticky bit
    means that something was lost or that the start was inexact. *)
Definition shr_inv (m0 : Z) (i0 : bool) (k : Z) (mrs : shr_record) : Prop :=
  0 <= k /\ shr_m mrs = m0 / 2 ^ k /\
  (inexact mrs = true -> i0 = true \/ m0 / 2 ^ k * 2 ^ k < m0).

(** [x] is a zero, or a positive float [m * 2^e] with [e <= 0] whose value
    is at most the integer [B]. *)
Definition below (B : Z) (x : float) : Prop :=
  match x with
  | S754_zero _ => True
  | S754_finite false m e => e <= 0 /\ Z.pos m <= B * 2 ^ (- e)
  | _ => False
  end.

Definition below_b (x : float) : bool :=
  match x with
  | S754_zero _ => true
  | S754_finite false m e => (e <=? 0) && (Z.pos m <=? 2 ^ (- e))
  | _ => false
  end.

(** ** The built-in policy and the sample data *)

Definition no_when : When := mkWhen None None None None None.

(** [Policy(bootstrap_policy())]: every rule has an id, a name and the
    weight 1.0, so the constructors copy the dictionary. *)
Definition bootstrap_policy : Policy :=
  mkPolicy "default-policy" "Default Risk Policy" "1.0"
    [ mkRule "sev-asset" "Severity and criticality" f1
        (mkWhen (Some ["alert"; "anomaly"; "incident"]) None None None None)
        (mkCalc (Some (PyInt 0)) (Some (PyInt 60)) (Some (PyInt 50)) None None);
      mkRule "label-bonus" "Label bonus" f1
        (mkWhen None None None (Some ["privilege_escalation"; "exfil"; "lateral"]) None)
        (mkCalc (Some (PyInt 0)) None None
           (Some [("privilege_escalation", PyInt 30); ("exfil", PyInt 40);
                  ("lateral", PyInt 20)])
           None);
      mkRule "tag-bonus" "Asset tag bonus" f1
        (mkWhen None None (Some ["prod"; "pci"; "pii"]) None None)
        (mkCalc (Some (PyInt 10)) None None None
           (Some [("prod", PyInt 20); ("pci", PyInt 25); ("pii", PyInt 25)])) ].

(** 0.8 and 0.9 as binary64 ([0x1.999999999999ap-1], [0x1.ccccccccccccdp-1]). *)
Definition f0_8 : float := S754_finite false 7205759403792794 (-53).
Definition f0_9 : float := S754_finite false 8106479329266893 (-53).

Definition srv_1 : Asset :=
  mkAsset "srv-1" "srv-1" (Some "vm") ["prod"; "pci"] (Some (PyFloat f0_9)).

Definition e1 : Event :=
  mkEvent "e1" 0 (Some "srv-1") (Some "alert") (Some (PyFloat f0_8)) ["exfil"] (PyDict []).

(** An instance of the parser for closed examples, none of which has text
    in a numeric field: it reads no literal. *)
Definition no_literal : string -> option float := fun _ => None.

(** Left-to-right [sum], starting from the integer 0. *)
Definition sum_left (vals : list float) : float := fold_left fadd vals f0.

Definition scenario_engine : RiskEngine :=
  RiskEngine_init (AssetStore_put srv_1 ∅) [e1] bootstrap_policy.

(** An event whose severity is text. *)
Definition e_text : Event :=
  mkEvent "e9" 0 (Some "srv-1") (Some "alert") (Some (PyStr "high")) [] (PyDict []).

(** A rule on events of severity at least 0.5. *)
Definition severity_rule : Rule :=
  mkRule "sev" "sev" f1
    (mkWhen None None None None (Some (PyFloat (dec 5 10))))
    (mkCalc None (Some (PyInt 60)) None None None).

(** A rule with a negative base, multiplier, bonus and weight. *)
Definition negative_rule : Rule :=
  mkRule "neg" "neg" (Z2f (-2)) no_when
    (mkCalc (Some (PyInt (-5))) (Some (PyInt 60)) (Some (PyInt (-50)))
       (Some [("exfil", PyInt (-40))]) None).

(** The sorting scenario: B scores 10 and 0 (maximum 10, average 5), A
    scores 10 (maximum 10, average 10); B's events come first. *)
Definition asset_A : Asset := mkAsset "A" "A" (Some "vm") [] (Some (PyFloat f0)).
Definition asset_B : Asset := mkAsset "B" "B" (Some "vm") [] (Some (PyFloat f0)).

Definition times_ten : Policy :=
  mkPolicy "p" "p" "1.0"
    [mkRule "r" "r" f1 no_when (mkCalc None (Some (PyInt 10)) None None None)].

Definition sorting_events : list Event :=
  [ mkEvent "b1" 0 (Some "B") (Some "alert") (Some (PyFloat f1)) [] (PyDict []);
    mkEvent "b2" 0 (Some "B") (Some "alert") (Some (PyFloat f0)) [] (PyDict []);
    mkEvent "a1" 0 (Some "A") (Some "alert") (Some (PyFloat f1)) [] (PyDict []) ].

Definition sorting_store : AssetStore := AssetStore_put asset_B (AssetStore_put asset_A ∅).

Definition sorting_engine : RiskEngine :=
  match evaluate no_literal (RiskEngine_init sorting_store sorting_events times_ten) with
  | Ok eng => eng
  | Raise _ => RiskEngine_init sorting_store sorting_events times_ten
  end.

Definition row_A : SummaryRow :=
  mkRow "A" "A" "vm" (Z2f 10) (Z2f 10) (Z2f 10) (Z2f 10) 1.
Definition row_B : SummaryRow :=
  mkRow "B" "B" "vm" (Z2f 5) (Z2f 10) (dec 95 10) (dec 99 10) 2.

(** Three rules that always apply, with bases 1e16, 1 and 1. *)
Definition always (rid : string) (b : Z) : Rule :=
  mkRule rid rid f1 no_when (mkCalc (Some (PyInt b)) None None None None).

Definition big_first : list Rule :=
  [always "big" (10 ^ 16); always "one" 1; always "uno" 1].
Definition big_last : list Rule :=
  [always "one" 1; always "uno" 1; always "big" (10 ^ 16)].

(** An event on an asset that was never loaded. *)
Definition e_ghost : Event :=
  mkEvent "e7" 0 (Some "ghost") (Some "alert") (Some (PyFloat f0_8)) ["exfil"] (PyDict []).

(** ** The loaders and the constructors

    The records of a JSON document before [load] has put its defaults in:
    a key that is absent is [None], and a key that is present holds a value
    of the shape of the data model (a string for an id, a name, a type and
    the asset of an event, a list of strings for tags and labels), except
    for the fields [load] converts with [float] and [int], which hold any
    JSON value.  [load] itself checks none of these shapes: it stores
    [list(tags)], [list(labels)] and the asset as the file gives them, so
    these records describe the files of the data model and no others.
    [uuid4] and the
    clock are not code of the repository: [nid n] is the identifier of the
    [n]-th call of [nid()], [now t] the time at the [t]-th call of [now()];
    the loaders count the calls.  [int(str)] is a parameter as [float(str)]
    is. *)

(** 0.5, the default severity and criticality ([0x1.0p-1]). *)
Definition f0_5 : float := S754_finite false 4503599627370496 (-53).

Definition no_calc : Calc := mkCalc None None None None None.

Record RawAsset : Type := mkRawAsset {
  ra_id : option string;
  ra_name : option string;
  ra_type : option string;
  ra_tags : option (list string);
  ra_criticality : option pyval
}.

Record RawEvent : Type := mkRawEvent {
  re_id : option string;
  re_ts : option pyval;
  re_asset : option string;
  re_type : option string;
  re_severity : option pyval;
  re_labels : option (list string);
  re_data : option pyval
}.

Record RawRule : Type := mkRawRule {
  rr_id : option string;
  rr_name : option string;
  rr_weight : option pyval;
  rr_when : option When;
  rr_calc : option Calc
}.

Record RawPolicy : Type := mkRawPolicy {
  rp_id : option string;
  rp_name : option string;
  rp_version : option string;
  rp_rules : option (list RawRule)
}.

(** The dictionary [bootstrap_policy()] returns. *)
Definition bootstrap_policy_raw : RawPolicy :=
  mkRawPolicy (Some "default-policy") (Some "Default Risk Policy") (Some "1.0")
    (Some
       [ mkRawRule (Some "sev-asset") (Some "Severity and criticality")
           (Some (PyFloat f1))
           (Some (mkWhen (Some ["alert"; "anomaly"; "incident"]) None None None None))
           (Some (mkCalc (Some (PyInt 0)) (Some (PyInt 60)) (Some (PyInt 50)) None None));
         mkRawRule (Some "label-bonus") (Some "Label bonus") (Some (PyFloat f1))
           (Some (mkWhen None None None
                    (Some ["privilege_escalation"; "exfil"; "lateral"]) None))
           (Some (mkCalc (Some (PyInt 0)) None None
                    (Some [("privilege_escalation", PyInt 30); ("exfil", PyInt 40);
                           ("lateral", PyInt 20)])
                    None));
         mkRawRule (Some "tag-bonus") (Some "Asset tag bonus") (Some (PyFloat f1))
           (Some (mkWhen None None (Some ["prod"; "pci"; "pii"]) None None))
           (Some (mkCalc (Some (PyInt 10)) None None None
                    (Some [("prod", PyInt 20); ("pci", PyInt 25); ("pii", PyInt 25)]))) ]).

Section Loaders.

Variable float_of_str : string -> option float.
Variable int_of_str : string -> option Z.
Variable nid : nat -> string.
Variable now : nat -> Z.

(** [int(v)] *)
Definition py_int (v : pyval) : res Z :=
  match v with
  | PyInt z => Ok z
  | PyBool b => Ok (if b then 1 else 0)
  | PyFloat f => float_trunc f
  | PyStr s =>
      match int_of_str s with
      | Some z => Ok z
      | None => Raise ValueError
      end
  | PyNone | PyList _ | PyDict _ => Raise TypeError
  end.

(** [x or nid()]: the empty string is as false as [None]. *)
Definition or_nid (x : option string) (n : nat) : string * nat :=
  match x with
  | Some s => if String.eqb s "" then (nid n, S n) else (s, n)
  | None => (nid n, S n)
  end.

(** The record [AssetStore.load] stores for one asset of the file. *)
Definition load_asset (a : RawAsset) (n : nat) : res (Asset * nat) :=
  let '(aid, n') := or_nid (ra_id a) n in
  crit ← py_float float_of_str (get_default (ra_criticality a) (PyFloat f0_5));
  Ok (mkAsset aid (get_default (ra_name a) aid) (Some (get_default (ra_type a) ""))
        (get_default (ra_tags a) []) (Some (PyFloat crit)), n').

(** [AssetStore.load], from the list under the key [assets]. *)
Fixpoint AssetStore_load_json (recs : list RawAsset) (store : AssetStore) (n : nat)
  : res (AssetStore * nat) :=
  match recs with
  | [] => Ok (store, n)
  | a :: rest =>
      '(r, n') ← load_asset a n;
      AssetStore_load_json rest (AssetStore_put r store) n'
  end.

(** The record [EventStore.load] appends for one event of the file;
    [now()] is called for every event, as the default of [get]. *)
Definition load_event (e : RawEvent) (n t : nat) : res (Event * nat * nat) :=
  let '(eid, n') := or_nid (re_id e) n in
  ts ← py_int (get_default (re_ts e) (PyInt (now t)));
  sev ← py_float float_of_str (get_default (re_severity e) (PyFloat f0_5));
  Ok (mkEvent eid ts (re_asset e) (Some (get_default (re_type e) ""))
        (Some (PyFloat sev)) (get_default (re_labels e) [])
        (get_default (re_data e) (PyDict [])), n', S t).

(** [EventStore.load], from the list under the key [events]. *)
Fixpoint EventStore_load (recs : list RawEvent) (events : list Event) (n t : nat)
  : res (list Event * nat * nat) :=
  match recs with
  | [] => Ok (events, n, t)
  | e :: rest =>
      '(r, n', t') ← load_event e n t;
      EventStore_load rest (events ++ [r]) n' t'
  end.

(** [Rule.__init__] *)
Definition Rule_init (r : RawRule) (n : nat) : res (Rule * nat) :=
  let '(rid, n') := or_nid (rr_id r) n in
  w ← py_float float_of_str (get_default (rr_weight r) (PyFloat f1));
  Ok (mkRule rid (get_default (rr_name r) rid) w
        (get_default (rr_when r) no_when) (get_default (rr_calc r) no_calc), n').

(** [[Rule(r) for r in rules]] *)
Fixpoint Rules_init (rs : list RawRule) (n : nat) : res (list Rule * nat) :=
  match rs with
  | [] => Ok ([], n)
  | r :: rest =>
      '(r', n') ← Rule_init r n;
      '(rest', n'') ← Rules_init rest n';
      Ok (r' :: rest', n'')
  end.

(** [Policy.__init__] *)
Definition Policy_init (data : RawPolicy) (n : nat) : res (Policy * nat) :=
  let '(pid, n') := or_nid (rp_id data) n in
  '(rs, n'') ← Rules_init (get_default (rp_rules data) []) n';
  Ok (mkPolicy pid (get_default (rp_name data) pid)
        (get_default (rp_version data) "1.0") rs, n'').

(** [load_or_default]: [doc] is what reading the file gave, a document or
    an exception.  The built-in policy names everything, so the second
    construction reads no identifier, whatever the first one consumed. *)
Definition load_or_default (doc : res RawPolicy) (n : nat) : res Policy :=
  match doc ≫= (fun d => Policy_init d n) with
  | Ok (p, _) => Ok p
  | Raise _ => '(p, _) ← Policy_init bootstrap_policy_raw n; Ok p
  end.

End Loaders.

(** ** Queries, command-line pairs and the table *)

Record Query : Type := mkQuery {
  q_type : option string;
  q_label : option string;
  q_asset : option string
}.

(** A criterion counts when it is a non-empty string. *)
Definition criterion (x : option string) : option string :=
  match x with
  | Some s => if String.eqb s "" then None else Some s
  | None => None
  end.

Definition opt_eqb (x : option string) (s : string) : bool :=
  match x with
  | Some y => String.eqb y s
  | None => false
  end.

(** An event the loop of [filter_events] skips: one of the criteria that
    count does not hold. *)
Definition skipped (q : Query) (e : Event) : bool :=
  match criterion (q_type q) with
  | Some et => negb (opt_eqb (ev_type e) et)
  | None => false
  end
  || match criterion (q_label q) with
     | Some lab => negb (in_list lab (ev_labels e))
     | None => false
     end
  || match criterion (q_asset q) with
     | Some aid => negb (opt_eqb (ev_asset e) aid)
     | None => false
     end.

Fixpoint filter_loop (events : list Event) (q : Query) (out : list Event) : list Event :=
  match events with
  | [] => out
  | e :: rest =>
      if skipped q e then filter_loop rest q out
      else filter_loop rest q (out ++ [e])
  end.

(** [filter_events]; [None] is a query that is [None] or an empty
    dictionary. *)
Definition filter_events (events : list Event) (q : option Query) : list Event :=
  match q with
  | None => events
  | Some q => filter_loop events q []
  end.

(** [v.split('=', 1)] for a [v] that contains ['=']. *)
Fixpoint split_eq (v : string) : option (string * string) :=
  match v with
  | EmptyString => None
  | String c rest =>
      if Ascii.eqb c "=" then Some (EmptyString, rest)
      else match split_eq rest with
           | Some (k, x) => Some (String c k, x)
           | None => None
           end
  end.

Section Strings.

(** [str.strip] and [str] are built-ins. *)
Variable strip : string -> string.
Variable py_str : pyval -> string.

(** [read_cli_pairs] *)
Definition read_cli_pairs (values : list string) : gmap string string :=
  fold_left
    (fun res v =>
       match split_eq v with
       | Some (k, x) => <[strip k := strip x]> res
       | None => res
       end)
    values ∅.

(** [d.get(k)] on a dictionary given by its items. *)
Fixpoint dict_get (d : list (string * pyval)) (k : string) : option pyval :=
  match d with
  | [] => None
  | (k', v) :: d' => if String.eqb k k' then Some v else dict_get d' k
  end.

(** [str(r.get(c, ''))] *)
Definition cell (r : list (string * pyval)) (c : string) : string :=
  py_str (get_default (dict_get r c) (PyStr "")).

Fixpoint repeat_string (c : ascii) (n : nat) : string :=
  match n with
  | O => EmptyString
  | S n' => String c (repeat_string c n')
  end.

(** [s.ljust(w)] *)
Definition ljust (s : string) (w : nat) : string :=
  String.append s (repeat_string " " (w - String.length s)).

(** [sep.join(l)] *)
Definition join (sep : string) (l : list string) : string :=
  match l with
  | [] => EmptyString
  | x :: rest => fold_left (fun acc y => String.append acc (String.append sep y)) rest x
  end.

(** [w[i]] for an index in range. *)
Definition width_at (w : list nat) (i : nat) : nat := default 0%nat (w !! i).

(** The inner loop [for i, c in enumerate(cols): w[i] = max(w[i], ...)]. *)
Definition widen (cols : list string) (w : list nat) (r : list (string * pyval))
  : list nat :=
  fold_left
    (fun w ic => <[fst ic := Nat.max (width_at w (fst ic))
                               (String.length (cell r (snd ic)))]> w)
    (imap pair cols) w.

Definition widths (rows : list (list (string * pyval))) (cols : list string) : list nat :=
  fold_left (widen cols) rows (map String.length cols).

(** The lines [fmt_table] joins: the header, the rule, one line per row. *)
Definition fmt_lines (rows : list (list (string * pyval))) (cols : list string)
  : list string :=
  let w := widths rows cols in
  [ join " " (imap (fun i c => ljust c (width_at w i)) cols);
    join " " (map (fun i => repeat_string "-" (width_at w i)) (seq 0 (length cols))) ]
  ++ map (fun r => join " " (imap (fun i c => ljust (cell r c) (width_at w i)) cols))
       rows.

(** [fmt_table] *)
Definition fmt_table (rows : list (list (string * pyval))) (cols : list string) : string :=
  join (String "010" EmptyString) (fmt_lines rows cols).

End Strings.

(** ** The command [report] *)

Section Commands.

Variable float_of_str : string -> option float.
Variable py_sum : list float -> float.
Variable int_of_str : string -> option Z.
Variable nid : nat -> string.
Variable now : nat -> Z.

(** The branch [report] of [cli], from the lists of the two data files and
    from what reading the policy file gave, up to the write of the
    report: load the assets, load the events, take the policy or the
    built-in one, evaluate, export.  [export_report] reads the clock after
    the events were loaded. *)
Definition cmd_report (adoc : list RawAsset) (edoc : list RawEvent)
    (pdoc : res RawPolicy) (n t : nat) : res Report :=
  '(store, n1) ← AssetStore_load_json float_of_str nid adoc ∅ n;
  '(es, n2, t1) ← EventStore_load float_of_str int_of_str nid now edoc [] n1 t;
  p ← load_or_default float_of_str nid pdoc n2;
  eng ← evaluate float_of_str (RiskEngine_init store es p);
  export_report py_sum (now t1) eng store.

End Commands.

(** ** Well-formed inputs and other auxiliary definitions *)

(** The conditions of [when] other than the severity threshold. *)
Definition list_conditions (w : When) (a : Asset) (e : Event) : bool :=
  match event_type w with Some l => opt_in (ev_type e) l | None => true end
  && match asset_type w with Some l => opt_in (as_type a) l | None => true end
  && match asset_tags_any w with Some l => intersects (as_tags a) l | None => true end
  && match event_labels_any w with Some l => intersects (ev_labels e) l | None => true end.

Definition is_zero (x : float) : bool :=
  match x with S754_zero _ => true | _ => false end.

(** A total of scores: [+0.0], or positive, finite or infinite. *)
Definition nonneg (x : float) : bool :=
  match x with
  | S754_zero false | S754_finite false _ _ | S754_infinity false => true
  | _ => false
  end.

Section Numeric.

Variable float_of_str : string -> option float.

(** Every value the rule gives to [float] converts. *)
Definition rule_numeric (r : Rule) : Prop :=
  opt_numeric float_of_str (event_severity_gte (when r)) /\
  opt_numeric float_of_str (base (calc r)) /\
  opt_numeric float_of_str (mul_severity (calc r)) /\
  opt_numeric float_of_str (mul_criticality (calc r)) /\
  bonus_numeric float_of_str (if_label_bonus (calc r)) /\
  bonus_numeric float_of_str (if_tag_bonus (calc r)).

Definition policy_numeric (p : Policy) : Prop := Forall rule_numeric (rules p).

Definition store_numeric (store : AssetStore) : Prop :=
  forall k a, store !! k = Some a -> opt_numeric float_of_str (as_criticality a).

Definition events_numeric (es : list Event) : Prop :=
  Forall (fun e => opt_numeric float_of_str (ev_severity e)) es.

End Numeric.

(** The number of totals [by_asset] holds. *)
Definition by_asset_total (m : list (string * list float)) : nat :=
  list_sum (map (fun kv => length (snd kv)) m).

(** ** Sample inputs of the loaders and of the rules *)

(** Instances of [uuid4], of the clock and of [int(str)] for closed
    examples: the identifiers are numbered, the clock ticks once a call,
    and no text is read as an integer. *)
Definition sample_nid (n : nat) : string := String.append "uuid-" (repeat_string "i" n).
Definition sample_now (t : nat) : Z := 1700000000 + Z.of_nat t.
Definition no_int : string -> option Z := fun _ => None.

(** The first asset and the first event of the command [gen], as the
    file holds them. *)
Definition raw_srv_1 : RawAsset :=
  mkRawAsset (Some "srv-1") (Some "srv-1") (Some "vm") (Some ["prod"; "pci"])
    (Some (PyFloat f0_9)).

Definition raw_e1 : RawEvent :=
  mkRawEvent (Some "e1") (Some (PyInt 0)) (Some "srv-1") (Some "alert")
    (Some (PyFloat f0_8)) (Some ["exfil"]) None.

(** A rule that is switched off by its weight, and a rule without [calc]. *)
Definition zero_rule : Rule :=
  mkRule "off" "off" f0 no_when (mkCalc (Some (PyInt 5)) (Some (PyInt 60)) None None None).

Definition bare_rule : Rule := mkRule "bare" "bare" f1 no_when no_calc.

(** * Properties *)

(** ** Binary64: addition and order *)

(** Addition commutes, also on infinities, zeros and NaN. *)
Lemma fadd_comm x y : fadd x y = fadd y x.
Proof.
  destruct x as [[]|[]| |sx mx ex], y as [[]|[]| |sy my ey]; try reflexivity.
  unfold fadd, SFadd. by rewrite Z.min_comm, Z.add_comm.
Qed.

(** [0.0 + x] is [x] for a positive [x]. *)
Lemma fadd_f0_pos x : is_pos x = true -> fadd f0 x = x.
Proof. destruct x as [[]|[]| |[] m e]; cbv; intros; congruence. Qed.

(** A clamped value that is not zero is positive. *)
Lemma py_max2_pos z : feq (py_max2 f0 z) f0 = false -> is_pos (py_max2 f0 z) = true.
Proof. destruct z as [[]|[]| |[] m e]; cbv; intros; congruence. Qed.

(** Both comparisons of two finite floats, by cases. *)
Ltac cmp_cases ex ey mx my :=
  rewrite ?Pos.compare_cont_spec;
  rewrite (Z.compare_antisym ey ex), (Pos.compare_antisym my mx);
  destruct (ey ?= ex); destruct (my ?= mx)%positive; reflexivity.

(** Negating both sides reverses a comparison. *)
Lemma SFcompare_opp x y : SFcompare (SFopp x) (SFopp y) = SFcompare y x.
Proof.
  destruct x as [[]|[]| |[] mx ex], y as [[]|[]| |[] my ey]; simpl;
    try reflexivity; cmp_cases ex ey mx my.
Qed.

Lemma SFcompare_antisym x y :
  SFcompare y x = option_map CompOpp (SFcompare x y).
Proof.
  destruct x as [[]|[]| |[] mx ex], y as [[]|[]| |[] my ey]; simpl;
    try reflexivity; cmp_cases ex ey mx my.
Qed.

(** Transitivity of the order on floats. *)
Lemma SFcompare_Lt_trans x y z :
  SFcompare x y = Some Lt -> SFcompare y z = Some Lt -> SFcompare x z = Some Lt.
Proof.
  destruct x as [[]|[]| |[] mx ex], y as [[]|[]| |[] my ey], z as [[]|[]| |[] mz ez];
    simpl; try congruence.
  all: rewrite ?Pos.compare_cont_spec; simpl.
  all: destruct (ex ?= ey) eqn:Hxy; try congruence;
       destruct (ey ?= ez) eqn:Hyz; try congruence.
  all: try (apply Z.compare_eq in Hxy; subst ey).
  all: try (apply Z.compare_eq in Hyz; subst ez).
  all: rewrite ?Z.compare_refl, ?Hxy, ?Hyz.
  all: try (assert ((ex ?= ez) = Lt) as -> by (rewrite Z.compare_lt_iff in *; lia)).
  all: try (assert ((ex ?= ez) = Gt) as -> by (rewrite Z.compare_gt_iff in *; lia)).
  all: try congruence.
  all: destruct (mx ?= my)%positive eqn:Hm1; try (simpl; congruence);
       destruct (my ?= mz)%positive eqn:Hm2; try (simpl; congruence).
  all: intros _ _.
  all: try (assert ((mx ?= mz)%positive = Lt) as -> by (rewrite Pos.compare_lt_iff in *; lia)).
  all: try (assert ((mx ?= mz)%positive = Gt) as -> by (rewrite Pos.compare_gt_iff in *; lia)).
  all: reflexivity.
Qed.

(** Floats that compare equal compare alike with every third one. *)
Lemma SFcompare_Eq_l x y z :
  SFcompare x y = Some Eq -> SFcompare x z = SFcompare y z.
Proof.
  destruct x as [[]|[]| |[] mx ex], y as [[]|[]| |[] my ey]; simpl; try congruence.
  all: try (destruct z as [[]|[]| |[] mz ez]; simpl; congruence).
  all: rewrite ?Pos.compare_cont_spec; simpl.
  all: destruct (ex ?= ey) eqn:He; try congruence.
  all: destruct (mx ?= my)%positive eqn:Hm; try (simpl; congruence).
  all: apply Z.compare_eq in He; apply Pos.compare_eq in Hm; by subst.
Qed.

Lemma SFcompare_Eq_r x y z :
  SFcompare x y = Some Eq -> SFcompare z x = SFcompare z y.
Proof.
  intros H. rewrite (SFcompare_antisym x z), (SFcompare_antisym y z).
  by rewrite (SFcompare_Eq_l x y z H).
Qed.

Lemma flt_trans x y z : flt x y = true -> flt y z = true -> flt x z = true.
Proof.
  unfold flt, SFltb. intros Hxy Hyz.
  destruct (SFcompare x y) as [[]|] eqn:H1; try discriminate.
  destruct (SFcompare y z) as [[]|] eqn:H2; try discriminate.
  by rewrite (SFcompare_Lt_trans _ _ _ H1 H2).
Qed.

Lemma flt_asym x y : flt x y = true -> flt y x = false.
Proof.
  unfold flt, SFltb. rewrite (SFcompare_antisym x y).
  by destruct (SFcompare x y) as [[]|].
Qed.

Lemma feq_sym x y : feq x y = feq y x.
Proof.
  unfold feq, SFeqb. rewrite (SFcompare_antisym x y).
  by destruct (SFcompare x y) as [[]|].
Qed.

Lemma feq_flt_l x y z : feq x y = true -> flt x z = flt y z.
Proof.
  unfold feq, flt, SFeqb, SFltb. intros H.
  destruct (SFcompare x y) as [[]|] eqn:Hc; try discriminate.
  by rewrite (SFcompare_Eq_l _ _ z Hc).
Qed.

Lemma feq_flt_r x y z : feq x y = true -> flt z x = flt z y.
Proof.
  unfold feq, flt, SFeqb, SFltb. intros H.
  destruct (SFcompare x y) as [[]|] eqn:Hc; try discriminate.
  by rewrite (SFcompare_Eq_r _ _ z Hc).
Qed.

Lemma feq_feq_l x y z : feq x y = true -> feq x z = feq y z.
Proof.
  unfold feq, SFeqb. intros H.
  destruct (SFcompare x y) as [[]|] eqn:Hc; try discriminate.
  by rewrite (SFcompare_Eq_l _ _ z Hc).
Qed.

Lemma feq_not_flt x y : feq x y = true -> flt x y = false.
Proof. unfold feq, flt, SFeqb, SFltb. by destruct (SFcompare x y) as [[]|]. Qed.

(** The order of strings, by code units. *)
(** Two floats that are no NaN compare. *)
Lemma SFcompare_Some x y :
  is_nan x = false -> is_nan y = false -> exists c, SFcompare x y = Some c.
Proof.
  destruct x as [[]|[]| |[] mx ex], y as [[]|[]| |[] my ey]; try done;
    intros _ _; by eexists.
Qed.

Lemma not_flt_fle x y :
  is_nan x = false -> is_nan y = false -> flt x y = false -> fle y x = true.
Proof.
  intros Hx Hy. unfold flt, fle, SFltb, SFleb.
  rewrite (SFcompare_antisym y x).
  destruct (SFcompare_Some y x Hy Hx) as [c ->]. by destruct c.
Qed.

Lemma flt_irrefl x : flt x x = false.
Proof. destruct (flt x x) eqn:H; [|done]. by rewrite (flt_asym _ _ H) in H. Qed.

Lemma string_ltb_trans a b c :
  String.ltb a b = true -> String.ltb b c = true -> String.ltb a c = true.
Proof.
  unfold String.ltb. intros H1 H2.
  destruct (String.compare a b) eqn:Hab; try discriminate.
  destruct (String.compare b c) eqn:Hbc; try discriminate.
  apply OrderedTypeEx.String_as_OT.cmp_lt in Hab, Hbc.
  pose proof (OrderedTypeEx.String_as_OT.lt_trans _ _ _ Hab Hbc) as Hac.
  apply OrderedTypeEx.String_as_OT.cmp_lt in Hac.
  unfold OrderedTypeEx.String_as_OT.cmp in Hac. by rewrite Hac.
Qed.

Lemma string_ltb_asym a b : String.ltb a b = true -> String.ltb b a = false.
Proof.
  unfold String.ltb. rewrite (String.compare_antisym b a).
  destruct (String.compare a b); simpl; congruence.
Qed.

(** [<] on the sort keys is a strict order, NaN or not. *)
Lemma key_lt_asym k1 k2 : key_lt k1 k2 = true -> key_lt k2 k1 = false.
Proof.
  destruct k1 as [[a1 b1] c1], k2 as [[a2 b2] c2]. cbn [key_lt].
  rewrite (feq_sym a2 a1), (feq_sym b2 b1).
  destruct (feq a1 a2); simpl; [|apply flt_asym].
  destruct (feq b1 b2); simpl; [|apply flt_asym].
  apply string_ltb_asym.
Qed.

Lemma key_lt_trans k1 k2 k3 :
  key_lt k1 k2 = true -> key_lt k2 k3 = true -> key_lt k1 k3 = true.
Proof.
  destruct k1 as [[a1 b1] c1], k2 as [[a2 b2] c2], k3 as [[a3 b3] c3]. cbn [key_lt].
  destruct (feq a1 a2) eqn:Ha12; simpl.
  - rewrite (feq_feq_l _ _ a3 Ha12), (feq_flt_l _ _ a3 Ha12).
    destruct (feq a2 a3) eqn:Ha23; simpl; [|done].
    destruct (feq b1 b2) eqn:Hb12; simpl.
    + rewrite (feq_feq_l _ _ b3 Hb12), (feq_flt_l _ _ b3 Hb12).
      destruct (feq b2 b3) eqn:Hb23; simpl; [|done].
      apply string_ltb_trans.
    + intros H1. destruct (feq b2 b3) eqn:Hb23; simpl.
      * intros _. rewrite <- (feq_flt_r _ _ b1 Hb23).
        rewrite feq_sym in Hb23. rewrite feq_sym, (feq_feq_l _ _ b1 Hb23), feq_sym, Hb12.
        done.
      * intros H2. pose proof (flt_trans _ _ _ H1 H2) as H3. rewrite H3.
        destruct (feq b1 b3) eqn:Hb13; simpl; [|done].
        by rewrite (feq_not_flt _ _ Hb13) in H3.
  - intros H1. destruct (feq a2 a3) eqn:Ha23; simpl.
    + intros _. rewrite <- (feq_flt_r _ _ a1 Ha23).
      rewrite feq_sym in Ha23. rewrite feq_sym, (feq_feq_l _ _ a1 Ha23), feq_sym, Ha12.
      done.
    + intros H2. pose proof (flt_trans _ _ _ H1 H2) as H3. rewrite H3.
      destruct (feq a1 a3) eqn:Ha13; simpl; [|done].
      by rewrite (feq_not_flt _ _ Ha13) in H3.
Qed.

(** ** The stable sort *)

Section InsertionSort.

Context {A : Type} (lt : A -> A -> bool).
Hypothesis lt_asym : forall a b, lt a b = true -> lt b a = false.
Hypothesis lt_trans : forall a b c, lt a b = true -> lt b c = true -> lt a c = true.

(** Insertion keeps the elements and the order. *)
Lemma insert_sorted_perm x l : Permutation (x :: l) (insert_sorted lt x l).
Proof.
  induction l as [|y l IH]; simpl; [done|].
  destruct (lt x y); [done|].
  rewrite perm_swap. by apply perm_skip.
Qed.

Lemma insert_sorted_sorted x l :
  StronglySorted (fun a b => lt b a = false) l ->
  StronglySorted (fun a b => lt b a = false) (insert_sorted lt x l).
Proof.
  induction 1 as [|y l Hs IH Hy]; simpl.
  - repeat constructor.
  - destruct (lt x y) eqn:Hxy.
    + constructor; [by constructor|].
      constructor; [by apply lt_asym|].
      eapply Forall_impl; [exact Hy|]. simpl. intros z Hz.
      destruct (lt z x) eqn:Hzx; [|done].
      by rewrite (lt_trans _ _ _ Hzx Hxy) in Hz.
    + constructor; [done|].
      eapply Permutation_Forall; [apply insert_sorted_perm|].
      by constructor.
Qed.

Lemma py_sorted_acc l acc :
  StronglySorted (fun a b => lt b a = false) acc ->
  StronglySorted (fun a b => lt b a = false)
    (fold_left (fun acc x => insert_sorted lt x acc) l acc).
Proof.
  revert acc. induction l as [|x l IH]; intros acc Hacc; simpl; [done|].
  by apply IH, insert_sorted_sorted.
Qed.

Lemma py_sorted_sorted l :
  StronglySorted (fun a b => lt b a = false) (py_sorted lt l).
Proof. apply py_sorted_acc. constructor. Qed.

End InsertionSort.

(** The sort permutes its input, whatever [lt] is. *)
Lemma py_sorted_perm {A} (lt : A -> A -> bool) l : Permutation l (py_sorted lt l).
Proof.
  unfold py_sorted.
  assert (forall l acc,
            Permutation (l ++ acc) (fold_left (fun acc x => insert_sorted lt x acc) l acc)) as H.
  { clear. induction l as [|x l IH]; intros acc; simpl; [done|].
    etransitivity; [|apply IH].
    rewrite <- insert_sorted_perm. by rewrite Permutation_middle. }
  specialize (H l []). by rewrite app_nil_r in H.
Qed.

Lemma py_sorted_length {A} (lt : A -> A -> bool) l :
  length (py_sorted lt l) = length l.
Proof. symmetry. apply Permutation_length, py_sorted_perm. Qed.

(** ** Binary64: an upper bound on a rounded result *)

(** The exponent of the format: 53 bits, subnormals from [2^-1074]. *)
Lemma fexp_eq x : fexp prec emax x = Z.max (x - 53) (-1074).
Proof. reflexivity. Qed.

(** The number of binary digits. *)
Lemma Zdigits2_log2 p : Zdigits2 (Z.pos p) = Z.log2 (Z.pos p) + 1.
Proof.
  assert (forall q, digits2_pos q = Pos.size q) as Hsize.
  { induction q; simpl; congruence. }
  destruct p; simpl; rewrite ?Hsize; lia.
Qed.

Lemma Zdigits2_le m d : 0 <= d -> 0 <= m < 2 ^ d -> Zdigits2 m <= d.
Proof.
  intros Hd [Hm Hlt]. destruct m as [|p|p]; [simpl; lia| |lia].
  rewrite Zdigits2_log2.
  assert (Z.log2 (Z.pos p) < d); [|lia].
  apply Z.log2_lt_pow2; lia.
Qed.

(** One right shift halves the mantissa and remembers what it drops. *)
Lemma shr_1_spec mrs :
  0 <= shr_m mrs ->
  shr_m (shr_1 mrs) = shr_m mrs / 2 /\
  inexact (shr_1 mrs) = Z.odd (shr_m mrs) || inexact mrs.
Proof.
  destruct mrs as [m r s]. simpl. intros Hm.
  rewrite <- Z.div2_div.
  destruct m as [|[p|p|]|p]; try lia; unfold inexact; simpl; split; try reflexivity.
  all: by destruct r, s.
Qed.

Lemma shr_inv_step m0 i0 k mrs :
  0 <= m0 -> shr_inv m0 i0 k mrs -> shr_inv m0 i0 (k + 1) (shr_1 mrs).
Proof.
  intros Hm0 (Hk & Hm & Hi).
  assert (0 < 2 ^ k) as Hpow by (apply Z.pow_pos_nonneg; lia).
  assert (0 <= m0 / 2 ^ k) as Hq by (apply Z.div_pos; lia).
  destruct (shr_1_spec mrs) as [Hm1 Hi1]; [lia|].
  assert (m0 / 2 ^ (k + 1) = m0 / 2 ^ k / 2) as Hdiv.
  { rewrite Z.pow_add_r, Z.pow_1_r by lia. rewrite Z.div_div by lia. reflexivity. }
  split; [lia|]. split; [rewrite Hm1, Hm, Hdiv; reflexivity|].
  rewrite Hi1, Hm, Hdiv. rewrite Z.pow_add_r, Z.pow_1_r by lia.
  pose proof (Z.mul_div_le m0 (2 ^ k) Hpow) as Hle.
  pose proof (Z.div_mod (m0 / 2 ^ k) 2 ltac:(lia)) as Hdm.
  pose proof (Z.mod_pos_bound (m0 / 2 ^ k) 2 ltac:(lia)) as Hmod.
  intros Hor. apply orb_true_iff in Hor as [Hodd|Hin].
  - right. apply Z.odd_spec in Hodd as [h Hh]. nia.
  - destruct (Hi Hin) as [?|Hlt]; [by left|right]. nia.
Qed.

Lemma shr_inv_iter m0 i0 p :
  0 <= m0 -> forall k mrs,
  shr_inv m0 i0 k mrs -> shr_inv m0 i0 (k + Z.pos p) (SpecFloat.iter_pos shr_1 p mrs).
Proof.
  intros Hm0. induction p as [p IH|p IH|]; intros k mrs H; simpl.
  - replace (k + Z.pos p~1) with (k + 1 + Z.pos p + Z.pos p) by lia.
    apply IH, IH. by apply shr_inv_step.
  - replace (k + Z.pos p~0) with (k + Z.pos p + Z.pos p) by lia.
    by apply IH, IH.
  - by apply shr_inv_step.
Qed.

(** The shift to the format's exponent: [k] halvings, and a location
    other than exact only if the input was inexact or bits were lost. *)
Lemma shr_fexp_spec m e l :
  0 <= m ->
  exists k mrs,
    0 <= k /\
    shr_fexp prec emax m e l = (mrs, e + k) /\
    shr_m mrs = m / 2 ^ k /\
    (loc_of_shr_record mrs <> loc_Exact -> l <> loc_Exact \/ m / 2 ^ k * 2 ^ k < m) /\
    (k = 0 \/ e + k = fexp prec emax (Zdigits2 m + e)).
Proof.
  intros Hm. unfold shr_fexp, shr.
  assert (shr_inv m (negb (match l with loc_Exact => true | _ => false end)) 0
            (shr_record_of_loc m l)) as Hinv.
  { split; [lia|]. rewrite Z.pow_0_r, Z.div_1_r.
    split; [by destruct l as [|[]]|]. intros H. left. by destruct l as [|[]]. }
  assert (forall mrs, loc_of_shr_record mrs <> loc_Exact -> inexact mrs = true) as Hloc.
  { intros [m' [] []] H; try done. }
  destruct (fexp prec emax (Zdigits2 m + e) - e) as [|p|p] eqn:Hs.
  - exists 0, (shr_record_of_loc m l). rewrite Z.add_0_r.
    destruct Hinv as (_ & Hm' & Hi). repeat split; try done; [|by left].
    intros Hne. destruct (Hi (Hloc _ Hne)) as [Hl|?]; [left|by right].
    by destruct l.
  - apply (shr_inv_iter _ _ p Hm) in Hinv. simpl in Hinv.
    exists (Z.pos p), (SpecFloat.iter_pos shr_1 p (shr_record_of_loc m l)).
    destruct Hinv as (_ & Hm' & Hi). repeat split; try done; [|right; lia].
    intros Hne. destruct (Hi (Hloc _ Hne)) as [Hl|?]; [left|by right].
    by destruct l.
  - exists 0, (shr_record_of_loc m l). rewrite Z.add_0_r.
    destruct Hinv as (_ & Hm' & Hi). repeat split; try done; [|by left].
    intros Hne. destruct (Hi (Hloc _ Hne)) as [Hl|?]; [left|by right].
    by destruct l.
Qed.

(** Rounding to nearest even adds at most one, and nothing to an exact
    mantissa. *)
Lemma round_nearest_even_spec m l :
  m <= round_nearest_even m l <= m + 1 /\
  (round_nearest_even m l <> m -> l <> loc_Exact).
Proof.
  destruct l as [|[]]; simpl; try (split; [lia|done]).
  destruct (Z.even m); split; try lia; done.
Qed.

Lemma pow2_split a b : 0 <= a -> 0 <= b -> 2 ^ (a + b) = 2 ^ a * 2 ^ b.
Proof. intros. apply Z.pow_add_r; lia. Qed.

Lemma fexp_nonpos m e B :
  0 <= m -> e <= 0 -> 0 < B < 2 ^ 53 -> m <= B * 2 ^ (- e) ->
  fexp prec emax (Zdigits2 m + e) <= 0.
Proof.
  intros Hm He HB Hle. rewrite fexp_eq.
  assert (Zdigits2 m <= 53 - e); [|lia].
  apply Zdigits2_le; [lia|]. split; [done|].
  replace (53 - e) with (53 + - e) by lia. rewrite pow2_split by lia.
  assert (0 < 2 ^ (- e)) by (apply Z.pow_pos_nonneg; lia). nia.
Qed.

(** Rounding is monotone below a representable integer: a non-negative
    value [m * 2^e] (or, when inexact, a value strictly between it and the
    next multiple of [2^e]) that is at most [B < 2^53] rounds to a zero or
    a positive finite float that is at most [B]; it never overflows. *)
Lemma binary_round_aux_below m e l B :
  0 <= m -> e <= 0 -> 0 < B < 2 ^ 53 ->
  (l = loc_Exact -> m <= B * 2 ^ (- e)) ->
  (l <> loc_Exact -> m < B * 2 ^ (- e)) ->
  below B (binary_round_aux prec emax false m e l).
Proof.
  intros Hm He HB Hex Hin.
  assert (m <= B * 2 ^ (- e)) as Hle.
  { destruct l; [by apply Hex|]. apply Z.lt_le_incl. by apply Hin. }
  unfold binary_round_aux.
  destruct (shr_fexp_spec m e l Hm) as (k & mrs & Hk & -> & Hm' & Hloc & Hke).
  destruct (round_nearest_even_spec (shr_m mrs) (loc_of_shr_record mrs))
    as [Hr1 Hr2].
  set (m1 := round_nearest_even (shr_m mrs) (loc_of_shr_record mrs)) in *.
  assert (0 < 2 ^ k) as Hpk by (apply Z.pow_pos_nonneg; lia).
  assert (0 <= m / 2 ^ k) as Hq by (apply Z.div_pos; lia).
  pose proof (Z.mul_div_le m (2 ^ k) Hpk) as Hdl.
  pose proof (Z.mul_succ_div_gt m (2 ^ k) Hpk) as Hdu.
  assert (e + k <= 0) as He1.
  { destruct Hke as [-> | ->]; [lia|]. by eapply fexp_nonpos. }
  assert (2 ^ (- e) = 2 ^ (- (e + k)) * 2 ^ k) as Hsplit.
  { rewrite <- pow2_split by lia. f_equal. lia. }
  assert (0 < 2 ^ (- (e + k))) as Hpe by (apply Z.pow_pos_nonneg; lia).
  assert (m1 <= B * 2 ^ (- (e + k))) as Hm1.
  { destruct (Z.eq_dec m1 (shr_m mrs)) as [Heq|Hne].
    - rewrite Heq, Hm'. rewrite Hsplit in Hle. nia.
    - assert (shr_m mrs * 2 ^ k < B * 2 ^ (- (e + k)) * 2 ^ k); [|nia].
      destruct (Hloc (Hr2 Hne)) as [Hl|Hlt].
      + specialize (Hin Hl). rewrite Hsplit in Hin. rewrite Hm'. nia.
      + rewrite Hsplit in Hle. rewrite Hm'. nia. }
  assert (0 <= m1) as Hm1pos by lia.
  destruct (shr_fexp_spec m1 (e + k) loc_Exact Hm1pos)
    as (k2 & mrs2 & Hk2 & -> & Hm2 & _ & Hke2).
  assert (0 < 2 ^ k2) as Hpk2 by (apply Z.pow_pos_nonneg; lia).
  assert (0 <= m1 / 2 ^ k2) as Hq2 by (apply Z.div_pos; lia).
  pose proof (Z.mul_div_le m1 (2 ^ k2) Hpk2) as Hdl2.
  assert (e + k + k2 <= 0) as He2.
  { destruct Hke2 as [-> | ->]; [lia|]. by eapply fexp_nonpos. }
  assert (2 ^ (- (e + k)) = 2 ^ (- (e + k + k2)) * 2 ^ k2) as Hsplit2.
  { rewrite <- pow2_split by lia. f_equal. lia. }
  assert (0 < 2 ^ (- (e + k + k2))) as Hpe2 by (apply Z.pow_pos_nonneg; lia).
  rewrite Hm2. destruct (m1 / 2 ^ k2) as [|q|q] eqn:Hq2e; [done| |lia].
  assert ((e + k + k2 <=? emax - prec) = true) as ->.
  { apply Z.leb_le. change (emax - prec) with 971. lia. }
  simpl. split; [done|]. rewrite Hsplit2 in Hm1. nia.
Qed.

(** [shl_align] shifts left without changing the value. *)
Lemma iter_xO_pow m d : Z.pos (Pos.iter xO m d) = Z.pos m * 2 ^ Z.pos d.
Proof.
  induction d as [|d IH] using Pos.peano_ind.
  - simpl. lia.
  - rewrite Pos.iter_succ, Pos2Z.inj_succ, Z.pow_succ_r by lia.
    rewrite Pos2Z.inj_xO, IH. lia.
Qed.

Lemma shl_align_spec mx ex ex' :
  let '(mz, ez) := shl_align mx ex ex' in
  ez <= ex /\ Z.pos mz = Z.pos mx * 2 ^ (ex - ez).
Proof.
  unfold shl_align. destruct (ex' - ex) as [|d|d] eqn:Hd.
  - rewrite Z.sub_diag. simpl. lia.
  - rewrite Z.sub_diag. simpl. lia.
  - split; [lia|]. rewrite iter_xO_pow. f_equal. f_equal. lia.
Qed.

(** [float(N)] is at most [N], for [0 <= N < 2^53]. *)
Lemma Z2f_below N : 0 <= N < 2 ^ 53 -> below N (Z2f N).
Proof.
  intros [HN0 HN]. destruct N as [|n|n]; [done| |lia].
  unfold Z2f, binary_normalize, binary_round.
  pose proof (shl_align_spec n 0 (fexp prec emax (Z.pos (digits2_pos n) + 0))) as Hsh.
  destruct (shl_align n 0 (fexp prec emax (Z.pos (digits2_pos n) + 0))) as [mz ez].
  destruct Hsh as [Hez Hmz].
  apply binary_round_aux_below; try done; try lia.
  intros _. rewrite Hmz. apply Z.eq_le_incl. f_equal.
Qed.

Lemma below_not_inf B x : below B x -> is_inf x = false.
Proof. by destruct x as [| | |[]]. Qed.

Lemma float_of_int_below N :
  0 <= N < 2 ^ 53 -> float_of_int N = Ok (Z2f N) /\ below N (Z2f N).
Proof.
  intros HN. pose proof (Z2f_below N HN) as Hb. split; [|done].
  unfold float_of_int. by rewrite (below_not_inf _ _ Hb).
Qed.

(** A product with a factor at most 1 stays below the bound. *)
Lemma fmul_below N a x :
  N < 2 ^ 53 -> below N a -> below 1 x -> below N (fmul a x).
Proof.
  intros HN Ha Hx.
  destruct a as [sa| | |[] ma ea], x as [sx| | |[] mx ex]; try done.
  destruct Ha as [Hea Hma], Hx as [Hex Hmx].
  assert (0 < 2 ^ (- ea)) by (apply Z.pow_pos_nonneg; lia).
  assert (0 < 2 ^ (- ex)) by (apply Z.pow_pos_nonneg; lia).
  unfold fmul, SFmul. simpl xorb.
  apply binary_round_aux_below; try done; try lia.
  intros _. replace (- (ea + ex)) with (- ea + - ex) by lia.
  rewrite pow2_split by lia. rewrite Pos2Z.inj_mul. nia.
Qed.

(** [floor], [ceil] and [int] of a float in [0, N] are integers in
    [0, N]. *)
Lemma floor_ceil_below N k :
  below N k ->
  exists f c,
    float_floor k = Ok f /\ float_ceil k = Ok c /\ float_trunc k = Ok f /\
    0 <= f /\ f <= c /\ c <= Z.max N 0.
Proof.
  destruct k as [s| | |[] m e]; try done.
  - intros _. exists 0, 0. repeat split; try done; try lia.
  - intros [He Hm]. unfold float_ceil, float_trunc, float_floor. simpl.
    assert (0 < 2 ^ (- e)) as Hp by (apply Z.pow_pos_nonneg; lia).
    destruct (Z.leb_spec 0 e) as [He0|He0].
    + assert (e = 0) as -> by lia. simpl in *.
      rewrite !Z.shiftl_0_r. eexists. eexists. repeat split; try done; lia.
    + rewrite !Z.shiftr_div_pow2 by lia.
      eexists. eexists. repeat split; try done.
      * apply Z.div_pos; lia.
      * pose proof (Z.mul_div_le (Z.pos m) (2 ^ (- e)) Hp).
        pose proof (Z.mul_div_le (Z.neg m) (2 ^ (- e)) Hp). nia.
      * assert (- N <= Z.neg m / 2 ^ (- e)); [|lia].
        apply Z.div_le_lower_bound; [done|]. lia.
Qed.

(** [p / 100.0] is at most 1 for every integer [p] of [0, 100], by
    evaluation of the 101 quotients. *)
Lemma below_b_spec x : below_b x = true -> below 1 x.
Proof.
  destruct x as [s| | |[] m e]; try done. simpl.
  rewrite andb_true_iff, Z.leb_le, Z.leb_le. lia.
Qed.

Lemma int_percent_below z : 0 <= z <= 100 -> below 1 (fdiv (Z2f z) f100).
Proof.
  intros Hz.
  assert (forallb (fun n => below_b (fdiv (Z2f (Z.of_nat n)) f100)) (seq 0 101) = true)
    as H by (vm_compute; reflexivity).
  rewrite forallb_forall in H. specialize (H (Z.to_nat z)).
  rewrite Z2Nat.id in H by lia. apply below_b_spec, H, in_seq. lia.
Qed.

(** A valid mantissa has at most 53 bits. *)
Lemma Zdigits2_gt p : Z.pos p < 2 ^ Zdigits2 (Z.pos p).
Proof.
  rewrite Zdigits2_log2.
  destruct (Z.log2_spec (Z.pos p)) as [_ H]; [lia|].
  by rewrite <- Z.add_1_r in H.
Qed.

Lemma valid_mantissa_lt m e :
  valid_binary prec emax (S754_finite false m e) = true -> Z.pos m < 2 ^ 53.
Proof.
  simpl. unfold bounded, canonical_mantissa.
  rewrite andb_true_iff, Z.eqb_eq, fexp_eq. intros [Hc _].
  pose proof (Zdigits2_gt m) as Hd. simpl in Hd.
  eapply Z.lt_le_trans; [exact Hd|]. apply Z.pow_le_mono_r; lia.
Qed.

(** [<=] on two positive finite floats, by exponent and mantissa. *)
Lemma fle_finite_cases mp ep m2 e2 :
  fle (S754_finite false mp ep) (S754_finite false m2 e2) = true ->
  ep < e2 \/ (ep = e2 /\ Z.pos mp <= Z.pos m2).
Proof.
  unfold fle, SFleb, SFcompare. rewrite Pos.compare_cont_spec. unfold Pos.switch_Eq.
  destruct (ep ?= e2) eqn:He; [| |done].
  - apply Z.compare_eq in He.
    destruct (mp ?= m2)%positive eqn:Hm; try done; intros _; right.
    + apply Pos.compare_eq in Hm. split; [done|]. rewrite Hm. lia.
    + rewrite Pos.compare_lt_iff in Hm. split; [done|]. lia.
  - intros _. left. by rewrite Z.compare_lt_iff in He.
Qed.

(** The quotient of two positive floats, the first at most the second, is
    at most 1. *)
Lemma fdiv_below_one mp ep m2 e2 :
  Z.pos mp < 2 ^ 53 -> 2 ^ 52 <= Z.pos m2 ->
  ep < e2 \/ (ep = e2 /\ Z.pos mp <= Z.pos m2) ->
  below 1 (fdiv (S754_finite false mp ep) (S754_finite false m2 e2)).
Proof.
  intros Hmp Hm2 Hcases.
  unfold fdiv, SFdiv, SFdiv_core_binary. cbn [xorb].
  set (e' := Z.min (fexp prec emax (Zdigits2 (Z.pos mp) + ep
                     - (Zdigits2 (Z.pos m2) + e2))) (ep - e2)).
  assert (e' <= ep - e2) as He' by (unfold e'; lia).
  set (m' := match ep - e2 - e' with
             | 0 => Z.pos mp
             | Z.pos _ => Z.shiftl (Z.pos mp) (ep - e2 - e')
             | Z.neg _ => 0
             end).
  assert (m' = Z.pos mp * 2 ^ (ep - e2 - e')) as Hm'.
  { unfold m'. destruct (ep - e2 - e') as [|s|s] eqn:Hs; [| |lia].
    - rewrite Z.pow_0_r. lia.
    - rewrite Z.shiftl_mul_pow2 by lia. reflexivity. }
  clearbody m' e'.
  assert (0 < 2 ^ (- e')) as Hpe by (apply Z.pow_pos_nonneg; lia).
  assert (0 < 2 ^ (ep - e2 - e')) as Hps by (apply Z.pow_pos_nonneg; lia).
  assert (m' <= Z.pos m2 * 2 ^ (- e')) as Hbound.
  { rewrite Hm'. destruct Hcases as [Hlt|[-> Hm]].
    - assert (2 ^ 53 * 2 ^ (ep - e2 - e') <= 2 ^ 52 * 2 ^ (- e')) as Hpow.
      { rewrite <- !pow2_split by lia. apply Z.pow_le_mono_r; lia. }
      nia.
    - replace (e2 - e2 - e') with (- e') by lia. nia. }
  pose proof (Z_div_mod m' (Z.pos m2) ltac:(lia)) as Hdiv.
  destruct (Z.div_eucl m' (Z.pos m2)) as [q r].
  destruct Hdiv as [Hqr Hr].
  assert (0 <= q) by nia.
  apply binary_round_aux_below; try lia.
  - intros _. rewrite Z.mul_1_l. nia.
  - rewrite Z.mul_1_l. unfold new_location, new_location_even, new_location_odd.
    destruct (Z.eqb_spec r 0) as [->|Hr0]; [by destruct (Z.even _)|]. intros _. nia.
Qed.

(** [p / 100.0] is at most 1 for every binary64 [p] of [0, 100]. *)
Lemma float_percent_below pf :
  valid_binary prec emax pf = true -> fle f0 pf = true -> fle pf f100 = true ->
  below 1 (fdiv pf f100).
Proof.
  intros Hv H0 Hle.
  destruct pf as [s|[]| |[] mp ep]; try done.
  apply fdiv_below_one.
  - by apply valid_mantissa_lt in Hv.
  - lia.
  - by apply fle_finite_cases.
Qed.

(** *** Indexing and the percentile argument *)

(** An index in range reads the element. *)
Lemma py_index_nth {A} (s : list A) i d :
  0 <= i < Z.of_nat (length s) -> py_index s i = Ok (nth (Z.to_nat i) s d).
Proof.
  intros Hi. unfold py_index.
  destruct (Z.ltb_spec i 0) as [?|_]; [lia|].
  destruct (Z.leb_spec 0 i) as [_|?]; [|lia].
  destruct (Z.ltb_spec i (Z.of_nat (length s))) as [_|?]; [|lia]. simpl.
  rewrite nth_lookup.
  destruct (s !! Z.to_nat i) as [x|] eqn:Hl; [done|].
  apply lookup_ge_None in Hl. lia.
Qed.

Lemma percent_below p :
  percent p = true ->
  arith_float p = Ok (percent_value p) /\ below 1 (fdiv (percent_value p) f100).
Proof.
  assert (2 ^ 53 = 9007199254740992) as Hpow by reflexivity.
  destruct p as [|b|z|f|s|l|l]; try done; simpl.
  - intros _. split; [done|]. by destruct b.
  - rewrite andb_true_iff, !Z.leb_le. intros Hz. split.
    + apply float_of_int_below. lia.
    + by apply int_percent_below.
  - rewrite !andb_true_iff. intros [[Hv H0] H100]. split; [done|].
    by apply float_percent_below.
Qed.

(** On a non-empty list [percentile] raises nothing and returns the
    value of the formula. *)
Lemma percentile_total vals p :
  (0 < length vals)%nat -> Z.of_nat (length vals) <= 2 ^ 53 -> percent p = true ->
  percentile vals p = Ok (percentile_formula vals (percent_value p)).
Proof.
  intros Hpos Hlen Hp.
  assert (2 ^ 53 = 9007199254740992) as Hpow by reflexivity.
  unfold percentile, percentile_formula.
  pose proof (py_sorted_length flt vals) as Hsl.
  destruct (py_sorted flt vals) as [|x s] eqn:Hs; [simpl in Hsl; lia|].
  set (n := Z.of_nat (length (x :: s))) in *.
  assert (1 <= n <= 2 ^ 53) as Hn by (unfold n; rewrite Hsl; lia).
  destruct (percent_below p Hp) as [-> Hx]. cbn [mbind res_bind].
  destruct (float_of_int_below (n - 1)) as [-> Hn1]; [lia|]. cbn [mbind res_bind].
  destruct (Z.eqb_spec n 0) as [?|_]; [lia|].
  assert (below (n - 1) (fmul (Z2f (n - 1)) (fdiv (percent_value p) f100))) as Hk.
  { apply fmul_below; [lia|done|done]. }
  destruct (floor_ceil_below _ _ Hk) as (f & c & Hf & Hc & Ht & Hf0 & Hfc & HcN).
  unfold floor_Z, ceil_Z. rewrite Hf, Hc. cbn [mbind res_bind].
  destruct (Z.eqb_spec f c) as [Heq|Hne].
  - rewrite Ht. cbn [mbind res_bind]. apply py_index_nth. fold n. lia.
  - rewrite (py_index_nth _ f f0) by (fold n; lia). cbn [mbind res_bind].
    destruct (float_of_int_below c) as [-> _]; [lia|]. cbn [mbind res_bind].
    rewrite (py_index_nth _ c f0) by (fold n; lia). cbn [mbind res_bind].
    destruct (float_of_int_below f) as [-> _]; [lia|]. done.
Qed.

Section Properties.

Variable float_of_str : string -> option float.
Variable py_sum : list float -> float.

(** A sequence returns when both of its parts do. *)
Lemma bind_Ok {A B} (m : res A) (f : A -> res B) (b : B) :
  m ≫= f = Ok b <-> exists a, m = Ok a /\ f a = Ok b.
Proof.
  destruct m as [a|x]; simpl; split.
  - intros H. exists a. auto.
  - intros (a' & Ha & Hf). congruence.
  - discriminate.
  - intros (a' & Ha & _). discriminate.
Qed.

(** The inner loop adds the contributions of the rules to its
    accumulators. *)
Lemma apply_rules_contributions rs a e total applied :
  apply_rules float_of_str rs a e total applied =
  cs ← contributions float_of_str rs a e;
  Ok (sum_scores cs total, applied ++ cs).
Proof.
  revert total applied.
  induction rs as [|r rs IH]; intros total applied; simpl.
  - by rewrite app_nil_r.
  - unfold rule_outcome.
    destruct (Rule_match float_of_str r a e) as [[|]|x]; simpl; [| |done].
    + destruct (Rule_score float_of_str r a e) as [val|x]; simpl; [|done].
      destruct (negb (feq val f0)); rewrite IH;
        destruct (contributions float_of_str rs a e) as [cs|x]; simpl; try done.
      by rewrite <- app_assoc.
    + rewrite IH. by destruct (contributions float_of_str rs a e).
Qed.

(** One event appends its result, if it has one. *)
Lemma evaluate_event_score_event e eng :
  evaluate_event float_of_str e eng =
  o ← score_event float_of_str (assets eng) (policy eng) e;
  Ok (match o with
      | Some r => mkEngine (assets eng) (events eng) (policy eng)
                    (results eng ++ [r])
                    (by_asset_append (sr_asset r) (sr_score r) (by_asset eng))
      | None => eng
      end).
Proof.
  unfold evaluate_event, score_event.
  destruct (AssetStore_get (assets eng) (ev_asset e)) as [a|]; [|done].
  rewrite apply_rules_contributions.
  by destruct (contributions float_of_str (rules (policy eng)) a e).
Qed.

(** One run of the loop of [evaluate] appends the batch of its events. *)
Lemma evaluate_loop_batch es eng :
  evaluate_loop float_of_str es eng =
  batch ← score_events float_of_str (assets eng) (policy eng) es;
  Ok (mkEngine (assets eng) (events eng) (policy eng)
        (results eng ++ batch) (record_scores batch (by_asset eng))).
Proof.
  revert eng. induction es as [|e es IH]; intros eng; simpl.
  - rewrite app_nil_r. by destruct eng.
  - rewrite evaluate_event_score_event.
    destruct (score_event float_of_str (assets eng) (policy eng) e) as [[r|]|x];
      simpl; [| |done].
    + rewrite IH; simpl.
      destruct (score_events float_of_str (assets eng) (policy eng) es); simpl; [|done].
      by rewrite <- app_assoc.
    + rewrite IH. by destruct (score_events float_of_str (assets eng) (policy eng) es).
Qed.

(** *** Clamping *)

Lemma py_max2_nonneg x : fle f0 (py_max2 f0 x) = true.
Proof. by destruct x as [[]|[]| |[] m e]. Qed.

Lemma py_max2_not_nan x : is_nan (py_max2 f0 x) = false.
Proof. by destruct x as [[]|[]| |[] m e]. Qed.

Lemma opt_numeric_default o :
  opt_numeric float_of_str o ->
  returns (py_float float_of_str (get_default o (PyInt 0))).
Proof. destruct o as [v|]; simpl; [done|]. intros _. by eexists. Qed.

Lemma add_bonus_returns items present bonus :
  Forall (fun kv => returns (py_float float_of_str (snd kv))) items ->
  returns (add_bonus float_of_str items present bonus).
Proof.
  intros H. revert bonus.
  induction H as [|[k v] items [fv Hv] _ IH]; intros bonus; simpl.
  - by eexists.
  - destruct (in_list k present); [|apply IH].
    simpl in Hv. rewrite Hv. simpl. apply IH.
Qed.

(** Whenever [Rule.score] returns, the value is [>= 0] and not a NaN. *)
Lemma Rule_score_Ok_nonneg r a e v :
  Rule_score float_of_str r a e = Ok v -> fle f0 v = true /\ is_nan v = false.
Proof.
  unfold Rule_score. intros H.
  repeat (apply bind_Ok in H as (? & _ & H)).
  injection H as <-. split; [apply py_max2_nonneg|apply py_max2_not_nan].
Qed.

(** The loop over a bonus mapping adds, in the order of the mapping, the
    values of the entries whose key is present. *)
Lemma add_bonus_terms items present bonus :
  Forall (fun kv => returns (py_float float_of_str (snd kv))) items ->
  add_bonus float_of_str items present bonus =
  Ok (fold_left fadd (bonus_terms float_of_str (Some items) present) bonus).
Proof.
  intros H. revert bonus.
  induction H as [|[k v] items [fv Hv] _ IH]; intros bonus; [done|].
  cbn [add_bonus bonus_terms List.filter fst snd] in *.
  destruct (in_list k present); [|apply IH].
  rewrite Hv. cbn [mbind res_bind map fold_left snd]. rewrite IH.
  unfold to_num. by rewrite Hv.
Qed.

(** C5: with numeric fields, [Rule.score] returns the raw total
    [base + severity*mul_severity + criticality*mul_criticality
     + label_bonus + tag_bonus] multiplied by the weight and clamped from
    below by 0, so the returned value is [>= 0] whatever the signs of
    base, multipliers, bonuses and weight.  The two bonuses are one
    running sum, as in the code: the values of the [if_label_bonus]
    entries whose key is a label of the event, then the values of the
    [if_tag_bonus] entries whose key is a tag of the asset, added from 0.0
    in the order of the mappings; this sum is the last term of the raw
    total.  And whenever [Rule.score] returns at all, what it returns is
    [>= 0] and no NaN. *)
Theorem Rule_score_nonneg r a e :
  score_inputs_numeric float_of_str r a e ->
  exists b sev crit mul_sev mul_crit,
    py_float float_of_str (get_default (base (calc r)) (PyInt 0)) = Ok b /\
    py_float float_of_str (get_default (ev_severity e) (PyInt 0)) = Ok sev /\
    py_float float_of_str (get_default (as_criticality a) (PyInt 0)) = Ok crit /\
    py_float float_of_str (get_default (mul_severity (calc r)) (PyInt 0)) = Ok mul_sev /\
    py_float float_of_str (get_default (mul_criticality (calc r)) (PyInt 0)) = Ok mul_crit /\
    Rule_score float_of_str r a e =
      Ok (py_max2 f0
            (fmul (fadd (fadd (fadd b (fmul sev mul_sev)) (fmul crit mul_crit))
                     (bonus_total float_of_str r a e))
               (weight r))) /\
    fle f0 (py_max2 f0
              (fmul (fadd (fadd (fadd b (fmul sev mul_sev)) (fmul crit mul_crit))
                       (bonus_total float_of_str r a e))
                 (weight r))) = true /\
    forall a' e' v, Rule_score float_of_str r a' e' = Ok v ->
      fle f0 v = true /\ is_nan v = false.
Proof.
  intros (Hb & Hs & Hc & Hms & Hmc & Hl & Ht).
  apply opt_numeric_default in Hb as [b Hb], Hs as [sev Hs], Hc as [crit Hc],
    Hms as [ms Hms], Hmc as [mc Hmc].
  assert (match if_label_bonus (calc r) with
          | Some items => add_bonus float_of_str items (ev_labels e) f0
          | None => Ok f0
          end = Ok (label_bonus float_of_str r e)) as Hbl.
  { unfold label_bonus. destruct (if_label_bonus (calc r)) as [items|]; [|done].
    by apply add_bonus_terms. }
  assert (match if_tag_bonus (calc r) with
          | Some items =>
              add_bonus float_of_str items (as_tags a) (label_bonus float_of_str r e)
          | None => Ok (label_bonus float_of_str r e)
          end = Ok (bonus_total float_of_str r a e)) as Hbt.
  { unfold bonus_total. destruct (if_tag_bonus (calc r)) as [items|]; [|done].
    by apply add_bonus_terms. }
  exists b, sev, crit, ms, mc.
  do 5 (split; [done|]). split; [|split].
  - unfold Rule_score. rewrite Hb, Hs, Hc, Hms, Hmc. simpl.
    rewrite Hbl. simpl. by rewrite Hbt.
  - apply py_max2_nonneg.
  - intros a' e' v Hv. by apply (Rule_score_Ok_nonneg r a' e').
Qed.

(** *** Coercion of malformed fields *)

(** C2 (the code at the failing input): text that is no numeric literal in
    the severity field is read as 0 by [Rule.match], through [to_num]; in
    the severity or the criticality field it makes [Rule.score] raise,
    because [Rule.score] calls [float] directly. *)
Theorem Rule_score_raises_on_text r a e s :
  float_of_str s = None ->
  ev_severity e = Some (PyStr s) \/ as_criticality a = Some (PyStr s) ->
  to_num float_of_str (PyStr s) f0 = f0 /\
  (ev_severity e = Some (PyStr s) ->
   Rule_match float_of_str r a e =
   Rule_match float_of_str r a (with_severity e (PyFloat f0))) /\
  exists x, Rule_score float_of_str r a e = Raise x.
Proof.
  intros Hs H.
  assert (to_num float_of_str (PyStr s) f0 = f0) as Hnum.
  { unfold to_num. simpl. by rewrite Hs. }
  split; [done|]. split.
  - intros Hsev. unfold Rule_match. simpl. rewrite Hsev. simpl. by rewrite Hnum.
  - unfold Rule_score.
    destruct (py_float float_of_str (get_default (base (calc r)) (PyInt 0)));
      simpl; [|by eexists].
    destruct H as [H|H].
    + rewrite H. simpl. rewrite Hs. simpl. by eexists.
    + destruct (py_float float_of_str (get_default (ev_severity e) (PyInt 0)));
        simpl; [|by eexists].
      rewrite H. simpl. rewrite Hs. simpl. by eexists.
Qed.

(** [Rule.match] never raises on the fields of the asset and the event:
    with a numeric threshold in the policy it returns for every pair. *)
Lemma Rule_match_returns r a e :
  opt_numeric float_of_str (event_severity_gte (when r)) ->
  returns (Rule_match float_of_str r a e).
Proof.
  unfold Rule_match. intros H.
  destruct (event_severity_gte (when r)) as [t|]; [|by eexists].
  destruct H as [th Hth]. rewrite Hth. simpl.
  match goal with |- context [if ?b then _ else _] => destruct b end; by eexists.
Qed.

(** X1: a rule whose [when] is empty matches every asset and event. *)
Lemma Rule_match_empty_when r a e :
  when r = no_when -> Rule_match float_of_str r a e = Ok true.
Proof. unfold Rule_match. by intros ->. Qed.

(** *** Repeated evaluation *)

(** C1 (amended): every call of [evaluate] on an engine with the same
    assets, events and policy computes the same batch of results and
    appends it to what the engine holds: after a second call the results
    are those of the first call followed by the same batch again, and the
    per-asset lists receive the same totals again. *)
Theorem evaluate_twice_appends eng eng1 :
  evaluate float_of_str eng = Ok eng1 ->
  exists batch eng2,
    score_events float_of_str (assets eng) (policy eng) (events eng) = Ok batch /\
    results eng1 = results eng ++ batch /\
    by_asset eng1 = record_scores batch (by_asset eng) /\
    evaluate float_of_str eng1 = Ok eng2 /\
    results eng2 = results eng1 ++ batch /\
    by_asset eng2 = record_scores batch (by_asset eng1).
Proof.
  unfold evaluate. rewrite evaluate_loop_batch.
  intros H. apply bind_Ok in H as (batch & Hb & H). injection H as <-.
  exists batch. eexists. split; [done|]. split; [done|]. split; [done|].
  rewrite evaluate_loop_batch. simpl. rewrite Hb. simpl. done.
Qed.

(** *** Unknown assets *)

Lemma AssetStore_load_keyed recs store :
  store_keyed_by_id store -> store_keyed_by_id (AssetStore_load recs store).
Proof.
  revert store. induction recs as [|a recs IH]; intros store H; simpl; [done|].
  apply IH. intros k b. unfold AssetStore_put.
  rewrite lookup_insert. case_decide; [|by apply H].
  intros [= <-]. done.
Qed.

Lemma score_events_elem store p es batch r :
  score_events float_of_str store p es = Ok batch ->
  r ∈ batch ->
  exists e, e ∈ es /\ score_event float_of_str store p e = Ok (Some r).
Proof.
  revert batch. induction es as [|e es IH]; intros batch H Hr; simpl in H.
  - injection H as <-. by apply elem_of_nil in Hr.
  - apply bind_Ok in H as (o & Ho & H).
    apply bind_Ok in H as (rest & Hrest & H). injection H as <-.
    destruct o as [r'|].
    + apply elem_of_cons in Hr as [->|Hr].
      * exists e. split; [left|done].
      * destruct (IH _ Hrest Hr) as (e' & He' & Hs). exists e'. split; [by right|done].
    + destruct (IH _ Hrest Hr) as (e' & He' & Hs). exists e'. split; [by right|done].
Qed.

Lemma score_event_Some store p e r :
  score_event float_of_str store p e = Ok (Some r) ->
  exists a cs,
    AssetStore_get store (ev_asset e) = Some a /\
    contributions float_of_str (rules p) a e = Ok cs /\
    r = mkScoreResult (ev_id e) (as_id a) (sum_scores cs f0) cs (ev_ts e).
Proof.
  unfold score_event.
  destruct (AssetStore_get store (ev_asset e)) as [a|]; [|done].
  intros H. apply bind_Ok in H as (cs & Hcs & H). injection H as <-.
  by exists a, cs.
Qed.

Lemma by_asset_append_keys k0 v0 m k vs :
  (k, vs) ∈ by_asset_append k0 v0 m -> (exists vs', (k, vs') ∈ m) \/ k0 = k.
Proof.
  induction m as [|[k1 vs1] m IH]; simpl.
  - intros H. apply list_elem_of_singleton in H. injection H as -> _. by right.
  - destruct (String.eqb_spec k0 k1) as [->|Hne]; intros H.
    + apply elem_of_cons in H as [H|H]; left; eexists.
      * injection H as -> _. left.
      * right. done.
    + apply elem_of_cons in H as [H|H].
      * injection H as -> ->. left. eexists. left.
      * destruct (IH H) as [(vs' & H')|Heq]; [|by right].
        left. eexists. right. done.
Qed.

Lemma record_scores_keys batch m k vs :
  (k, vs) ∈ record_scores batch m ->
  (exists vs', (k, vs') ∈ m) \/ exists r, r ∈ batch /\ sr_asset r = k.
Proof.
  unfold record_scores. revert m.
  induction batch as [|r batch IH]; intros m H; simpl in H; [left; eauto|].
  apply IH in H as [(vs' & H)|(r' & Hr' & <-)].
  - apply by_asset_append_keys in H as [H|Heq]; [by left|].
    right. exists r. split; [left|done].
  - right. exists r'. split; [by right|done].
Qed.

Lemma evaluate_event_unresolved e eng :
  resolves (assets eng) e = false -> evaluate_event float_of_str e eng = Ok eng.
Proof.
  unfold resolves, evaluate_event.
  by destruct (AssetStore_get (assets eng) (ev_asset e)).
Qed.

Lemma evaluate_event_assets e eng eng' :
  evaluate_event float_of_str e eng = Ok eng' -> assets eng' = assets eng.
Proof.
  rewrite evaluate_event_score_event. intros H.
  apply bind_Ok in H as ([r|] & _ & H); by injection H as <-.
Qed.

Lemma evaluate_loop_skips es eng :
  evaluate_loop float_of_str es eng =
  evaluate_loop float_of_str (List.filter (resolves (assets eng)) es) eng.
Proof.
  revert eng. induction es as [|e es IH]; intros eng; simpl; [done|].
  destruct (resolves (assets eng) e) eqn:Hr; simpl.
  - destruct (evaluate_event float_of_str e eng) as [eng'|x] eqn:He; simpl; [|done].
    rewrite IH. by rewrite (evaluate_event_assets _ _ _ He).
  - rewrite (evaluate_event_unresolved _ _ Hr). simpl. apply IH.
Qed.

(** Every result of an engine is the result of one of its events, on the
    asset the event resolves to. *)
Lemma evaluated_results eng :
  evaluated float_of_str eng ->
  forall r, r ∈ results eng ->
    exists e a cs,
      e ∈ events eng /\
      AssetStore_get (assets eng) (ev_asset e) = Some a /\
      contributions float_of_str (rules (policy eng)) a e = Ok cs /\
      r = mkScoreResult (ev_id e) (as_id a) (sum_scores cs f0) cs (ev_ts e).
Proof.
  induction 1 as [store es pol|eng eng' _ IH Hev]; intros r Hr.
  - by apply elem_of_nil in Hr.
  - unfold evaluate in Hev. rewrite evaluate_loop_batch in Hev.
    apply bind_Ok in Hev as (batch & Hb & Hev). injection Hev as <-. simpl in *.
    apply elem_of_app in Hr as [Hr|Hr]; [by apply IH|].
    destruct (score_events_elem _ _ _ _ _ Hb Hr) as (e & He & Hs).
    apply score_event_Some in Hs as (a & cs & Ha & Hcs & ->).
    by exists e, a, cs.
Qed.

Lemma evaluated_keys eng :
  evaluated float_of_str eng ->
  forall k vs, (k, vs) ∈ by_asset eng -> exists r, r ∈ results eng /\ sr_asset r = k.
Proof.
  induction 1 as [store es pol|eng eng' _ IH Hev]; intros k vs Hk.
  - by apply elem_of_nil in Hk.
  - unfold evaluate in Hev. rewrite evaluate_loop_batch in Hev.
    apply bind_Ok in Hev as (batch & Hb & Hev). injection Hev as <-. simpl in *.
    apply record_scores_keys in Hk as [(vs' & Hk)|(r & Hr & <-)].
    + destruct (IH _ _ Hk) as (r & Hr & <-). exists r. split; [|done].
      apply elem_of_app. by left.
    + exists r. split; [|done]. apply elem_of_app. by right.
Qed.

(** C6: an event whose asset does not resolve leaves the engine as it is
    (no result, no per-asset total, no exception), so [evaluate] is the
    evaluation of the resolvable events alone; and in an engine whose store
    keeps every asset under its id, as every loaded store does, each result
    and each key of the per-asset lists names an asset of the store. *)
Theorem unknown_asset_skipped :
  (forall e eng, resolves (assets eng) e = false ->
     evaluate_event float_of_str e eng = Ok eng) /\
  (forall es eng, evaluate_loop float_of_str es eng =
     evaluate_loop float_of_str (List.filter (resolves (assets eng)) es) eng) /\
  (forall eng,
     evaluated float_of_str eng -> store_keyed_by_id (assets eng) ->
     (forall r, r ∈ results eng ->
        is_Some (assets eng !! sr_asset r) /\
        exists e, e ∈ events eng /\ resolves (assets eng) e = true /\
                  sr_event r = ev_id e) /\
     (forall k vs, (k, vs) ∈ by_asset eng -> is_Some (assets eng !! k))) /\
  (forall recs, store_keyed_by_id (AssetStore_load recs ∅)).
Proof.
  split; [apply evaluate_event_unresolved|]. split; [intros; apply evaluate_loop_skips|].
  split.
  - intros eng Hev Hkeyed.
    assert (forall r, r ∈ results eng ->
              is_Some (assets eng !! sr_asset r) /\
              exists e, e ∈ events eng /\ resolves (assets eng) e = true /\
                        sr_event r = ev_id e) as Hres.
    { intros r Hr.
      destruct (evaluated_results eng Hev r Hr) as (e & a & cs & He & Ha & _ & ->).
      simpl. split.
      - unfold AssetStore_get in Ha. destruct (ev_asset e) as [k|]; [|done].
        rewrite (Hkeyed _ _ Ha). by eexists.
      - exists e. unfold resolves. by rewrite Ha. }
    split; [done|].
    intros k vs Hk. destruct (evaluated_keys eng Hev k vs Hk) as (r & Hr & <-).
    by apply Hres.
  - intros recs. apply AssetStore_load_keyed. intros ? ?. by rewrite lookup_empty.
Qed.

(** *** The shape of a result *)

Lemma contributions_shape rs a e cs :
  contributions float_of_str rs a e = Ok cs ->
  Forall (fun x => feq (ap_score x) f0 = false) cs /\
  map (fun x => (ap_rule x, ap_name x)) cs
    `sublist_of` map (fun r => (rule_id r, rule_name r)) rs.
Proof.
  revert cs. induction rs as [|r rs IH]; intros cs H; simpl in H.
  - injection H as <-. split; [constructor|by simpl].
  - apply bind_Ok in H as (o & Ho & H).
    apply bind_Ok in H as (cs' & Hcs' & H). injection H as <-.
    destruct (IH _ Hcs') as [Hnz Hsub].
    unfold rule_outcome in Ho.
    apply bind_Ok in Ho as (m & _ & Ho). destruct m.
    + apply bind_Ok in Ho as (val & _ & Ho). injection Ho as <-.
      destruct (feq val f0) eqn:Hv; simpl.
      * split; [done|]. by apply sublist_cons.
      * split; [by constructor|]. by apply sublist_skip.
    + injection Ho as <-. simpl. split; [done|]. by apply sublist_cons.
Qed.

(** C10: in every result of [evaluate] the score is the left-to-right sum
    of the scores of its applied entries, every applied score is non-zero,
    and the applied entries follow the order of the policy's rules. *)
Theorem result_score_is_sum_of_applied eng :
  evaluated float_of_str eng ->
  forall r, r ∈ results eng ->
    sr_score r = fold_left fadd (map ap_score (sr_applied r)) f0 /\
    Forall (fun x => feq (ap_score x) f0 = false) (sr_applied r) /\
    map (fun x => (ap_rule x, ap_name x)) (sr_applied r)
      `sublist_of` map (fun r => (rule_id r, rule_name r)) (rules (policy eng)).
Proof.
  intros Hev r Hr.
  destruct (evaluated_results eng Hev r Hr) as (e & a & cs & _ & _ & Hcs & ->).
  simpl. split; [done|]. by apply contributions_shape in Hcs.
Qed.

(** *** The order of the rules *)

Lemma Rule_score_Ok_clamped r a e v :
  Rule_score float_of_str r a e = Ok v -> exists z, v = py_max2 f0 z.
Proof.
  unfold Rule_score. intros H.
  repeat (apply bind_Ok in H as (? & _ & H)).
  injection H as <-. by eexists.
Qed.

Lemma contributions_pos rs a e cs :
  contributions float_of_str rs a e = Ok cs ->
  Forall (fun x => is_pos (ap_score x) = true) cs.
Proof.
  revert cs. induction rs as [|r rs IH]; intros cs H; simpl in H.
  - injection H as <-. constructor.
  - apply bind_Ok in H as (o & Ho & H).
    apply bind_Ok in H as (cs' & Hcs' & H). injection H as <-.
    unfold rule_outcome in Ho.
    apply bind_Ok in Ho as (m & _ & Ho). destruct m.
    + apply bind_Ok in Ho as (val & Hval & Ho). injection Ho as <-.
      destruct (feq val f0) eqn:Hv; simpl; [by apply IH|].
      constructor; [|by apply IH]. simpl.
      apply Rule_score_Ok_clamped in Hval as [z ->]. by apply py_max2_pos.
    + injection Ho as <-. by apply IH.
Qed.

(** Permuting the rules permutes the contributions, and raises nothing
    new. *)
Lemma contributions_perm rs rs' a e cs :
  Permutation rs rs' ->
  contributions float_of_str rs a e = Ok cs ->
  exists cs', contributions float_of_str rs' a e = Ok cs' /\ Permutation cs cs'.
Proof.
  intros Hp. revert cs.
  induction Hp as [|r rs rs' _ IH|r1 r2 rs|rs1 rs2 rs3 _ IH1 _ IH2]; intros cs H.
  - by exists cs.
  - simpl in *. apply bind_Ok in H as (o & Ho & H).
    apply bind_Ok in H as (cs0 & Hcs0 & H). injection H as <-.
    destruct (IH _ Hcs0) as (cs0' & -> & Hperm). rewrite Ho. simpl.
    eexists. split; [done|]. destruct o; [by apply perm_skip|done].
  - simpl in *. apply bind_Ok in H as (o2 & Ho2 & H).
    apply bind_Ok in H as (cs1 & H & Hcs). injection Hcs as <-.
    apply bind_Ok in H as (o1 & Ho1 & H).
    apply bind_Ok in H as (cs0 & -> & Hcs). injection Hcs as <-.
    rewrite Ho1, Ho2. simpl. eexists. split; [done|].
    destruct o1, o2; try done. apply perm_swap.
  - destruct (IH1 _ H) as (cs2 & H2 & Hp12).
    destruct (IH2 _ H2) as (cs3 & H3 & Hp23).
    exists cs3. split; [done|]. by etransitivity.
Qed.

Lemma sum_scores_perm_short cs cs' :
  Forall (fun x => is_pos (ap_score x) = true) cs ->
  Permutation cs cs' ->
  (length cs <= 2)%nat ->
  sum_scores cs' f0 = sum_scores cs f0.
Proof.
  intros Hpos Hp Hlen.
  destruct cs as [|x [|y [|z cs]]]; simpl in Hlen; [| | |lia].
  - by apply Permutation_nil in Hp as ->.
  - by apply Permutation_length_1_inv in Hp as ->.
  - apply Permutation_length_2_inv in Hp as [-> | ->]; [done|].
    unfold sum_scores. cbn [map fold_left].
    apply Forall_cons in Hpos as [Hx Hpos]. apply Forall_cons in Hpos as [Hy _].
    rewrite !fadd_f0_pos by done. apply fadd_comm.
Qed.

(** C7 (amended): permuting the policy's rules permutes the applied list
    (the same entries, in the new rule order) and the total is their
    left-to-right binary64 sum in that order; the total is the same when
    at most two rules contribute. *)
Theorem rule_order_permutes_applied rs rs' a e total applied :
  Permutation rs rs' ->
  apply_rules float_of_str rs a e f0 [] = Ok (total, applied) ->
  exists total' applied',
    apply_rules float_of_str rs' a e f0 [] = Ok (total', applied') /\
    Permutation applied applied' /\
    total = fold_left fadd (map ap_score applied) f0 /\
    total' = fold_left fadd (map ap_score applied') f0 /\
    ((length applied <= 2)%nat -> total' = total).
Proof.
  intros Hp. rewrite !apply_rules_contributions. intros H.
  apply bind_Ok in H as (cs & Hcs & H). injection H as <- <-.
  destruct (contributions_perm _ _ _ _ _ Hp Hcs) as (cs' & Hcs' & Hperm).
  rewrite Hcs'. simpl. eexists. eexists. split; [done|].
  split; [done|]. split; [done|]. split; [done|].
  apply sum_scores_perm_short; [|done]. by eapply contributions_pos.
Qed.

(** *** The order of the summary *)

Lemma row_lt_asym x y : row_lt x y = true -> row_lt y x = false.
Proof. apply key_lt_asym. Qed.

Lemma row_lt_trans x y z : row_lt x y = true -> row_lt y z = true -> row_lt x z = true.
Proof. apply key_lt_trans. Qed.

Lemma feq_opp x y : feq (fopp x) (fopp y) = feq y x.
Proof. unfold feq, SFeqb, fopp. by rewrite SFcompare_opp. Qed.

Lemma flt_opp x y : flt (fopp x) (fopp y) = flt y x.
Proof. unfold flt, SFltb, fopp. by rewrite SFcompare_opp. Qed.

Lemma flt_total x y :
  is_nan x = false -> is_nan y = false ->
  feq x y = false -> flt x y = false -> flt y x = true.
Proof.
  unfold feq, flt, SFeqb, SFltb. rewrite (SFcompare_antisym x y).
  destruct x as [[]|[]| |[] mx ex], y as [[]|[]| |[] my ey]; simpl; try congruence.
  all: by destruct (match ex ?= ey with Eq => _ | Lt => _ | Gt => _ end).
Qed.

Lemma row_lt_summary_order a b :
  row_numbers a = true -> row_numbers b = true ->
  row_lt b a = false -> summary_order a b.
Proof.
  unfold row_numbers, row_lt, sort_key, summary_order. cbn [key_lt].
  rewrite !andb_true_iff, !negb_true_iff. intros [Hma Haa] [Hmb Hab].
  rewrite !feq_opp, !flt_opp.
  destruct (feq (row_max a) (row_max b)) eqn:Hm; simpl.
  - destruct (feq (row_avg a) (row_avg b)) eqn:Ha; simpl.
    + intros Hs. right. split; [done|]. right. split; [done|].
      unfold String.ltb in Hs. unfold String.leb.
      rewrite (String.compare_antisym (row_asset a) (row_asset b)).
      by destruct (String.compare (row_asset b) (row_asset a)).
    + intros Hlt. right. split; [done|]. left. by apply flt_total.
  - intros Hlt. left. by apply flt_total.
Qed.

Lemma StronglySorted_weaken {A} (P : A -> Prop) (R R' : A -> A -> Prop) l :
  (forall a b, P a -> P b -> R a b -> R' a b) ->
  Forall P l -> StronglySorted R l -> StronglySorted R' l.
Proof.
  intros HR HP Hs. induction Hs as [|x l Hs IH Hx]; [constructor|].
  apply Forall_cons in HP as [Hpx HP].
  constructor; [by apply IH|].
  rewrite Forall_forall in *. intros y Hy. apply HR; auto.
Qed.

(** C9: the summary of the exported report is the aggregate's rows in the
    order of descending maximum, then descending average, then ascending
    asset id (for rows whose maximum and average are numbers); with equal
    maxima 10 and averages 10 and 5, the row with average 10 comes
    first. *)
Theorem export_summary_sorted now eng store rep :
  export_report py_sum now eng store = Ok rep ->
  Forall (fun r => row_numbers r = true) (summary rep) ->
  StronglySorted summary_order (summary rep) /\
  (exists agg, aggregate py_sum eng = Ok agg /\
     Permutation (map (fun '(aid, m) => summary_row store aid m) agg) (summary rep)) /\
  sort_summary [row_B; row_A] = [row_A; row_B] /\
  sort_summary [row_A; row_B] = [row_A; row_B].
Proof.
  unfold export_report. intros H Hn.
  apply bind_Ok in H as (agg & Hagg & H). injection H as <-. simpl in *.
  split; [|split; [|by vm_compute]].
  - eapply StronglySorted_weaken; [|exact Hn|].
    + intros a b Ha Hb. by apply row_lt_summary_order.
    + apply py_sorted_sorted; [apply row_lt_asym|apply row_lt_trans].
  - exists agg. split; [done|]. apply py_sorted_perm.
Qed.

(** *** Percentiles *)

(** C3: for a percentile [p] in [0, 100] and values none of which is a
    NaN, [percentile] returns the linear-interpolation order statistic of
    the values sorted ascending: with [k = (n-1) * (p/100)], [f = floor k]
    and [c = ceil k], the element at [k] when [f = c] and
    [sorted[f]*(c-k) + sorted[c]*(k-f)] otherwise, all in binary64; the
    empty list gives 0 for every [p], a one-element list gives its
    element, and [1,2,3,4] at 50 gives 2.5.  (The list is a Python list of
    at most [2^53] elements.  Without a NaN, [<] orders the values, the
    sorted list is the one Python's [sorted] returns, and it is ascending
    for [<=].) *)
Theorem percentile_linear_interpolation vals p :
  Z.of_nat (length vals) <= 2 ^ 53 ->
  Forall (fun v => is_nan v = false) vals ->
  percent p = true ->
  percentile vals p = Ok (percentile_formula vals (percent_value p)) /\
  Permutation vals (py_sorted flt vals) /\
  StronglySorted (fun a b => fle a b = true) (py_sorted flt vals) /\
  (forall q, percentile [] q = Ok f0) /\
  (forall x, percentile [x] p = Ok x) /\
  percentile [Z2f 1; Z2f 2; Z2f 3; Z2f 4] (PyInt 50) = Ok (dec 25 10).
Proof.
  intros Hlen Hnan Hp. split; [|split; [|split; [|split; [|split]]]].
  - destruct vals as [|v vals]; [done|].
    apply percentile_total; [simpl; lia|done|done].
  - apply py_sorted_perm.
  - apply (StronglySorted_weaken (fun v => is_nan v = false)
             (fun a b => flt b a = false)).
    + intros a b Ha Hb Hab. by apply not_flt_fle.
    + by rewrite <- (py_sorted_perm flt vals).
    + apply py_sorted_sorted; [apply flt_asym|apply flt_trans].
  - done.
  - intros x. rewrite percentile_total; [|simpl; lia|done|done].
    f_equal. unfold percentile_formula. cbn [py_sorted fold_left insert_sorted length].
    cbn [Z.of_nat Pos.of_succ_nat Z.eqb Z.sub Z.add Z.opp Z.pos_sub].
    destruct (percent_below p Hp) as [_ Hx].
    change (Z2f 0) with (S754_zero false).
    by destruct (fdiv (percent_value p) f100) as [s| | |[] m e].
  - vm_compute. reflexivity.
Qed.

(** *** Aggregation *)

Lemma in_list_elem_of x l : in_list x l = true <-> x ∈ l.
Proof.
  unfold in_list. rewrite existsb_exists. split.
  - intros (y & Hy & Heq). apply String.eqb_eq in Heq as ->. by apply list_elem_of_In.
  - intros H. exists x. split; [by apply list_elem_of_In|apply String.eqb_refl].
Qed.

(** What [by_asset_append] does to the stored lists and to the keys. *)
Lemma assoc_append k' k v m :
  assoc k' (by_asset_append k v m) =
  if String.eqb k' k then assoc k m ++ [v] else assoc k' m.
Proof.
  induction m as [|[k1 vs] m IH]; simpl.
  - by destruct (String.eqb k' k).
  - destruct (String.eqb_spec k k1) as [->|Hne]; simpl.
    + by destruct (String.eqb k' k1).
    + rewrite IH. destruct (String.eqb_spec k' k1) as [->|Hne'].
      * by destruct (String.eqb_spec k1 k) as [->|_].
      * done.
Qed.

Lemma keys_append k v m :
  map fst (by_asset_append k v m) =
  if in_list k (map fst m) then map fst m else map fst m ++ [k].
Proof.
  induction m as [|[k1 vs] m IH]; simpl; [done|].
  destruct (String.eqb k k1); simpl; [done|].
  rewrite IH. by destruct (in_list k (map fst m)).
Qed.

Lemma scores_of_snoc k rs r :
  scores_of k (rs ++ [r]) =
  scores_of k rs ++ (if String.eqb k (sr_asset r) then [sr_score r] else []).
Proof.
  unfold scores_of. rewrite List.filter_app, map_app. simpl.
  by destruct (String.eqb k (sr_asset r)).
Qed.

(** Recording a result keeps [by_asset] grouped. *)
Lemma grouped_step m rs r :
  grouped m rs ->
  grouped (by_asset_append (sr_asset r) (sr_score r) m) (rs ++ [r]).
Proof.
  intros (Hnd & Has & Hk). split; [|split].
  - rewrite keys_append.
    destruct (in_list (sr_asset r) (map fst m)) eqn:Hin; [done|].
    apply NoDup_app. split; [done|]. split; [|apply NoDup_singleton].
    intros x Hx Hx'. apply list_elem_of_singleton in Hx' as ->.
    apply in_list_elem_of in Hx. congruence.
  - intros k. rewrite assoc_append, scores_of_snoc, Has.
    destruct (String.eqb_spec k (sr_asset r)) as [->|_]; [done|by rewrite app_nil_r].
  - intros k. rewrite keys_append, map_app, elem_of_app. simpl.
    rewrite list_elem_of_singleton, <- Hk.
    destruct (in_list (sr_asset r) (map fst m)) eqn:Hin.
    + apply in_list_elem_of in Hin. split; [by left|]. by intros [?| ->].
    + by rewrite elem_of_app, list_elem_of_singleton.
Qed.

Lemma grouped_record batch m rs :
  grouped m rs -> grouped (record_scores batch m) (rs ++ batch).
Proof.
  unfold record_scores. revert m rs.
  induction batch as [|r batch IH]; intros m rs H; simpl.
  - by rewrite app_nil_r.
  - replace (rs ++ r :: batch) with ((rs ++ [r]) ++ batch) by by rewrite <- app_assoc.
    by apply IH, grouped_step.
Qed.

Lemma assoc_entry m k vs :
  NoDup (map fst m) -> (k, vs) ∈ m -> assoc k m = vs.
Proof.
  induction m as [|[k1 vs1] m IH]; simpl; intros Hnd Hin.
  - by apply elem_of_nil in Hin.
  - apply NoDup_cons in Hnd as [Hk1 Hnd].
    apply elem_of_cons in Hin as [Heq|Hin].
    + injection Heq as -> ->. by rewrite String.eqb_refl.
    + destruct (String.eqb_spec k k1) as [->|_]; [|by apply IH].
      destruct Hk1. apply list_elem_of_fmap. by exists (k1, vs).
Qed.

Lemma scores_of_nonempty k rs : k ∈ map sr_asset rs -> scores_of k rs <> [].
Proof.
  unfold scores_of.
  induction rs as [|r rs IH]; simpl; intros H; [by apply elem_of_nil in H|].
  destruct (String.eqb_spec k (sr_asset r)) as [->|Hne]; [done|].
  apply elem_of_cons in H as [?|H]; [done|by apply IH].
Qed.

Lemma scores_of_length k rs : (length (scores_of k rs) <= length rs)%nat.
Proof.
  unfold scores_of. rewrite length_map. apply List.filter_length_le.
Qed.

Lemma score_events_length store p es batch :
  score_events float_of_str store p es = Ok batch ->
  (length batch <= length es)%nat.
Proof.
  revert batch. induction es as [|e es IH]; intros batch H; simpl in H.
  - by injection H as <-.
  - apply bind_Ok in H as (o & _ & H).
    apply bind_Ok in H as (rest & Hrest & H). injection H as <-.
    specialize (IH _ Hrest). destruct o; simpl; lia.
Qed.

(** The statistics of a non-empty list are computed without exception. *)
Lemma asset_stats_total vals :
  vals <> [] -> Z.of_nat (length vals) < 2 ^ 53 ->
  exists p95 p99,
    percentile vals (PyInt 95) = Ok p95 /\
    percentile vals (PyInt 99) = Ok p99 /\
    asset_stats py_sum vals =
      Ok (mkAggregate (Z.of_nat (length vals)) (py_sum vals)
            (fdiv (py_sum vals) (Z2f (Z.of_nat (length vals))))
            (get_default (py_max vals) f0) p95 p99).
Proof.
  intros Hne Hlen. unfold asset_stats.
  destruct (float_of_int_below (Z.of_nat (length vals))) as [-> _]; [lia|].
  assert (0 < length vals)%nat by (destruct vals; [done|simpl; lia]).
  rewrite !percentile_total by (done || lia).
  eexists. eexists. done.
Qed.

Lemma aggregate_loop_total m :
  (forall k vs, (k, vs) ∈ m -> vs <> [] /\ Z.of_nat (length vs) < 2 ^ 53) ->
  exists agg,
    aggregate_loop py_sum m = Ok agg /\
    map fst agg = map fst m /\
    forall k st, (k, st) ∈ agg ->
      exists vs, (k, vs) ∈ m /\ asset_stats py_sum vs = Ok st.
Proof.
  induction m as [|[k vs] m IH]; intros H; simpl.
  - exists []. split; [done|]. split; [done|]. intros k st Hin. by apply elem_of_nil in Hin.
  - destruct (H k vs) as [Hne Hlen]; [left|].
    destruct IH as (agg & Hagg & Hkeys & Hst).
    { intros k' vs' Hin. apply (H k'). by right. }
    destruct (asset_stats_total vs Hne Hlen) as (p95 & p99 & _ & _ & Hs).
    destruct vs as [|v vs]; [done|].
    rewrite Hs, Hagg. cbn [mbind res_bind]. eexists. split; [done|].
    split; [cbn [map fst]; by rewrite Hkeys|].
    intros k' st Hin. apply elem_of_cons in Hin as [Heq|Hin].
    + injection Heq as -> ->. eexists. split; [left|done].
    + destruct (Hst _ _ Hin) as (vs' & Hin' & Hs'). exists vs'. split; [by right|done].
Qed.

(** Every engine keeps [by_asset] grouped by the assets of its results. *)
Lemma evaluated_grouped eng :
  evaluated float_of_str eng -> grouped (by_asset eng) (results eng).
Proof.
  induction 1 as [store es pol|eng eng' _ IH Hev].
  - split; [constructor|]. split; [done|]. intros k. simpl. by rewrite !elem_of_nil.
  - unfold evaluate in Hev. rewrite evaluate_loop_batch in Hev.
    apply bind_Ok in Hev as (batch & Hb & Hev). injection Hev as <-. simpl.
    by apply grouped_record.
Qed.

(** C8: after [evaluate], [aggregate] returns a mapping whose keys are
    exactly the asset ids of the results; each key carries the count, sum,
    mean, maximum and the two percentiles of all the scores of that
    asset's results, and an asset no event refers to has no entry.  (The
    results form a Python list of fewer than [2^53] elements; the store
    keeps every asset under its id, as [AssetStore.load] does.) *)
Theorem aggregate_keys eng :
  evaluated float_of_str eng ->
  Z.of_nat (length (results eng)) < 2 ^ 53 ->
  exists agg,
    aggregate py_sum eng = Ok agg /\
    NoDup (map fst agg) /\
    (forall aid, aid ∈ map fst agg <-> aid ∈ map sr_asset (results eng)) /\
    (forall aid st, (aid, st) ∈ agg ->
       scores_of aid (results eng) <> [] /\
       asset_stats py_sum (scores_of aid (results eng)) = Ok st /\
       agg_count st = Z.of_nat (length (scores_of aid (results eng))) /\
       agg_sum st = py_sum (scores_of aid (results eng)) /\
       agg_avg st = fdiv (py_sum (scores_of aid (results eng)))
                      (Z2f (Z.of_nat (length (scores_of aid (results eng))))) /\
       Some (agg_max st) = py_max (scores_of aid (results eng)) /\
       percentile (scores_of aid (results eng)) (PyInt 95) = Ok (agg_p95 st) /\
       percentile (scores_of aid (results eng)) (PyInt 99) = Ok (agg_p99 st)) /\
    (store_keyed_by_id (assets eng) ->
     forall aid, (forall e, e ∈ events eng -> ev_asset e <> Some aid) ->
       aid ∉ map fst agg).
Proof.
  intros Hev Hlen.
  destruct (evaluated_grouped eng Hev) as (Hnd & Has & Hk).
  unfold aggregate.
  assert (forall k vs, (k, vs) ∈ by_asset eng ->
            vs = scores_of k (results eng) /\ vs <> [] /\
            Z.of_nat (length vs) < 2 ^ 53) as Hentry.
  { intros k vs Hin. rewrite <- Has. rewrite (assoc_entry _ _ _ Hnd Hin).
    split; [done|]. rewrite <- (assoc_entry _ _ _ Hnd Hin), Has. split.
    - apply scores_of_nonempty, Hk, list_elem_of_fmap. by exists (k, vs).
    - pose proof (scores_of_length k (results eng)). lia. }
  destruct (aggregate_loop_total (by_asset eng)) as (agg & Hagg & Hkeys & Hst).
  { intros k vs Hin. by apply Hentry in Hin as (_ & ? & ?). }
  exists agg. split; [done|]. split; [by rewrite Hkeys|].
  split; [intros aid; by rewrite Hkeys|]. split.
  - intros aid st Hin. destruct (Hst _ _ Hin) as (vs & Hvs & Hs).
    destruct (Hentry _ _ Hvs) as (-> & Hne & Hl).
    destruct (asset_stats_total _ Hne Hl) as (p95 & p99 & H95 & H99 & Hs').
    rewrite Hs in Hs'. injection Hs' as ->. simpl.
    repeat split; try done.
    by destruct (scores_of aid (results eng)).
  - intros Hkeyed aid Hno Hin. rewrite Hkeys in Hin. apply Hk in Hin.
    apply list_elem_of_fmap in Hin as (r & -> & Hr).
    destruct (evaluated_results eng Hev r Hr) as (e & a & cs & He & Ha & _ & ->).
    apply (Hno e He). unfold AssetStore_get in Ha.
    destruct (ev_asset e) as [k|]; [|done]. f_equal. symmetry.
    by eapply Hkeyed.
Qed.

(** *** The end-to-end scenario *)

(** C4: the event e1 on the asset srv-1 under the built-in policy gives one
    result with total 188.0 and three applied entries: 93.0 (48.0 + 45.0)
    from the severity and criticality rule, 40.0 from the label bonus and
    55.0 (10 + 20 + 25) from the tag bonus. *)
Theorem default_policy_scenario :
  exists eng r,
    evaluate float_of_str scenario_engine = Ok eng /\
    results eng = [r] /\
    sr_event r = "e1" /\
    sr_asset r = "srv-1" /\
    sr_score r = Z2f 188 /\
    length (sr_applied r) = 3%nat /\
    map ap_rule (sr_applied r) = ["sev-asset"; "label-bonus"; "tag-bonus"] /\
    map ap_score (sr_applied r) = [Z2f 93; Z2f 40; Z2f 55] /\
    fmul f0_8 (Z2f 60) = Z2f 48 /\
    fmul f0_9 (Z2f 50) = Z2f 45 /\
    f0_8 = dec 8 10 /\
    f0_9 = dec 9 10.
Proof.
  eexists. eexists. split; [vm_compute; reflexivity|].
  split; [reflexivity|]. vm_compute. repeat split.
Qed.

End Properties.

(** ** Binary64: sums of non-negative floats, exact roundings *)

(** The exponent [shr_fexp] leaves. *)
Lemma shr_fexp_exp m e l :
  snd (shr_fexp prec emax m e l) =
  e + Z.max 0 (fexp prec emax (Zdigits2 m + e) - e).
Proof.
  unfold shr_fexp, shr.
  destruct (fexp prec emax (Zdigits2 m + e) - e) as [|p|p]; simpl; lia.
Qed.

(** Rounding a non-negative mantissa gives no NaN and no negative float. *)
Lemma binary_round_aux_nonneg m e l :
  0 <= m -> nonneg (binary_round_aux prec emax false m e l) = true.
Proof.
  intros Hm. unfold binary_round_aux.
  destruct (shr_fexp_spec m e l Hm) as (k & mrs & Hk & -> & Hm' & _ & _).
  destruct (round_nearest_even_spec (shr_m mrs) (loc_of_shr_record mrs)) as [Hr _].
  assert (0 <= m / 2 ^ k) by (apply Z.div_pos; [lia|apply Z.pow_pos_nonneg; lia]).
  set (m1 := round_nearest_even (shr_m mrs) (loc_of_shr_record mrs)) in *.
  assert (0 <= m1) as Hm1 by lia.
  destruct (shr_fexp_spec m1 (e + k) loc_Exact Hm1) as (k2 & mrs2 & Hk2 & -> & Hm2 & _ & _).
  assert (0 <= m1 / 2 ^ k2) by (apply Z.div_pos; [lia|apply Z.pow_pos_nonneg; lia]).
  rewrite Hm2. destruct (m1 / 2 ^ k2) as [|q|q]; [done| |lia].
  by destruct (e + k + k2 <=? emax - prec).
Qed.

Lemma fadd_nonneg x y :
  nonneg x = true -> nonneg y = true -> nonneg (fadd x y) = true.
Proof.
  destruct x as [[]|[]| |[] mx ex], y as [[]|[]| |[] my ey]; try done.
  intros _ _. unfold fadd, SFadd. cbn [cond_Zopp].
  unfold binary_normalize.
  destruct (Z.pos (shl_align mx ex (IntDef.Z.min ex ey)).1 +
            Z.pos (shl_align my ey (IntDef.Z.min ex ey)).1) as [|p|p] eqn:Hp;
    [done| |lia].
  unfold binary_round.
  destruct (shl_align p (IntDef.Z.min ex ey)
              (fexp prec emax (Z.pos (digits2_pos p) + IntDef.Z.min ex ey))) as [mz ez].
  by apply binary_round_aux_nonneg.
Qed.

Lemma is_pos_nonneg x : is_pos x = true -> nonneg x = true.
Proof. by destruct x as [[]|[]| |[] m e]. Qed.

Lemma nonneg_not_nan x : nonneg x = true -> is_nan x = false.
Proof. by destruct x as [[]|[]| |[] m e]. Qed.

Lemma sum_scores_nonneg cs total :
  Forall (fun x => is_pos (ap_score x) = true) cs ->
  nonneg total = true -> nonneg (sum_scores cs total) = true.
Proof.
  unfold sum_scores. intros H. revert total.
  induction H as [|c cs Hc _ IH]; intros total Ht; [done|].
  cbn [map fold_left]. apply IH. apply fadd_nonneg; [done|by apply is_pos_nonneg].
Qed.

Lemma Zdigits2_canonical M j :
  2 ^ 52 <= M < 2 ^ 53 -> 0 <= j -> Zdigits2 (M * 2 ^ j) = 53 + j.
Proof.
  intros HM Hj.
  assert (0 < 2 ^ j) by (apply Z.pow_pos_nonneg; lia).
  assert (0 < M * 2 ^ j) as Hpos by nia.
  destruct (M * 2 ^ j) as [|p|p] eqn:E; try lia.
  rewrite Zdigits2_log2, <- E, Z.log2_mul_pow2 by lia.
  rewrite (Z.log2_unique M 52); lia.
Qed.

(** A mantissa of 53 bits shifted left rounds to itself. *)
Lemma binary_round_aux_exact M j e m :
  2 ^ 52 <= M < 2 ^ 53 -> 0 <= j -> -1074 <= e + j <= 971 -> m = M * 2 ^ j ->
  binary_round_aux prec emax false m e loc_Exact = S754_finite false (Z.to_pos M) (e + j).
Proof.
  intros HM Hj He ->.
  assert (0 < 2 ^ j) as Hpj by (apply Z.pow_pos_nonneg; lia).
  assert (0 <= M * 2 ^ j) as Hpos by nia.
  unfold binary_round_aux.
  destruct (shr_fexp_spec (M * 2 ^ j) e loc_Exact Hpos)
    as (k & mrs & Hk & Hsh & Hm' & Hloc & _).
  pose proof (shr_fexp_exp (M * 2 ^ j) e loc_Exact) as Hexp.
  rewrite Hsh in Hexp. cbn [snd] in Hexp.
  rewrite Zdigits2_canonical, fexp_eq in Hexp by lia.
  assert (k = j) as -> by lia.
  rewrite Hsh. rewrite Z.div_mul in Hm', Hloc by lia.
  assert (loc_of_shr_record mrs = loc_Exact) as ->.
  { destruct (loc_of_shr_record mrs) eqn:El; [done|].
    destruct Hloc as [Hl|Hl]; [done|done|lia]. }
  rewrite Hm'. cbn [round_nearest_even].
  assert (0 <= M) as HM0 by lia.
  destruct (shr_fexp_spec M (e + j) loc_Exact HM0)
    as (k2 & mrs2 & Hk2 & Hsh2 & Hm2 & _ & _).
  pose proof (shr_fexp_exp M (e + j) loc_Exact) as Hexp2.
  rewrite Hsh2 in Hexp2. cbn [snd] in Hexp2.
  replace (Zdigits2 M) with (53 + 0) in Hexp2
    by (rewrite <- (Zdigits2_canonical M 0) by lia; f_equal; lia).
  rewrite fexp_eq in Hexp2.
  assert (k2 = 0) as -> by lia.
  rewrite Hsh2, Hm2, Z.pow_0_r, Z.div_1_r, Z.add_0_r.
  destruct M as [|p|p]; try lia.
  assert ((e + j <=? emax - prec) = true) as ->.
  { apply Z.leb_le. change (emax - prec) with 971. lia. }
  reflexivity.
Qed.

Lemma shl_align_down mx ex ex' :
  ex' <= ex -> shl_align mx ex ex' = (Z.to_pos (Z.pos mx * 2 ^ (ex - ex')), ex').
Proof.
  intros H. unfold shl_align. destruct (ex' - ex) as [|d|d] eqn:Hd; try lia.
  - assert (ex' = ex) as -> by lia. rewrite Z.sub_diag, Z.pow_0_r, Z.mul_1_r. done.
  - f_equal. apply Pos2Z.inj. rewrite Z2Pos.id.
    + unfold shift_pos. rewrite iter_xO_pow. f_equal. f_equal. lia.
    + assert (0 < 2 ^ (ex - ex')) by (apply Z.pow_pos_nonneg; lia). nia.
Qed.

(** [float(N)] for [0 < N < 2^53]: the integer, shifted to 53 bits. *)
Lemma Z2f_canonical N :
  0 < N < 2 ^ 53 ->
  exists M e,
    Z2f N = S754_finite false M e /\ -52 <= e <= 0 /\
    2 ^ 52 <= Z.pos M < 2 ^ 53 /\ Z.pos M = N * 2 ^ (- e).
Proof.
  intros [HN0 HN]. destruct N as [|n|n]; try lia.
  unfold Z2f, binary_normalize, binary_round.
  change (Z.pos (digits2_pos n)) with (Zdigits2 (Z.pos n)).
  pose proof (Zdigits2_log2 n) as Hd.
  pose proof (Z.log2_spec (Z.pos n) HN0) as Hlog.
  pose proof (Z.log2_nonneg (Z.pos n)) as Hl0.
  assert (Z.log2 (Z.pos n) < 53) as Hl53.
  { apply Z.log2_lt_pow2; lia. }
  set (d := Zdigits2 (Z.pos n)) in *.
  rewrite fexp_eq.
  replace (Z.max (d + 0 - 53) (-1074)) with (d - 53) by lia.
  rewrite shl_align_down by lia.
  set (M := Z.pos n * 2 ^ (0 - (d - 53))).
  assert (2 ^ 52 <= M < 2 ^ 53) as HM.
  { unfold M. replace (0 - (d - 53)) with (52 - Z.log2 (Z.pos n)) by lia.
    assert (2 ^ 52 = 2 ^ Z.log2 (Z.pos n) * 2 ^ (52 - Z.log2 (Z.pos n))) as E1.
    { rewrite <- Z.pow_add_r by lia. f_equal. lia. }
    assert (2 ^ 53 = 2 ^ Z.succ (Z.log2 (Z.pos n)) * 2 ^ (52 - Z.log2 (Z.pos n))) as E2.
    { rewrite <- Z.pow_add_r by lia. f_equal. lia. }
    assert (0 < 2 ^ (52 - Z.log2 (Z.pos n))) by (apply Z.pow_pos_nonneg; lia).
    rewrite E1, E2. nia. }
  exists (Z.to_pos M), (d - 53).
  rewrite Z2Pos.id by lia.
  split.
  - rewrite (binary_round_aux_exact M 0 (d - 53)) by lia.
    by rewrite Z.add_0_r.
  - split; [lia|]. split; [done|]. unfold M.
    by replace (0 - (d - 53)) with (- (d - 53)) by lia.
Qed.

(** Multiplying a 53-bit float by [1.0] changes nothing. *)
Lemma fmul_one_exact M e :
  2 ^ 52 <= Z.pos M < 2 ^ 53 -> -1074 <= e <= 971 ->
  fmul (S754_finite false M e) f1 = S754_finite false M e.
Proof.
  intros HM He. unfold fmul, SFmul, f1. cbn [xorb].
  rewrite (binary_round_aux_exact (Z.pos M) 52 (e + -52)) by lia.
  cbn [Z.to_pos]. f_equal; lia.
Qed.

Lemma floor_ceil_Z2f N :
  0 <= N < 2 ^ 53 ->
  float_floor (Z2f N) = Ok N /\ float_ceil (Z2f N) = Ok N /\ float_trunc (Z2f N) = Ok N.
Proof.
  intros [HN0 HN]. destruct (Z.eq_dec N 0) as [->|Hne]; [done|].
  destruct (Z2f_canonical N) as (M & e & -> & He & HM & HMN); [lia|].
  assert (0 < 2 ^ (- e)) by (apply Z.pow_pos_nonneg; lia).
  assert (float_floor (S754_finite false M e) = Ok N) as Hf.
  { unfold float_floor. f_equal. destruct (0 <=? e) eqn:E.
    - apply Z.leb_le in E. assert (e = 0) as -> by lia.
      rewrite Z.shiftl_0_r, HMN. simpl. lia.
    - rewrite Z.shiftr_div_pow2 by lia. rewrite HMN. apply Z.div_mul. lia. }
  split; [done|]. split; [|done].
  unfold float_ceil, fopp, SFopp. cbn [negb float_floor mbind res_bind].
  f_equal. destruct (0 <=? e) eqn:E.
  - apply Z.leb_le in E. assert (e = 0) as -> by lia.
    rewrite Z.shiftl_0_r. change (Z.neg M) with (- Z.pos M). rewrite HMN. simpl. lia.
  - rewrite Z.shiftr_div_pow2 by lia. change (Z.neg M) with (- Z.pos M).
    rewrite HMN. replace (- (N * 2 ^ (- e))) with (- N * 2 ^ (- e)) by lia.
    rewrite Z.div_mul by lia. lia.
Qed.

Lemma fmul_Z2f_one N : 0 <= N < 2 ^ 53 -> fmul (Z2f N) f1 = Z2f N.
Proof.
  intros [HN0 HN]. destruct (Z.eq_dec N 0) as [->|Hne]; [done|].
  destruct (Z2f_canonical N) as (M & e & -> & He & HM & HMN); [lia|].
  apply fmul_one_exact; lia.
Qed.

Lemma fmul_Z2f_zero N : 0 <= N < 2 ^ 53 -> fmul (Z2f N) f0 = f0.
Proof.
  intros [HN0 HN]. destruct (Z.eq_dec N 0) as [->|Hne]; [done|].
  by destruct (Z2f_canonical N) as (M & e & -> & _); [lia|].
Qed.
(** ** Rules and evaluation: further properties *)

Section Rules.

Variable float_of_str : string -> option float.

(** [Rule.match] is the conjunction of its conditions; the threshold is
    converted only when the other conditions hold. *)
Lemma Rule_match_unfold r a e :
  Rule_match float_of_str r a e =
  if list_conditions (when r) a e then
    match event_severity_gte (when r) with
    | Some t =>
        th ← py_float float_of_str t;
        Ok (fle th (to_num float_of_str (get_default (ev_severity e) (PyInt 0)) f0))
    | None => Ok true
    end
  else Ok false.
Proof.
  unfold Rule_match, list_conditions.
  destruct (event_type (when r)), (asset_type (when r)), (asset_tags_any (when r)),
    (event_labels_any (when r)), (event_severity_gte (when r)); cbn;
    repeat match goal with
           | |- context [opt_in ?x ?l] => destruct (opt_in x l); cbn
           | |- context [intersects ?x ?l] => destruct (intersects x l); cbn
           end; reflexivity.
Qed.

(** X2: [Rule.match] returns [True] exactly when every condition that is
    present holds, the threshold being compared with the severity read by
    [to_num]; it raises exactly when the list conditions hold and the
    threshold does not convert.  So a rule whose list conditions fail
    returns [False] whatever its threshold is. *)
Theorem Rule_match_conjunction r a e :
  (Rule_match float_of_str r a e = Ok true <->
   list_conditions (when r) a e = true /\
   match event_severity_gte (when r) with
   | Some t =>
       exists th, py_float float_of_str t = Ok th /\
         fle th (to_num float_of_str (get_default (ev_severity e) (PyInt 0)) f0) = true
   | None => True
   end) /\
  (forall x, Rule_match float_of_str r a e = Raise x <->
     list_conditions (when r) a e = true /\
     exists t, event_severity_gte (when r) = Some t /\
               py_float float_of_str t = Raise x).
Proof.
  rewrite Rule_match_unfold.
  destruct (list_conditions (when r) a e).
  - destruct (event_severity_gte (when r)) as [t|].
    + destruct (py_float float_of_str t) as [th|y] eqn:Ht; cbn.
      * split; [split|].
        -- intros [= H]. split; [done|]. by exists th.
        -- intros [_ (th' & [= <-] & H)]. by rewrite H.
        -- intros x. split; [done|]. by intros [_ (t' & [= <-] & H)]; congruence.
      * split; [split|].
        -- done.
        -- by intros [_ (th' & [=] & _)].
        -- intros x. split.
           ++ intros [= ->]. split; [done|]. by exists t.
           ++ intros [_ (t' & [= <-] & H)]. congruence.
    + split; [done|]. intros x. split; [done|]. by intros [_ (t & [=] & _)].
  - split; [split; [done|by intros [[=] _]]|].
    intros x. split; [done|]. by intros [[=] _].
Qed.

(** With numeric inputs [Rule.score] returns a clamped product. *)
Lemma Rule_score_clamped_value r a e :
  score_inputs_numeric float_of_str r a e ->
  exists s, Rule_score float_of_str r a e = Ok (py_max2 f0 (fmul s (weight r))).
Proof.
  intros (Hb & Hs & Hc & Hms & Hmc & Hl & Ht).
  apply (opt_numeric_default float_of_str) in Hb as [b Hb], Hs as [sev Hs],
    Hc as [crit Hc], Hms as [ms Hms], Hmc as [mc Hmc].
  assert (exists bl, match if_label_bonus (calc r) with
                     | Some items => add_bonus float_of_str items (ev_labels e) f0
                     | None => Ok f0
                     end = Ok bl) as [bl Hbl].
  { destruct (if_label_bonus (calc r)); [by apply add_bonus_returns|by eexists]. }
  assert (exists bt, match if_tag_bonus (calc r) with
                     | Some items => add_bonus float_of_str items (as_tags a) bl
                     | None => Ok bl
                     end = Ok bt) as [bt Hbt].
  { destruct (if_tag_bonus (calc r)); [by apply add_bonus_returns|by eexists]. }
  eexists. unfold Rule_score. rewrite Hb, Hs, Hc, Hms, Hmc. simpl.
  rewrite Hbl. simpl. by rewrite Hbt.
Qed.

Lemma fmul_zero_clamped s w : is_zero w = true -> py_max2 f0 (fmul s w) = f0.
Proof.
  destruct w as [[]| | |]; try discriminate; intros _;
    destruct s as [[]|[]| |[] m e]; reflexivity.
Qed.

(** A rule that scores 0 leaves the total and the applied list as they
    are. *)
Lemma apply_rules_skip r rs a e total applied :
  returns (Rule_match float_of_str r a e) ->
  Rule_score float_of_str r a e = Ok f0 ->
  apply_rules float_of_str (r :: rs) a e total applied =
  apply_rules float_of_str rs a e total applied.
Proof.
  intros [m Hm] Hs. simpl. rewrite Hm. simpl. destruct m; [|done].
  rewrite Hs. reflexivity.
Qed.

(** X3: a rule of weight [0.0] or [-0.0] scores exactly [0.0] and is never
    applied: the rules after it see the total and the applied list that it
    found. *)
Theorem zero_weight_rule_never_applied r a e :
  score_inputs_numeric float_of_str r a e ->
  opt_numeric float_of_str (event_severity_gte (when r)) ->
  is_zero (weight r) = true ->
  Rule_score float_of_str r a e = Ok f0 /\
  forall rs total applied,
    apply_rules float_of_str (r :: rs) a e total applied =
    apply_rules float_of_str rs a e total applied.
Proof.
  intros Hn Ht Hw.
  assert (Rule_score float_of_str r a e = Ok f0) as Hs.
  { destruct (Rule_score_clamped_value r a e Hn) as [s ->].
    by rewrite fmul_zero_clamped. }
  split; [done|]. intros rs total applied.
  apply apply_rules_skip; [by apply Rule_match_returns|done].
Qed.

Lemma empty_calc_value sev crit w :
  py_max2 f0 (fmul (fadd (fadd (fadd f0 (fmul sev f0)) (fmul crit f0)) f0) w) = f0.
Proof.
  destruct sev as [[]|[]| |[] ms es], crit as [[]|[]| |[] mc ec],
    w as [[]|[]| |[] mw ew]; reflexivity.
Qed.

(** X4: a rule without [calc] scores exactly [0.0] on every asset and event
    whose severity and criticality convert, whatever they and the weight
    are (infinite and NaN included), and is never applied. *)
Theorem empty_calc_rule_never_applied r a e :
  calc r = no_calc ->
  opt_numeric float_of_str (ev_severity e) ->
  opt_numeric float_of_str (as_criticality a) ->
  opt_numeric float_of_str (event_severity_gte (when r)) ->
  Rule_score float_of_str r a e = Ok f0 /\
  forall rs total applied,
    apply_rules float_of_str (r :: rs) a e total applied =
    apply_rules float_of_str rs a e total applied.
Proof.
  intros Hc Hs Hcr Ht.
  assert (Rule_score float_of_str r a e = Ok f0) as Hsc.
  { apply (opt_numeric_default float_of_str) in Hs as [sev Hs], Hcr as [crit Hcr].
    unfold Rule_score. rewrite Hc. cbn [base mul_severity mul_criticality
      if_label_bonus if_tag_bonus no_calc get_default].
    change (py_float float_of_str (PyInt 0)) with (Ok f0 : res float).
    rewrite Hs, Hcr. cbn [mbind res_bind]. by rewrite empty_calc_value. }
  split; [done|]. intros rs total applied.
  apply apply_rules_skip; [by apply Rule_match_returns|done].
Qed.

(** *** [evaluate] returns *)

Lemma rule_outcome_returns r a e :
  rule_numeric float_of_str r ->
  opt_numeric float_of_str (ev_severity e) ->
  opt_numeric float_of_str (as_criticality a) ->
  returns (rule_outcome float_of_str r a e).
Proof.
  intros (Ht & Hb & Hms & Hmc & Hl & Htg) Hs Hc.
  unfold rule_outcome.
  destruct (Rule_match_returns float_of_str r a e Ht) as [m ->]. cbn.
  destruct m; [|by eexists].
  destruct (Rule_score_clamped_value r a e) as [s ->]; [by repeat split|].
  cbn. by eexists.
Qed.

Lemma contributions_returns rs a e :
  Forall (rule_numeric float_of_str) rs ->
  opt_numeric float_of_str (ev_severity e) ->
  opt_numeric float_of_str (as_criticality a) ->
  returns (contributions float_of_str rs a e).
Proof.
  intros H Hs Hc. induction H as [|r rs Hr _ [cs IH]]; simpl; [by eexists|].
  destruct (rule_outcome_returns r a e Hr Hs Hc) as [o ->]. cbn.
  rewrite IH. cbn. by eexists.
Qed.

Lemma score_events_returns store p es :
  policy_numeric float_of_str p ->
  store_numeric float_of_str store ->
  events_numeric float_of_str es ->
  returns (score_events float_of_str store p es).
Proof.
  intros Hp Hst Hes. induction Hes as [|e es He _ [batch IH]]; simpl; [by eexists|].
  assert (returns (score_event float_of_str store p e)) as [o ->].
  { unfold score_event.
    destruct (AssetStore_get store (ev_asset e)) as [a|] eqn:Ha; [|by eexists].
    destruct (contributions_returns (rules p) a e) as [cs ->]; [done|done| |].
    - unfold AssetStore_get in Ha. destruct (ev_asset e); [|done]. by eapply Hst.
    - cbn. by eexists. }
  cbn. rewrite IH. cbn. by eexists.
Qed.

(** X5: on assets, events and rules of the shapes of the data model (the
    asset of an event and every type are strings, tags and labels are
    lists of strings, as the records [Asset], [Event] and [When] have
    them), [evaluate] never raises when the stored criticalities, the
    event severities and the policy values given to [float] (thresholds,
    bases, multipliers, bonuses) all convert.  Nothing in the program
    checks these shapes: a list inside [labels] or [tags], or a list as the
    asset of an event, makes [set()] or [dict.get] raise [TypeError], and
    such records are outside this statement. *)
Theorem evaluate_never_raises eng :
  policy_numeric float_of_str (policy eng) ->
  store_numeric float_of_str (assets eng) ->
  events_numeric float_of_str (events eng) ->
  returns (evaluate float_of_str eng).
Proof.
  intros Hp Hs He. unfold evaluate. rewrite evaluate_loop_batch.
  destruct (score_events_returns _ _ _ Hp Hs He) as [batch ->]. cbn. by eexists.
Qed.

(** *** The results of one call *)

Lemma score_events_filter store p es batch :
  score_events float_of_str store p es = Ok batch ->
  map sr_event batch = map ev_id (List.filter (resolves store) es) /\
  map sr_ts batch = map ev_ts (List.filter (resolves store) es) /\
  (store_keyed_by_id store ->
   map (fun r => Some (sr_asset r)) batch =
   map ev_asset (List.filter (resolves store) es)).
Proof.
  revert batch. induction es as [|e es IH]; intros batch.
  - by intros [= <-].
  - cbn [score_events List.filter]. intros H. apply bind_Ok in H as (o & Ho & H).
    apply bind_Ok in H as (rest & Hrest & [= <-]).
    destruct (IH rest Hrest) as (IH1 & IH2 & IH3).
    destruct (resolves store e) eqn:Hr; unfold resolves in Hr;
      unfold score_event in Ho;
      destruct (AssetStore_get store (ev_asset e)) as [a|] eqn:Ha; try discriminate Hr.
    + apply bind_Ok in Ho as (cs & _ & [= <-]). cbn.
      rewrite IH1, IH2. split; [done|]. split; [done|]. intros Hk.
      rewrite (IH3 Hk). f_equal.
      unfold AssetStore_get in Ha. destruct (ev_asset e) as [k|]; [|done].
      by rewrite (Hk k a Ha).
    + by injection Ho as <-.
Qed.

(** X6: one call of [evaluate] appends one result for each event that
    resolves, in the order of the events, with the id and the timestamp of
    its event and, when the store keeps every asset under its id, the
    asset the event names; assets, events and policy stay as they are. *)
Theorem evaluate_results_follow_events eng eng' :
  evaluate float_of_str eng = Ok eng' ->
  exists batch,
    results eng' = results eng ++ batch /\
    map sr_event batch = map ev_id (List.filter (resolves (assets eng)) (events eng)) /\
    map sr_ts batch = map ev_ts (List.filter (resolves (assets eng)) (events eng)) /\
    (store_keyed_by_id (assets eng) ->
     map (fun r => Some (sr_asset r)) batch =
     map ev_asset (List.filter (resolves (assets eng)) (events eng))) /\
    assets eng' = assets eng /\ events eng' = events eng /\ policy eng' = policy eng.
Proof.
  unfold evaluate. rewrite evaluate_loop_batch. intros H.
  apply bind_Ok in H as (batch & Hb & [= <-]).
  exists batch. cbn. destruct (score_events_filter _ _ _ _ Hb) as (H1 & H2 & H3).
  repeat split; done.
Qed.

End Rules.

(** ** Scores and aggregation: further properties *)

Section Aggregation.

Variable float_of_str : string -> option float.
Variable py_sum : list float -> float.

Lemma evaluated_scores_nonneg eng :
  evaluated float_of_str eng ->
  forall r, r ∈ results eng -> nonneg (sr_score r) = true.
Proof.
  intros Hev r Hr.
  destruct (evaluated_results float_of_str eng Hev r Hr)
    as (e & a & cs & _ & _ & Hcs & ->).
  cbn. apply sum_scores_nonneg; [by eapply contributions_pos|done].
Qed.

Lemma scores_of_elem k rs v :
  v ∈ scores_of k rs <-> exists r, r ∈ rs /\ sr_asset r = k /\ sr_score r = v.
Proof.
  unfold scores_of. rewrite list_elem_of_fmap. split.
  - intros (r & -> & Hr). apply list_elem_of_In, filter_In in Hr as [Hr Hk].
    apply String.eqb_eq in Hk. exists r. by rewrite list_elem_of_In.
  - intros (r & Hr & <- & <-). exists r. split; [done|].
    apply list_elem_of_In, filter_In. split; [by apply list_elem_of_In|].
    apply String.eqb_refl.
Qed.

(** The lists of [by_asset] are the scores of the results, asset by
    asset. *)
Lemma evaluated_entry eng k vs :
  evaluated float_of_str eng -> (k, vs) ∈ by_asset eng ->
  vs = scores_of k (results eng) /\ vs <> [].
Proof.
  intros Hev Hin. destruct (evaluated_grouped float_of_str eng Hev) as (Hnd & Has & Hk).
  assert (vs = scores_of k (results eng)) as ->.
  { by rewrite <- Has, (assoc_entry _ _ _ Hnd Hin). }
  split; [done|]. apply scores_of_nonempty, Hk, list_elem_of_fmap. by eexists (k, _).
Qed.

(** X7: a total is never negative and never a NaN: in every engine reached
    from [__init__] by calls of [evaluate], the score of each result and
    each total kept in [by_asset] is [+0.0] or a positive float, finite or
    infinite. *)
Theorem result_scores_nonneg eng :
  evaluated float_of_str eng ->
  (forall r, r ∈ results eng ->
     nonneg (sr_score r) = true /\ is_nan (sr_score r) = false /\
     fle f0 (sr_score r) = true) /\
  (forall k vs, (k, vs) ∈ by_asset eng -> Forall (fun v => nonneg v = true) vs).
Proof.
  intros Hev. split.
  - intros r Hr. pose proof (evaluated_scores_nonneg eng Hev r Hr) as H.
    split; [done|]. by destruct (sr_score r) as [[]|[]| |[] m e].
  - intros k vs Hin. destruct (evaluated_entry eng k vs Hev Hin) as [-> _].
    apply Forall_forall. intros v Hv.
    apply scores_of_elem in Hv as (r & Hr & _ & <-).
    by apply (evaluated_scores_nonneg eng).
Qed.

(** *** Counts *)

Lemma by_asset_total_append k v m :
  by_asset_total (by_asset_append k v m) = S (by_asset_total m).
Proof.
  unfold by_asset_total. induction m as [|[k' vs] m IH]; simpl; [done|].
  destruct (String.eqb k k'); simpl.
  - rewrite length_app. simpl. lia.
  - rewrite IH. lia.
Qed.

Lemma by_asset_total_record batch m :
  by_asset_total (record_scores batch m) = (length batch + by_asset_total m)%nat.
Proof.
  unfold record_scores. revert m. induction batch as [|r batch IH]; intros m; simpl; [done|].
  rewrite IH, by_asset_total_append. lia.
Qed.

Lemma evaluated_total eng :
  evaluated float_of_str eng -> by_asset_total (by_asset eng) = length (results eng).
Proof.
  induction 1 as [store es pol|eng eng' _ IH Hev]; [done|].
  unfold evaluate in Hev. rewrite evaluate_loop_batch in Hev.
  apply bind_Ok in Hev as (batch & Hb & [= <-]). cbn [results by_asset].
  rewrite by_asset_total_record, length_app, IH. lia.
Qed.

Lemma asset_stats_fields vals st :
  asset_stats py_sum vals = Ok st ->
  agg_count st = Z.of_nat (length vals) /\
  agg_max st = get_default (py_max vals) f0.
Proof.
  unfold asset_stats. intros H.
  apply bind_Ok in H as (fn & _ & H). apply bind_Ok in H as (p95 & _ & H).
  apply bind_Ok in H as (p99 & _ & [= <-]). done.
Qed.

Lemma aggregate_loop_counts m agg :
  aggregate_loop py_sum m = Ok agg ->
  fold_right Z.add 0 (map (fun kv => agg_count (snd kv)) agg) =
  Z.of_nat (by_asset_total m).
Proof.
  revert agg. induction m as [|[k vs] m IH]; intros agg H; simpl in H.
  - by injection H as <-.
  - change (by_asset_total ((k, vs) :: m)) with (length vs + by_asset_total m)%nat.
    destruct vs as [|v vs]; [by rewrite (IH _ H)|].
    apply bind_Ok in H as (st & Hst & H). apply bind_Ok in H as (rest & Hrest & [= <-]).
    apply asset_stats_fields in Hst as [Hc _].
    cbn [map fold_right snd]. rewrite (IH _ Hrest), Hc. lia.
Qed.

Lemma aggregate_loop_entries m agg :
  aggregate_loop py_sum m = Ok agg ->
  map fst agg = map fst (List.filter (fun kv => negb (Nat.eqb (length (snd kv)) 0)) m) /\
  forall k st, (k, st) ∈ agg ->
    exists vs, (k, vs) ∈ m /\ vs <> [] /\ asset_stats py_sum vs = Ok st.
Proof.
  revert agg. induction m as [|[k vs] m IH]; intros agg H; simpl in H.
  - injection H as <-. split; [done|]. intros k st Hin. by apply elem_of_nil in Hin.
  - destruct vs as [|v vs].
    + destruct (IH _ H) as [IH1 IH2]. split; [done|]. intros k' st Hin.
      destruct (IH2 _ _ Hin) as (vs' & ? & ? & ?). exists vs'. split; [by right|done].
    + apply bind_Ok in H as (st & Hst & H).
      apply bind_Ok in H as (rest & Hrest & [= <-]).
      destruct (IH _ Hrest) as [IH1 IH2]. split; [cbn; by rewrite IH1|].
      intros k' st' Hin. apply elem_of_cons in Hin as [[= -> ->]|Hin].
      * eexists. split; [left|done].
      * destruct (IH2 _ _ Hin) as (vs' & ? & ? & ?). exists vs'. split; [by right|done].
Qed.

Lemma evaluated_aggregate_returns eng :
  evaluated float_of_str eng ->
  Z.of_nat (length (results eng)) < 2 ^ 53 ->
  exists agg, aggregate py_sum eng = Ok agg /\ map fst agg = map fst (by_asset eng).
Proof.
  intros Hev Hlen.
  destruct (aggregate_loop_total py_sum (by_asset eng)) as (agg & Hagg & Hkeys & _).
  { intros k vs Hin. destruct (evaluated_entry eng k vs Hev Hin) as [-> Hne].
    split; [done|]. pose proof (scores_of_length k (results eng)). lia. }
  by exists agg.
Qed.

(** X8: the counts of the aggregate add up to the number of results: every
    result is counted under exactly one asset. *)
Theorem aggregate_counts_add_up eng :
  evaluated float_of_str eng ->
  Z.of_nat (length (results eng)) < 2 ^ 53 ->
  exists agg,
    aggregate py_sum eng = Ok agg /\
    fold_right Z.add 0 (map (fun kv => agg_count (snd kv)) agg) =
    Z.of_nat (length (results eng)).
Proof.
  intros Hev Hlen.
  destruct (evaluated_aggregate_returns eng Hev Hlen) as (agg & Hagg & _).
  exists agg. split; [done|].
  unfold aggregate in Hagg. by rewrite (aggregate_loop_counts _ _ Hagg), evaluated_total.
Qed.

(** *** The maximum *)

Lemma fold_py_max2 vs : forall acc seen,
  acc ∈ seen -> (forall x, x ∈ seen -> flt acc x = false) ->
  fold_left py_max2 vs acc ∈ seen ++ vs /\
  forall x, x ∈ seen ++ vs -> flt (fold_left py_max2 vs acc) x = false.
Proof.
  induction vs as [|b vs IH]; intros acc seen Hin Hmax.
  - rewrite app_nil_r. done.
  - cbn [fold_left]. replace (seen ++ b :: vs) with ((seen ++ [b]) ++ vs)
      by (by rewrite <- app_assoc).
    apply IH; unfold py_max2; destruct (flt acc b) eqn:Hb.
    + apply elem_of_app. right. left.
    + apply elem_of_app. by left.
    + intros x Hx. apply elem_of_app in Hx as [Hx|Hx].
      * destruct (flt b x) eqn:Hbx; [|done].
        pose proof (Hmax x Hx) as Hax. by rewrite (flt_trans _ _ _ Hb Hbx) in Hax.
      * apply list_elem_of_singleton in Hx as ->. apply flt_irrefl.
    + intros x Hx. apply elem_of_app in Hx as [Hx|Hx]; [by apply Hmax|].
      by apply list_elem_of_singleton in Hx as ->.
Qed.

Lemma py_max_greatest vs m :
  py_max vs = Some m -> m ∈ vs /\ forall x, x ∈ vs -> flt m x = false.
Proof.
  destruct vs as [|v vs]; [done|]. intros [= <-].
  apply (fold_py_max2 vs v [v]); [left|].
  intros x Hx. apply list_elem_of_singleton in Hx as ->. apply flt_irrefl.
Qed.

(** X9: the maximum [aggregate] reports for an asset is one of the scores of
    that asset's results, and every score of the asset is less than or
    equal to it. *)
Theorem agg_max_is_greatest eng agg aid st :
  evaluated float_of_str eng ->
  aggregate py_sum eng = Ok agg ->
  (aid, st) ∈ agg ->
  agg_max st ∈ scores_of aid (results eng) /\
  forall v, v ∈ scores_of aid (results eng) -> fle v (agg_max st) = true.
Proof.
  intros Hev Hagg Hin.
  destruct (aggregate_loop_entries _ _ Hagg) as [_ Hent].
  destruct (Hent _ _ Hin) as (vs & Hvs & Hne & Hst).
  destruct (evaluated_entry eng aid vs Hev Hvs) as [-> _].
  apply asset_stats_fields in Hst as [_ Hmax].
  destruct (py_max (scores_of aid (results eng))) as [m|] eqn:Hm.
  - cbn in Hmax. subst m. destruct (py_max_greatest _ _ Hm) as [Hel Hgr].
    split; [done|]. intros v Hv.
    assert (forall x, x ∈ scores_of aid (results eng) -> is_nan x = false) as Hnn.
    { intros x Hx. apply scores_of_elem in Hx as (r & Hr & _ & <-).
      by apply nonneg_not_nan, (evaluated_scores_nonneg eng). }
    apply not_flt_fle; [by apply Hnn|by apply Hnn|by apply Hgr].
  - by destruct (scores_of aid (results eng)).
Qed.

(** *** The percentiles 0 and 100 *)

Lemma StronglySorted_last {A} (R : A -> A -> Prop) l x :
  StronglySorted R (l ++ [x]) -> Forall (fun a => R a x) l.
Proof.
  induction l as [|a l IH]; intros H; [done|].
  apply StronglySorted_inv in H as [H1 H2]. constructor.
  - apply Forall_forall with (x := x) in H2; [done|]. apply elem_of_app. right. left.
  - by apply IH.
Qed.

(** X10: for values none of which is a NaN, the percentile 0 is the least
    value and the percentile 100 the greatest: each is an element of the
    list, the first is [<=] every element and every element is [<=] the
    second. *)
Theorem percentile_extremes vals :
  vals <> [] -> Z.of_nat (length vals) <= 2 ^ 53 ->
  Forall (fun v => is_nan v = false) vals ->
  (exists lo, percentile vals (PyInt 0) = Ok lo /\ lo ∈ vals /\
     forall v, v ∈ vals -> fle lo v = true) /\
  (exists hi, percentile vals (PyInt 100) = Ok hi /\ hi ∈ vals /\
     forall v, v ∈ vals -> fle v hi = true).
Proof.
  intros Hne Hlen Hnan.
  assert (0 < length vals)%nat as Hpos by (destruct vals; [done|simpl; lia]).
  pose proof (py_sorted_perm flt vals) as Hperm.
  pose proof (py_sorted_sorted flt flt_asym flt_trans vals) as Hsort.
  pose proof (py_sorted_length flt vals) as Hl.
  assert (0 <= Z.of_nat (length vals) - 1 < 2 ^ 53) as HN by lia.
  assert (forall v, v ∈ vals -> is_nan v = false) as Hnn.
  { intros v Hv. by apply (proj1 (Forall_forall _ _) Hnan). }
  split.
  - rewrite percentile_total by done. eexists. split; [reflexivity|].
    unfold percentile_formula. rewrite Hl.
    destruct (Z.eqb_spec (Z.of_nat (length vals)) 0) as [?|_]; [lia|].
    cbn [percent_value].
    change (fdiv (Z2f 0) f100) with f0. rewrite fmul_Z2f_zero by done.
    cbn [floor_Z ceil_Z float_floor float_ceil fopp SFopp f0 mbind res_bind Z.opp Z.eqb Z.to_nat].
    destruct (py_sorted flt vals) as [|h t] eqn:Hs; [by destruct vals|].
    cbn [nth].
    assert (h ∈ vals) as Hh by (rewrite Hperm; left).
    split; [done|].
    intros v Hv. apply not_flt_fle; [by apply Hnn|by apply Hnn|].
    rewrite Hperm in Hv. apply elem_of_cons in Hv as [->|Hv].
    + apply flt_irrefl.
    + apply StronglySorted_inv in Hsort as [_ Hh'].
      by apply Forall_forall with (x := v) in Hh'.
  - rewrite percentile_total by done. eexists. split; [reflexivity|].
    unfold percentile_formula. rewrite Hl.
    destruct (Z.eqb_spec (Z.of_nat (length vals)) 0) as [?|_]; [lia|].
    cbn [percent_value].
    replace (fdiv (Z2f 100) f100) with f1 by (by vm_compute).
    rewrite fmul_Z2f_one by done.
    unfold floor_Z, ceil_Z.
    destruct (floor_ceil_Z2f _ HN) as (-> & -> & _). rewrite Z.eqb_refl.
    destruct (exists_last (l := py_sorted flt vals)) as (init & hi & Hs).
    { intros E. rewrite E in Hl. simpl in Hl. lia. }
    rewrite Hs in Hsort, Hl, Hperm |- *. rewrite length_app in Hl. simpl in Hl.
    replace (Z.to_nat (Z.of_nat (length vals) - 1)) with (length init) by lia.
    rewrite nth_middle.
    assert (hi ∈ vals) as Hh by (rewrite Hperm; apply elem_of_app; right; left).
    split; [done|].
    intros v Hv. apply not_flt_fle; [by apply Hnn|by apply Hnn|].
    rewrite Hperm in Hv. apply elem_of_app in Hv as [Hv|Hv].
    + apply StronglySorted_last in Hsort.
      by apply Forall_forall with (x := v) in Hsort.
    + apply list_elem_of_singleton in Hv as ->. apply flt_irrefl.
Qed.

(** *** The report *)

Lemma summary_row_asset store aid m :
  store_keyed_by_id store -> row_asset (summary_row store aid m) = aid.
Proof.
  intros Hk. unfold summary_row. destruct (store !! aid) as [a|] eqn:Ha; [|done].
  cbn. by apply Hk.
Qed.

(** X11: [export_report] returns for every engine reached by calls of
    [evaluate]: the document carries the time it was given and the
    engine's results, unchanged and in order, as its details, and, for a
    store that keeps every asset under its id, exactly one summary row for
    each asset that has a result. *)
Theorem export_report_rows now eng store :
  evaluated float_of_str eng ->
  Z.of_nat (length (results eng)) < 2 ^ 53 ->
  exists rep,
    export_report py_sum now eng store = Ok rep /\
    generated_at rep = now /\
    details rep = results eng /\
    (store_keyed_by_id store ->
     NoDup (map row_asset (summary rep)) /\
     forall aid, aid ∈ map row_asset (summary rep) <-> aid ∈ map sr_asset (results eng)).
Proof.
  intros Hev Hlen.
  destruct (evaluated_aggregate_returns eng Hev Hlen) as (agg & Hagg & Hkeys).
  destruct (evaluated_grouped float_of_str eng Hev) as (Hnd & _ & Hk).
  unfold export_report. rewrite Hagg. cbn [mbind res_bind].
  eexists. split; [reflexivity|]. cbn [generated_at details summary].
  split; [done|]. split; [done|]. intros Hkeyed.
  assert (map row_asset (map (fun '(aid, m) => summary_row store aid m) agg)
          = map fst (by_asset eng)) as Hrows.
  { rewrite <- Hkeys, map_map. apply map_ext. intros [aid m].
    by apply summary_row_asset. }
  assert (Permutation (map fst (by_asset eng))
            (map row_asset
               (sort_summary (map (fun '(aid, m) => summary_row store aid m) agg))))
    as Hperm.
  { rewrite <- Hrows. apply Permutation_map. apply py_sorted_perm. }
  split.
  - by rewrite <- Hperm.
  - intros aid. by rewrite <- Hperm.
Qed.

End Aggregation.

(** ** The loaders *)

Section LoaderProps.

Variable float_of_str : string -> option float.
Variable int_of_str : string -> option Z.
Variable nid : nat -> string.
Variable now : nat -> Z.

Lemma or_nid_count x n : (n <= snd (or_nid nid x n))%nat.
Proof. unfold or_nid. destruct x as [s|]; [destruct (String.eqb s "")|]; simpl; lia. Qed.

Lemma or_nid_given k n : k <> "" -> or_nid nid (Some k) n = (k, n).
Proof.
  intros Hk. unfold or_nid. destruct (String.eqb_spec k ""); [done|done].
Qed.

(** What [load] stores for a record that converts. *)
Lemma load_asset_Ok a n r n' :
  load_asset float_of_str nid a n = Ok (r, n') ->
  (as_id r, n') = or_nid nid (ra_id a) n /\
  as_name r = get_default (ra_name a) (as_id r) /\
  as_type r = Some (get_default (ra_type a) "") /\
  as_tags r = get_default (ra_tags a) [] /\
  exists f, py_float float_of_str (get_default (ra_criticality a) (PyFloat f0_5)) = Ok f /\
            as_criticality r = Some (PyFloat f).
Proof.
  unfold load_asset. destruct (or_nid nid (ra_id a) n) as [aid m].
  intros H. apply bind_Ok in H as (f & Hf & [= <- <-]). cbn.
  repeat split. by exists f.
Qed.

Lemma load_asset_returns a n :
  returns (load_asset float_of_str nid a n) <->
  opt_numeric float_of_str (ra_criticality a).
Proof.
  unfold load_asset. destruct (or_nid nid (ra_id a) n) as [aid m].
  destruct (ra_criticality a) as [v|]; cbn.
  - destruct (py_float float_of_str v) as [f|x]; cbn.
    + split; intros _; by eexists.
    + split; intros [? [=]].
  - split; [done|]. intros _. by eexists.
Qed.

(** X12: [AssetStore.load] returns exactly when every criticality that is
    given converts with [float]; text that is no number, [null] or a list
    in one record makes the whole load raise. *)
Theorem AssetStore_load_returns_iff recs store n :
  returns (AssetStore_load_json float_of_str nid recs store n) <->
  Forall (fun a => opt_numeric float_of_str (ra_criticality a)) recs.
Proof.
  revert store n. induction recs as [|a recs IH]; intros store n; cbn [AssetStore_load_json].
  - split; [done|]. intros _. by eexists.
  - rewrite Forall_cons, <- (load_asset_returns a n).
    destruct (load_asset float_of_str nid a n) as [[r m]|x]; cbn.
    + rewrite IH. split; [|by intros [_ ?]]. intros H. split; [by eexists|done].
    + split; [by intros [? [=]]|]. by intros [[? [=]] _].
Qed.

(** A record whose key is its id and whose criticality is a float. *)
Lemma load_json_keeps recs : forall store n store' n' k r,
  AssetStore_load_json float_of_str nid recs store n = Ok (store', n') ->
  store !! k = Some r -> as_id r = k ->
  (exists f, as_criticality r = Some (PyFloat f)) ->
  exists r', store' !! k = Some r' /\ as_id r' = k /\
             exists f, as_criticality r' = Some (PyFloat f).
Proof.
  induction recs as [|a recs IH]; intros store n store' n' k r H Hk Hid Hf;
    cbn [AssetStore_load_json] in H.
  - injection H as <- <-. by exists r.
  - apply bind_Ok in H as ([r1 m] & Ha & H).
    apply load_asset_Ok in Ha as (_ & _ & _ & _ & f1 & _ & Hf1).
    unfold AssetStore_put in H.
    destruct (decide (as_id r1 = k)) as [E|E].
    + eapply (IH _ _ _ _ k r1 H); [by rewrite E, lookup_insert_eq|done|by exists f1].
    + eapply (IH _ _ _ _ k r H); [by rewrite lookup_insert_ne|done|done].
Qed.

Lemma load_json_invariant (P : AssetStore -> Prop) recs : forall store n store' n',
  (forall s r, P s -> (exists a m m', load_asset float_of_str nid a m = Ok (r, m')) ->
               P (AssetStore_put r s)) ->
  AssetStore_load_json float_of_str nid recs store n = Ok (store', n') ->
  P store -> P store'.
Proof.
  induction recs as [|a recs IH]; intros store n store' n' Hstep H HP;
    cbn [AssetStore_load_json] in H.
  - by injection H as <- <-.
  - apply bind_Ok in H as ([r1 m] & Ha & H).
    eapply (IH _ _ _ _ Hstep H). apply Hstep; [done|]. by exists a, n, m.
Qed.

Lemma AssetStore_load_json_numeric recs store n store' n' :
  AssetStore_load_json float_of_str nid recs store n = Ok (store', n') ->
  store_numeric float_of_str store -> store_numeric float_of_str store'.
Proof.
  intros H.
  apply (load_json_invariant (store_numeric float_of_str)
           recs store n store' n'); [|exact H].
  intros s r Hs (a & m & m' & Hl) k b. unfold AssetStore_put.
  apply load_asset_Ok in Hl as (_ & _ & _ & _ & f & _ & Hf).
  destruct (decide (as_id r = k)) as [<-|E].
  - rewrite lookup_insert_eq. intros [= <-]. rewrite Hf. cbn. by eexists.
  - rewrite lookup_insert_ne by done. apply Hs.
Qed.

Lemma AssetStore_load_json_keyed recs store n store' n' :
  AssetStore_load_json float_of_str nid recs store n = Ok (store', n') ->
  store_keyed_by_id store -> store_keyed_by_id store'.
Proof.
  intros H.
  apply (load_json_invariant store_keyed_by_id recs store n store' n'); [|exact H].
  intros s r Hs _ k a. unfold AssetStore_put.
  destruct (decide (as_id r = k)) as [<-|E].
  - rewrite lookup_insert_eq. by intros [= <-].
  - rewrite lookup_insert_ne by done. apply Hs.
Qed.

(** X13: after [AssetStore.load] every asset is stored under its own id and
    every asset it stored has a float criticality; nothing that was in the
    store is removed; and [get] finds, for every id given in the file, an
    asset with that id and a float criticality. *)
Theorem AssetStore_load_lookup recs store n store' n' :
  AssetStore_load_json float_of_str nid recs store n = Ok (store', n') ->
  (store_keyed_by_id store -> store_keyed_by_id store') /\
  (store_numeric float_of_str store -> store_numeric float_of_str store') /\
  (forall k, is_Some (store !! k) -> is_Some (store' !! k)) /\
  (forall a k, a ∈ recs -> ra_id a = Some k -> k <> "" ->
     exists r, AssetStore_get store' (Some k) = Some r /\ as_id r = k /\
               exists f, as_criticality r = Some (PyFloat f)).
Proof.
  intros H. split; [|split; [|split]].
  - by apply (AssetStore_load_json_keyed recs store n store' n').
  - by apply (AssetStore_load_json_numeric recs store n store' n').
  - intros k.
    apply (load_json_invariant (fun s => is_Some (s !! k)) recs store n store' n'); [|done].
    intros s r Hs _. unfold AssetStore_put.
    destruct (decide (as_id r = k)) as [<-|E].
    + rewrite lookup_insert_eq. by eexists.
    + by rewrite lookup_insert_ne.
  - intros a k Ha Hid Hk. cbn [AssetStore_get].
    revert store n H. induction recs as [|b recs IH]; intros store n H;
      [by apply elem_of_nil in Ha|].
    cbn [AssetStore_load_json] in H. apply bind_Ok in H as ([r1 m] & Hb & H).
    apply elem_of_cons in Ha as [<-|Ha]; [|by eapply IH].
    apply load_asset_Ok in Hb as (Hor & _ & _ & _ & f & _ & Hf).
    rewrite Hid, or_nid_given in Hor by done. injection Hor as Hr1 _.
    eapply (load_json_keeps _ _ _ _ _ k r1 H); [|done|by exists f].
    unfold AssetStore_put. by rewrite Hr1, lookup_insert_eq.
Qed.

(** *** Events *)

Lemma load_event_Ok e n t r n' t' :
  load_event float_of_str int_of_str nid now e n t = Ok (r, n', t') ->
  (ev_id r, n') = or_nid nid (re_id e) n /\ t' = S t /\
  py_int int_of_str (get_default (re_ts e) (PyInt (now t))) = Ok (ev_ts r) /\
  ev_asset r = re_asset e /\
  ev_type r = Some (get_default (re_type e) "") /\
  ev_labels r = get_default (re_labels e) [] /\
  ev_data r = get_default (re_data e) (PyDict []) /\
  exists f, py_float float_of_str (get_default (re_severity e) (PyFloat f0_5)) = Ok f /\
            ev_severity r = Some (PyFloat f).
Proof.
  unfold load_event. destruct (or_nid nid (re_id e) n) as [eid m].
  intros H. apply bind_Ok in H as (ts & Hts & H).
  apply bind_Ok in H as (f & Hf & [= <- <- <-]). cbn.
  repeat split; try done. by exists f.
Qed.

Lemma load_event_returns e n t :
  returns (load_event float_of_str int_of_str nid now e n t) <->
  match re_ts e with Some v => returns (py_int int_of_str v) | None => True end /\
  opt_numeric float_of_str (re_severity e).
Proof.
  unfold load_event. destruct (or_nid nid (re_id e) n) as [eid m].
  destruct (re_ts e) as [v|]; cbn [get_default].
  - destruct (py_int int_of_str v) as [z|x]; cbn [mbind res_bind].
    + destruct (re_severity e) as [s|]; cbn.
      * destruct (py_float float_of_str s) as [f|x]; cbn.
        -- split; [intros _; split; by eexists|intros _; by eexists].
        -- split; [by intros [? [=]]|by intros [_ [? [=]]]].
      * split; [intros _; split; [by eexists|done]|intros _; by eexists].
    + split; [by intros [? [=]]|by intros [[? [=]] _]].
  - cbn [py_int mbind res_bind]. destruct (re_severity e) as [s|]; cbn.
    + destruct (py_float float_of_str s) as [f|x]; cbn.
      * split; [intros _; split; [done|by eexists]|intros _; by eexists].
      * split; [by intros [? [=]]|by intros [_ [? [=]]]].
    + split; [done|intros _; by eexists].
Qed.

(** X14: [EventStore.load] keeps the events it had and appends one event for
    each record of the file, in the order of the file: none is dropped or
    merged, also when ids repeat.  Each new event has the asset, type,
    labels and data of its record (with the defaults), the id of the
    record when it gives one, the timestamp when it is an integer, and a
    float severity.  The clock is read once for each record, whether or
    not the record has a timestamp. *)
Theorem EventStore_load_appends recs events n t events' n' t' :
  EventStore_load float_of_str int_of_str nid now recs events n t = Ok (events', n', t') ->
  exists new,
    events' = events ++ new /\
    t' = (t + length recs)%nat /\
    Forall2 (fun raw ev =>
               ev_asset ev = re_asset raw /\
               ev_type ev = Some (get_default (re_type raw) "") /\
               ev_labels ev = get_default (re_labels raw) [] /\
               ev_data ev = get_default (re_data raw) (PyDict []) /\
               (exists f, ev_severity ev = Some (PyFloat f)) /\
               (forall k, re_id raw = Some k -> k <> "" -> ev_id ev = k) /\
               (forall z, re_ts raw = Some (PyInt z) -> ev_ts ev = z))
            recs new.
Proof.
  revert events n t. induction recs as [|e recs IH]; intros events n t H;
    cbn [EventStore_load] in H.
  - injection H as <- <- <-. exists []. rewrite app_nil_r. split; [done|].
    split; [simpl; lia|constructor].
  - apply bind_Ok in H as ([[r m] u] & He & H).
    apply load_event_Ok in He as (Hid & -> & Hts & Ha & Hty & Hl & Hd & f & _ & Hf).
    destruct (IH _ _ _ H) as (new & -> & -> & Hall).
    exists (r :: new). rewrite <- app_assoc. split; [done|].
    split; [simpl; lia|]. constructor; [|done].
    repeat split; try done.
    + by exists f.
    + intros k Hk Hne. rewrite Hk, or_nid_given in Hid by done. by injection Hid.
    + intros z Hz. rewrite Hz in Hts. cbn in Hts. by injection Hts.
Qed.

(** X15: [EventStore.load] returns exactly when, in every record, the
    timestamp that is given converts with [int] and the severity that is
    given converts with [float]. *)
Theorem EventStore_load_returns_iff recs events n t :
  returns (EventStore_load float_of_str int_of_str nid now recs events n t) <->
  Forall (fun e =>
            match re_ts e with
            | Some v => returns (py_int int_of_str v)
            | None => True
            end /\
            opt_numeric float_of_str (re_severity e)) recs.
Proof.
  revert events n t. induction recs as [|e recs IH]; intros events n t;
    cbn [EventStore_load].
  - split; [done|]. intros _. by eexists.
  - rewrite Forall_cons, <- (load_event_returns e n t).
    destruct (load_event float_of_str int_of_str nid now e n t) as [[[r m] u]|x]; cbn.
    + rewrite IH. split; [|by intros [_ ?]]. intros H. split; [by eexists|done].
    + split; [by intros [? [=]]|]. by intros [[? [=]] _].
Qed.

Lemma EventStore_load_length recs events n t events' n' t' :
  EventStore_load float_of_str int_of_str nid now recs events n t = Ok (events', n', t') ->
  length events' = (length events + length recs)%nat.
Proof.
  revert events n t. induction recs as [|e recs IH]; intros events n t H;
    cbn [EventStore_load] in H.
  - injection H as <- <- <-. simpl. lia.
  - apply bind_Ok in H as ([[r m] u] & _ & H).
    rewrite (IH _ _ _ H), length_app. simpl. lia.
Qed.

Lemma EventStore_load_numeric recs events n t events' n' t' :
  EventStore_load float_of_str int_of_str nid now recs events n t = Ok (events', n', t') ->
  events_numeric float_of_str events -> events_numeric float_of_str events'.
Proof.
  revert events n t. induction recs as [|e recs IH]; intros events n t H Hn;
    cbn [EventStore_load] in H.
  - by injection H as <- <- <-.
  - apply bind_Ok in H as ([[r m] u] & He & H).
    apply load_event_Ok in He as (_ & _ & _ & _ & _ & _ & _ & f & _ & Hf).
    apply (IH _ _ _ H). apply Forall_app. split; [done|].
    constructor; [|done]. rewrite Hf. cbn. by eexists.
Qed.

Lemma bootstrap_policy_numeric : policy_numeric float_of_str bootstrap_policy.
Proof.
  unfold policy_numeric, bootstrap_policy. cbn [rules].
  repeat constructor; cbn; by eexists.
Qed.


(** *** Policies *)

Lemma Rule_init_returns r n :
  returns (Rule_init float_of_str nid r n) <-> opt_numeric float_of_str (rr_weight r).
Proof.
  unfold Rule_init. destruct (or_nid nid (rr_id r) n) as [rid m].
  destruct (rr_weight r) as [v|]; cbn.
  - destruct (py_float float_of_str v) as [f|x]; cbn.
    + split; intros _; by eexists.
    + split; intros [? [=]].
  - split; [done|]. intros _. by eexists.
Qed.

Lemma Rules_init_returns rs n :
  returns (Rules_init float_of_str nid rs n) <->
  Forall (fun r => opt_numeric float_of_str (rr_weight r)) rs.
Proof.
  revert n. induction rs as [|r rs IH]; intros n; cbn [Rules_init].
  - split; [done|]. intros _. by eexists.
  - rewrite Forall_cons, <- (Rule_init_returns r n).
    destruct (Rule_init float_of_str nid r n) as [[r' m]|x]; cbn.
    + rewrite <- (IH m). destruct (Rules_init float_of_str nid rs m) as [[rs' m']|x]; cbn.
      * split; intros _; [split|]; by eexists.
      * split; [by intros [? [=]]|by intros [_ [? [=]]]].
    + split; [by intros [? [=]]|]. by intros [[? [=]] _].
Qed.

Lemma Policy_init_returns d n :
  returns (Policy_init float_of_str nid d n) <->
  Forall (fun r => opt_numeric float_of_str (rr_weight r)) (get_default (rp_rules d) []).
Proof.
  unfold Policy_init. destruct (or_nid nid (rp_id d) n) as [pid m].
  rewrite <- (Rules_init_returns _ m).
  destruct (Rules_init float_of_str nid (get_default (rp_rules d) []) m) as [[rs m']|x]; cbn.
  - split; intros _; by eexists.
  - split; intros [? [=]].
Qed.

Lemma Policy_init_bootstrap n :
  Policy_init float_of_str nid bootstrap_policy_raw n = Ok (bootstrap_policy, n).
Proof. reflexivity. Qed.

(** X17: [load_or_default] always returns a policy.  It is the policy of the
    document when the file was read and every weight given converts with
    [float]; it is the built-in policy when the file could not be read or
    a weight does not convert. *)
Theorem load_or_default_total doc n :
  exists p,
    load_or_default float_of_str nid doc n = Ok p /\
    (forall d, doc = Ok d ->
       Forall (fun r => opt_numeric float_of_str (rr_weight r))
         (get_default (rp_rules d) []) ->
       exists n', Policy_init float_of_str nid d n = Ok (p, n')) /\
    ((exists x, doc = Raise x) \/
     (exists d, doc = Ok d /\
        ~ Forall (fun r => opt_numeric float_of_str (rr_weight r))
            (get_default (rp_rules d) [])) ->
     p = bootstrap_policy).
Proof.
  unfold load_or_default. destruct doc as [d|x]; cbn [mbind res_bind].
  - pose proof (Policy_init_returns d n) as Hr.
    destruct (Policy_init float_of_str nid d n) as [[p m]|y] eqn:Hp.
    + exists p. split; [done|]. split.
      * intros d' [= <-] _. rewrite Hp. by exists m.
      * intros [[y [=]]|(d' & [= <-] & Hn)]. destruct Hn. apply Hr. by eexists.
    + rewrite Policy_init_bootstrap. cbn. exists bootstrap_policy. split; [done|].
      split; [|done]. intros d' [= <-] Hw. apply Hr in Hw as [? [=]].
  - rewrite Policy_init_bootstrap. cbn. exists bootstrap_policy. split; [done|].
    split; [|done]. by intros d [=].
Qed.

End LoaderProps.

(** ** The command [report]: properties *)

Section ReportCommand.

Variable float_of_str : string -> option float.
Variable py_sum : list float -> float.
Variable int_of_str : string -> option Z.
Variable nid : nat -> string.
Variable now : nat -> Z.

(** X22: for data files of the shapes of the data model (ids, types and
    the asset of an event are strings, tags and labels are lists of
    strings, as [RawAsset] and [RawEvent] have them): when the policy
    file cannot be read, the command [report] succeeds as soon as the two
    loads do (for fewer than [2^53] events).  It evaluates under the
    built-in policy and exports a report that carries the time read after
    the loads and, as details, the results of the evaluation, at most one
    for each event of the file.  A file with another JSON value in tags,
    labels or asset loads as well and can make the evaluation raise
    [TypeError]; this statement does not cover it. *)
Theorem cmd_report_default adoc edoc x n t store n1 es n2 t1 :
  AssetStore_load_json float_of_str nid adoc ∅ n = Ok (store, n1) ->
  EventStore_load float_of_str int_of_str nid now edoc [] n1 t = Ok (es, n2, t1) ->
  Z.of_nat (length edoc) < 2 ^ 53 ->
  exists eng rep,
    evaluate float_of_str (RiskEngine_init store es bootstrap_policy) = Ok eng /\
    cmd_report float_of_str py_sum int_of_str nid now adoc edoc (Raise x) n t = Ok rep /\
    generated_at rep = now t1 /\
    details rep = results eng /\
    (length (details rep) <= length edoc)%nat.
Proof.
  intros Ha He Hlen.
  assert (store_numeric float_of_str store) as Hsn.
  { apply (AssetStore_load_json_numeric float_of_str nid _ _ _ _ _ Ha).
    intros k a Hk. by rewrite lookup_empty in Hk. }
  assert (events_numeric float_of_str es) as Hen.
  { eapply (EventStore_load_numeric float_of_str int_of_str nid now); [exact He|constructor]. }
  pose proof (EventStore_load_length float_of_str int_of_str nid now _ _ _ _ _ _ _ He) as Hes. cbn [length] in Hes.
  destruct (score_events_returns float_of_str store bootstrap_policy es
              (bootstrap_policy_numeric float_of_str) Hsn Hen) as [batch Hb].
  pose proof (score_events_length float_of_str _ _ _ _ Hb) as Hbl.
  set (eng := mkEngine store es bootstrap_policy batch (record_scores batch [])).
  assert (evaluate float_of_str (RiskEngine_init store es bootstrap_policy) = Ok eng)
    as Hev.
  { unfold evaluate. rewrite evaluate_loop_batch.
    cbn [assets policy events results by_asset RiskEngine_init]. by rewrite Hb. }
  assert (evaluated float_of_str eng) as Hevd.
  { exact (evaluated_call float_of_str _ _ (evaluated_init float_of_str _ _ _) Hev). }
  destruct (evaluated_aggregate_returns float_of_str py_sum eng Hevd) as (agg & Hagg & _).
  { cbn [results eng]. lia. }
  exists eng. eexists. split; [exact Hev|]. split.
  - unfold cmd_report. rewrite Ha. cbn [mbind res_bind]. rewrite He.
    cbn [mbind res_bind load_or_default]. rewrite (Policy_init_bootstrap float_of_str nid).
    cbn [mbind res_bind]. rewrite Hev. cbn [mbind res_bind].
    unfold export_report. rewrite Hagg. cbn [mbind res_bind]. reflexivity.
  - cbn [generated_at details results eng]. split; [done|]. split; [done|]. lia.
Qed.

End ReportCommand.

(** ** Queries, command-line pairs and the table: properties *)

Lemma filter_loop_spec es q out :
  filter_loop es q out = out ++ List.filter (fun e => negb (skipped q e)) es.
Proof.
  revert out. induction es as [|e es IH]; intros out; cbn [filter_loop List.filter].
  - by rewrite app_nil_r.
  - destruct (skipped q e); cbn [negb]; rewrite IH; [done|].
    by rewrite <- app_assoc.
Qed.

Lemma filter_sublist {A} (f : A -> bool) l : List.filter f l `sublist_of` l.
Proof.
  induction l as [|x l IH]; cbn; [constructor|].
  destruct (f x); by constructor.
Qed.

Lemma filter_twice {A} (f g : A -> bool) l :
  List.filter f (List.filter g l) = List.filter g (List.filter f l).
Proof.
  induction l as [|x l IH]; [done|]. cbn [List.filter].
  destruct (g x) eqn:Hg, (f x) eqn:Hf; cbn [List.filter];
    rewrite ?Hg, ?Hf, IH; done.
Qed.

Lemma filter_again {A} (f : A -> bool) l :
  List.filter f (List.filter f l) = List.filter f l.
Proof.
  induction l as [|x l IH]; [done|]. cbn [List.filter].
  destruct (f x) eqn:Hf; cbn [List.filter]; rewrite ?Hf, IH; done.
Qed.

Lemma opt_eqb_eq x s : opt_eqb x s = true <-> x = Some s.
Proof.
  destruct x as [y|]; cbn; [|done]. rewrite String.eqb_eq.
  split; [by intros ->|by intros [= ->]].
Qed.

Lemma kept_iff q e :
  skipped q e = false <->
  (forall et, criterion (q_type q) = Some et -> ev_type e = Some et) /\
  (forall lab, criterion (q_label q) = Some lab -> lab ∈ ev_labels e) /\
  (forall aid, criterion (q_asset q) = Some aid -> ev_asset e = Some aid).
Proof.
  unfold skipped. rewrite !orb_false_iff.
  assert (forall (c : option string) (f : string -> bool) (P : string -> Prop),
            (forall s, f s = true <-> P s) ->
            (match c with Some s => negb (f s) | None => false end = false <->
             forall s, c = Some s -> P s)) as Hc.
  { intros c f P Hf. destruct c as [s|].
    - rewrite negb_false_iff, Hf. split; [by intros ? ? [= <-]|by intros H; apply H].
    - split; [by intros _ ? [=]|done]. }
  rewrite (Hc _ (opt_eqb (ev_type e)) (fun s => ev_type e = Some s)) by apply opt_eqb_eq.
  rewrite (Hc _ (fun s => in_list s (ev_labels e)) (fun s => s ∈ ev_labels e))
    by (intros s; apply in_list_elem_of).
  rewrite (Hc _ (opt_eqb (ev_asset e)) (fun s => ev_asset e = Some s)) by apply opt_eqb_eq.
  tauto.
Qed.

(** X18: [filter_events] with a query keeps the events that satisfy every
    criterion that counts (a non-empty string) and no others, in the
    order they had: the type and the asset are equal to the criterion,
    the label is among the labels of the event. *)
Theorem filter_events_selects es q :
  filter_events es (Some q) `sublist_of` es /\
  forall e, e ∈ filter_events es (Some q) <->
    e ∈ es /\
    (forall et, criterion (q_type q) = Some et -> ev_type e = Some et) /\
    (forall lab, criterion (q_label q) = Some lab -> lab ∈ ev_labels e) /\
    (forall aid, criterion (q_asset q) = Some aid -> ev_asset e = Some aid).
Proof.
  cbn [filter_events]. rewrite filter_loop_spec. cbn [app]. split.
  - apply filter_sublist.
  - intros e. rewrite list_elem_of_In, filter_In, <- list_elem_of_In, negb_true_iff.
    by rewrite kept_iff.
Qed.

(** X19: filtering twice by the same query changes nothing more, two queries
    can be applied in either order, and a query none of whose criteria
    counts (each is absent or the empty string) keeps every event. *)
Theorem filter_events_idempotent es q q' :
  filter_events (filter_events es q) q = filter_events es q /\
  filter_events (filter_events es q) q' = filter_events (filter_events es q') q /\
  (forall c, criterion (q_type c) = None -> criterion (q_label c) = None ->
             criterion (q_asset c) = None -> filter_events es (Some c) = es).
Proof.
  split; [|split].
  - destruct q as [c|]; [|done]. cbn [filter_events].
    rewrite !filter_loop_spec. cbn [app]. apply filter_again.
  - destruct q as [c|], q' as [c'|]; cbn [filter_events]; try done.
    rewrite !filter_loop_spec. cbn [app]. apply filter_twice.
  - intros c Ht Hl Ha. cbn [filter_events]. rewrite filter_loop_spec. cbn [app].
    induction es as [|e es IH]; [done|]. cbn [List.filter].
    unfold skipped at 1. rewrite Ht, Hl, Ha. cbn. by rewrite IH.
Qed.

(** *** Command-line pairs *)

Lemma split_eq_spec v k x :
  split_eq v = Some (k, x) <-> v = String.append k (String "=" x) /\ split_eq k = None.
Proof.
  revert k. induction v as [|c v IH]; intros k; cbn [split_eq].
  - split; [done|]. intros [H _]. by destruct k.
  - destruct (Ascii.eqb_spec c "=") as [->|Hc].
    + split.
      * by intros [= <- <-].
      * intros [H Hk]. destruct k as [|c' k]; [by injection H as ->|].
        injection H as <- _. cbn [split_eq] in Hk. by rewrite Ascii.eqb_refl in Hk.
    + destruct (split_eq v) as [[k' x']|] eqn:Hv.
      * split.
        -- intros [= <- <-]. destruct (proj1 (IH k')) as [-> Hk']; [done|].
           split; [done|]. cbn [split_eq].
           destruct (Ascii.eqb_spec c "="); [done|]. by rewrite Hk'.
        -- intros [H Hk]. destruct k as [|c' k]; [by injection H as -> _|].
           injection H as <- ->. cbn [split_eq] in Hk.
           destruct (Ascii.eqb_spec c "="); [done|].
           destruct (split_eq k) eqn:Hkk; [by destruct p|].
           assert (Some (k', x') = Some (k, x)) as [= -> ->]; [|done].
           apply IH. done.
      * split; [done|]. intros [H Hk]. destruct k as [|c' k]; [by injection H as -> _|].
        injection H as <- ->. cbn [split_eq] in Hk.
        destruct (Ascii.eqb_spec c "="); [done|].
        destruct (split_eq k) eqn:Hkk; [by destruct p|].
        assert (None = Some (k, x)) as [=]. apply IH. done.
Qed.

Section Pairs.

Variable strip : string -> string.

Lemma read_cli_pairs_snoc values v :
  read_cli_pairs strip (values ++ [v]) =
  match split_eq v with
  | Some (k, x) => <[strip k := strip x]> (read_cli_pairs strip values)
  | None => read_cli_pairs strip values
  end.
Proof. unfold read_cli_pairs. by rewrite fold_left_app. Qed.

Lemma snoc_split {A} (values l1 l2 : list A) w v :
  values ++ [w] = l1 ++ v :: l2 ->
  (l2 = [] /\ values = l1 /\ w = v) \/
  (exists l2', l2 = l2' ++ [w] /\ values = l1 ++ v :: l2').
Proof.
  intros H. destruct (exists_last (l := v :: l2)) as (l & a & Hl); [done|].
  destruct l2 as [|b l2].
  - left. apply app_inj_tail in H as [-> ->]. done.
  - right. destruct (exists_last (l := b :: l2)) as (l2' & a' & Hl2); [done|].
    rewrite Hl2 in H |- *. rewrite app_comm_cons, app_assoc in H.
    apply app_inj_tail in H as [-> ->]. by exists l2'.
Qed.

(** X20: [read_cli_pairs]: an argument without ['='] is ignored; an argument
    is split at its first ['='], and key and value are stripped; when a
    key is given more than once the last argument wins. *)
Theorem read_cli_pairs_last_wins values key val :
  (read_cli_pairs strip values !! key = Some val <->
   exists l1 v l2 k x,
     values = l1 ++ v :: l2 /\
     split_eq v = Some (k, x) /\ strip k = key /\ strip x = val /\
     Forall (fun v' => forall k' x', split_eq v' = Some (k', x') -> strip k' <> key) l2) /\
  (forall v k x, split_eq v = Some (k, x) <->
     v = String.append k (String "=" x) /\ split_eq k = None).
Proof.
  split; [|apply split_eq_spec].
  revert val. induction values as [|w values IH] using rev_ind; intros val.
  - unfold read_cli_pairs. cbn [fold_left]. rewrite lookup_empty. split; [done|].
    intros (l1 & v & l2 & k & x & H & _). by destruct l1.
  - rewrite read_cli_pairs_snoc.
    assert (forall m : gmap string string,
              (forall k x, split_eq w = Some (k, x) -> strip k <> key) ->
              (m !! key = Some val <-> read_cli_pairs strip values !! key = Some val) ->
              (m !! key = Some val <->
               exists l1 v l2 k x,
                 values ++ [w] = l1 ++ v :: l2 /\
                 split_eq v = Some (k, x) /\ strip k = key /\ strip x = val /\
                 Forall (fun v' => forall k' x', split_eq v' = Some (k', x') ->
                                                 strip k' <> key) l2)) as Hother.
    { intros m Hw ->. rewrite IH. split.
      - intros (l1 & v & l2 & k & x & -> & Hv & Hk & Hx & Hall).
        exists l1, v, (l2 ++ [w]), k, x. rewrite <- app_assoc. split; [done|].
        repeat split; try done. apply Forall_app. split; [done|]. by constructor.
      - intros (l1 & v & l2 & k & x & Heq & Hv & Hk & Hx & Hall).
        apply snoc_split in Heq as [(-> & -> & ->)|(l2' & -> & ->)].
        + by destruct (Hw _ _ Hv).
        + apply Forall_app in Hall as [Hall _]. by exists l1, v, l2', k, x. }
    destruct (split_eq w) as [[k x]|] eqn:Hw.
    + destruct (decide (strip k = key)) as [Hk|Hk].
      * rewrite <- Hk, lookup_insert_eq. split.
        -- intros [= <-]. exists values, w, [], k, x. by repeat split.
        -- intros (l1 & v & l2 & k0 & x0 & Heq & Hv & Hk0 & Hx0 & Hall).
           apply snoc_split in Heq as [(-> & -> & ->)|(l2' & -> & ->)].
           ++ rewrite Hw in Hv. by injection Hv as <- <-; rewrite Hx0.
           ++ apply Forall_app in Hall as [_ Hall].
              apply Forall_inv in Hall. by destruct (Hall _ _ Hw).
      * apply Hother.
        -- by intros k' x' [= <- <-].
        -- by rewrite lookup_insert_ne.
    + apply Hother; [by intros k' x' [=]|done].
Qed.

End Pairs.

(** *** The table *)

Lemma length_append s t :
  String.length (String.append s t) = (String.length s + String.length t)%nat.
Proof. induction s as [|c s IH]; simpl; [done|]. by rewrite IH. Qed.

Lemma length_repeat_string c n : String.length (repeat_string c n) = n.
Proof. induction n as [|n IH]; simpl; [done|]. by rewrite IH. Qed.

Lemma length_ljust s w : String.length (ljust s w) = Nat.max (String.length s) w.
Proof. unfold ljust. rewrite length_append, length_repeat_string. lia. Qed.

Lemma length_join sep l :
  String.length (join sep l) =
  (list_sum (map String.length l) + String.length sep * (length l - 1))%nat.
Proof.
  destruct l as [|x rest]; [simpl; lia|]. cbn [join].
  assert (forall acc,
            String.length
              (fold_left (fun acc y => String.append acc (String.append sep y)) rest acc)
            = (String.length acc + list_sum (map String.length rest)
               + String.length sep * length rest)%nat) as H.
  { induction rest as [|y rest IH]; intros acc.
    - simpl. lia.
    - cbn [fold_left]. rewrite IH, !length_append. simpl. lia. }
  rewrite H. simpl. lia.
Qed.

Lemma list_sum_lengths (ls : list string) W :
  (forall l, l ∈ ls -> String.length l = W) ->
  list_sum (map String.length ls) = (length ls * W)%nat.
Proof.
  induction ls as [|l ls IH]; intros H; [done|].
  change (list_sum (map String.length (l :: ls)))
    with (String.length l + list_sum (map String.length ls))%nat.
  rewrite IH, (H l).
  - simpl. lia.
  - left.
  - intros l' Hl. apply H. by right.
Qed.

Section Table.

Variable py_str : pyval -> string.

Lemma width_at_insert w j x i :
  width_at (<[j := x]> w) i =
  if decide (j = i /\ (j < length w)%nat) then x else width_at w i.
Proof.
  unfold width_at. rewrite list_lookup_insert.
  by destruct (decide (j = i /\ (j < length w)%nat)).
Qed.

Lemma widen_fold_length r ics w :
  length (fold_left
            (fun w ic => <[fst ic := Nat.max (width_at w (fst ic))
                                       (String.length (cell py_str r (snd ic)))]> w)
            ics w) = length w.
Proof.
  revert w. induction ics as [|ic ics IH]; intros w; cbn [fold_left]; [done|].
  by rewrite IH, length_insert.
Qed.

Lemma widen_fold_mono r ics w i :
  (width_at w i <=
   width_at (fold_left
               (fun w ic => <[fst ic := Nat.max (width_at w (fst ic))
                                          (String.length (cell py_str r (snd ic)))]> w)
               ics w) i)%nat.
Proof.
  revert w. induction ics as [|ic ics IH]; intros w; cbn [fold_left]; [done|].
  etrans; [|apply IH]. rewrite width_at_insert.
  destruct (decide _) as [[-> _]|_]; lia.
Qed.

Lemma widen_fold_covers r ics w i c :
  (i, c) ∈ ics -> (i < length w)%nat ->
  (String.length (cell py_str r c) <=
   width_at (fold_left
               (fun w ic => <[fst ic := Nat.max (width_at w (fst ic))
                                          (String.length (cell py_str r (snd ic)))]> w)
               ics w) i)%nat.
Proof.
  revert w. induction ics as [|ic ics IH]; intros w Hin Hi; cbn [fold_left].
  - by apply elem_of_nil in Hin.
  - apply elem_of_cons in Hin as [<-|Hin].
    + etrans; [|apply widen_fold_mono]. rewrite width_at_insert. cbn [fst snd].
      destruct (decide _) as [_|Hn]; [lia|]. destruct Hn. done.
    + apply IH; [done|]. by rewrite length_insert.
Qed.

Lemma widen_length cols w r : length (widen py_str cols w r) = length w.
Proof. apply widen_fold_length. Qed.

Lemma widen_mono cols w r i : (width_at w i <= width_at (widen py_str cols w r) i)%nat.
Proof. apply widen_fold_mono. Qed.

Lemma widen_covers cols w r i c :
  cols !! i = Some c -> (i < length w)%nat ->
  (String.length (cell py_str r c) <= width_at (widen py_str cols w r) i)%nat.
Proof.
  intros Hc Hi. apply widen_fold_covers; [|done].
  apply list_elem_of_lookup. exists i. rewrite list_lookup_imap, Hc. done.
Qed.

Lemma widths_fold_length cols rows w :
  length (fold_left (widen py_str cols) rows w) = length w.
Proof.
  revert w. induction rows as [|r rows IH]; intros w; cbn [fold_left]; [done|].
  by rewrite IH, widen_length.
Qed.

Lemma widths_fold_mono cols rows w i :
  (width_at w i <= width_at (fold_left (widen py_str cols) rows w) i)%nat.
Proof.
  revert w. induction rows as [|r rows IH]; intros w; cbn [fold_left]; [done|].
  etrans; [apply (widen_mono cols w r)|apply IH].
Qed.

Lemma widths_fold_covers cols rows w r i c :
  r ∈ rows -> cols !! i = Some c -> (i < length w)%nat ->
  (String.length (cell py_str r c) <=
   width_at (fold_left (widen py_str cols) rows w) i)%nat.
Proof.
  revert w. induction rows as [|r' rows IH]; intros w Hr Hc Hi; cbn [fold_left].
  - by apply elem_of_nil in Hr.
  - apply elem_of_cons in Hr as [<-|Hr].
    + etrans; [by apply widen_covers|apply widths_fold_mono].
    + apply IH; [done|done|]. by rewrite widen_length.
Qed.

Lemma widths_length rows cols : length (widths py_str rows cols) = length cols.
Proof. unfold widths. by rewrite widths_fold_length, length_map. Qed.

Lemma padded_lengths (g : string -> string) w cols :
  length w = length cols ->
  (forall i c, cols !! i = Some c -> (String.length (g c) <= width_at w i)%nat) ->
  map String.length (imap (fun i c => ljust (g c) (width_at w i)) cols) = w.
Proof.
  intros Hl Hg. apply list_eq. intros i.
  change (map String.length ?l) with (String.length <$> l).
  rewrite list_lookup_fmap, list_lookup_imap.
  destruct (cols !! i) as [c|] eqn:Hc; cbn.
  - rewrite length_ljust. specialize (Hg i c Hc). unfold width_at in *.
    apply lookup_lt_Some in Hc. rewrite <- Hl in Hc.
    apply lookup_lt_is_Some in Hc as [x Hx]. rewrite Hx in Hg |- *. cbn in *.
    f_equal. lia.
  - apply lookup_ge_None in Hc. rewrite <- Hl in Hc.
    symmetry. by apply lookup_ge_None.
Qed.

Lemma rule_lengths w n :
  length w = n ->
  map String.length (map (fun i => repeat_string "-" (width_at w i)) (seq 0 n)) = w.
Proof.
  intros Hl. apply list_eq. intros i.
  change (map String.length (map ?f ?l)) with (String.length <$> (f <$> l)).
  rewrite !list_lookup_fmap.
  destruct (decide (i < n)%nat) as [Hi|Hi].
  - rewrite lookup_seq_lt by done. cbn. rewrite length_repeat_string.
    unfold width_at. rewrite <- Hl in Hi.
    apply lookup_lt_is_Some in Hi as [x Hx]. by rewrite Hx.
  - rewrite lookup_seq_ge by lia. cbn. symmetry. apply lookup_ge_None. lia.
Qed.

(** X21: the table is aligned: [fmt_table] makes a header, a rule and one line
    for each row, and all these lines have the same length, the sum of
    the column widths and one separator between two columns; each width
    is at least the length of the column's name and of every cell of the
    column. *)
Theorem fmt_table_aligned rows cols :
  length (fmt_lines py_str rows cols) = (2 + length rows)%nat /\
  length (widths py_str rows cols) = length cols /\
  (forall line, line ∈ fmt_lines py_str rows cols ->
     String.length line =
     (list_sum (widths py_str rows cols) + (length cols - 1))%nat) /\
  (forall i c, cols !! i = Some c ->
     (String.length c <= width_at (widths py_str rows cols) i)%nat /\
     forall r, r ∈ rows ->
       (String.length (cell py_str r c) <= width_at (widths py_str rows cols) i)%nat) /\
  String.length (fmt_table py_str rows cols) =
  ((2 + length rows) * (list_sum (widths py_str rows cols) + (length cols - 1) + 1) - 1)%nat.
Proof.
  assert (forall i c, cols !! i = Some c ->
     (String.length c <= width_at (widths py_str rows cols) i)%nat /\
     forall r, r ∈ rows ->
       (String.length (cell py_str r c) <= width_at (widths py_str rows cols) i)%nat)
    as Hw.
  { intros i c Hc. unfold widths. split.
    - etrans; [|apply widths_fold_mono]. unfold width_at.
      change (map String.length cols) with (String.length <$> cols).
      by rewrite list_lookup_fmap, Hc.
    - intros r Hr. apply widths_fold_covers; [done|done|].
      rewrite length_map. by apply lookup_lt_Some in Hc. }
  assert (forall line, line ∈ fmt_lines py_str rows cols ->
     String.length line =
     (list_sum (widths py_str rows cols) + (length cols - 1))%nat) as Hlines.
  { intros line Hin. unfold fmt_lines in Hin. cbn zeta in Hin.
    cbn [app] in Hin.
    apply elem_of_cons in Hin as [->|Hin]; [|apply elem_of_cons in Hin as [->|Hin]].
    - rewrite length_join, (padded_lengths (fun c => c)), length_imap.
      + simpl. lia.
      + apply widths_length.
      + intros i c Hc. by apply Hw.
    - rewrite length_join, rule_lengths, length_map, length_seq.
      + simpl. lia.
      + apply widths_length.
    - apply list_elem_of_fmap in Hin as (r & -> & Hr).
      rewrite length_join, (padded_lengths (cell py_str r)), length_imap.
      + simpl. lia.
      + apply widths_length.
      + intros i c Hc. by apply Hw. }
  assert (length (fmt_lines py_str rows cols) = (2 + length rows)%nat) as Hn.
  { unfold fmt_lines. cbn zeta. rewrite length_app, length_map. done. }
  split; [done|]. split; [apply widths_length|]. split; [done|]. split; [done|].
  unfold fmt_table. rewrite length_join, Hn.
  set (W := (list_sum (widths py_str rows cols) + (length cols - 1))%nat) in *.
  assert (list_sum (map String.length (fmt_lines py_str rows cols)) =
          (length (fmt_lines py_str rows cols) * W)%nat) as ->.
  { by apply list_sum_lengths. }
  rewrite Hn. simpl. lia.
Qed.

End Table.


(** * Closed instances *)

(** C1, as stated, fails: the second call on the scenario engine leaves
    two results where the first left one. *)
Lemma evaluate_twice_differs :
  exists eng1 eng2,
    evaluate no_literal scenario_engine = Ok eng1 /\
    evaluate no_literal eng1 = Ok eng2 /\
    length (results eng1) = 1%nat /\
    length (results eng2) = 2%nat /\
    results eng2 <> results eng1.
Proof.
  eexists. eexists. split; [vm_compute; reflexivity|].
  split; [vm_compute; reflexivity|].
  split; [reflexivity|]. split; [reflexivity|].
  intros H. apply (f_equal length) in H. discriminate H.
Qed.

Lemma evaluate_twice_appends_witness :
  exists eng1 batch eng2,
    evaluate no_literal scenario_engine = Ok eng1 /\
    score_events no_literal (assets scenario_engine) (policy scenario_engine)
      (events scenario_engine) = Ok batch /\
    results eng1 = results scenario_engine ++ batch /\
    by_asset eng1 = record_scores batch (by_asset scenario_engine) /\
    evaluate no_literal eng1 = Ok eng2 /\
    results eng2 = results eng1 ++ batch /\
    by_asset eng2 = record_scores batch (by_asset eng1).
Proof.
  destruct (evaluate no_literal scenario_engine) as [eng1|x] eqn:H;
    [|vm_compute in H; discriminate H].
  destruct (evaluate_twice_appends no_literal scenario_engine eng1 H)
    as (batch & eng2 & Hw).
  exists eng1, batch, eng2. split; [reflexivity|exact Hw].
Defined.

Lemma Rule_score_raises_on_text_witness :
  to_num no_literal (PyStr "high") f0 = f0 /\
  Rule_match no_literal severity_rule srv_1 e_text =
    Rule_match no_literal severity_rule srv_1 (with_severity e_text (PyFloat f0)) /\
  exists x, Rule_score no_literal severity_rule srv_1 e_text = Raise x.
Proof.
  destruct (Rule_score_raises_on_text no_literal severity_rule srv_1 e_text "high")
    as (Hnum & Hmatch & Hscore).
  - reflexivity.
  - left. reflexivity.
  - split; [exact Hnum|]. split; [apply Hmatch; reflexivity|exact Hscore].
Defined.

Lemma Rule_score_nonneg_witness :
  exists v,
    Rule_score no_literal negative_rule srv_1 e1 = Ok v /\ fle f0 v = true /\
    bonus_total no_literal negative_rule srv_1 e1 = Z2f (-40).
Proof.
  destruct (Rule_score_nonneg no_literal negative_rule srv_1 e1)
    as (b & sev & crit & ms & mc & _ & _ & _ & _ & _ & Hs & Hle & _).
  - unfold score_inputs_numeric, opt_numeric, bonus_numeric, returns; simpl.
    repeat split; try (eexists; reflexivity).
    repeat constructor; eexists; reflexivity.
  - eexists. split; [exact Hs|]. split; [exact Hle|]. vm_compute. reflexivity.
Defined.

Lemma scenario_evaluated :
  exists eng,
    evaluate no_literal scenario_engine = Ok eng /\ evaluated no_literal eng.
Proof.
  destruct (evaluate no_literal scenario_engine) as [eng|x] eqn:H;
    [|vm_compute in H; discriminate H].
  exists eng. split; [reflexivity|].
  exact (evaluated_call no_literal scenario_engine eng
           (evaluated_init no_literal _ _ _) H).
Defined.

Lemma result_score_is_sum_of_applied_witness :
  exists eng,
    evaluate no_literal scenario_engine = Ok eng /\
    forall r, r ∈ results eng ->
      sr_score r = fold_left fadd (map ap_score (sr_applied r)) f0 /\
      Forall (fun x => feq (ap_score x) f0 = false) (sr_applied r) /\
      map (fun x => (ap_rule x, ap_name x)) (sr_applied r)
        `sublist_of` map (fun r => (rule_id r, rule_name r)) (rules (policy eng)).
Proof.
  destruct scenario_evaluated as (eng & H & Hev).
  exists eng. split; [exact H|].
  exact (result_score_is_sum_of_applied no_literal eng Hev).
Defined.

(** C7, as stated, fails: with bases 1e16, 1, 1 the total is 1e16 when
    the large rule comes first and 1e16 + 2 when it comes last. *)
Lemma total_depends_on_rule_order :
  Permutation big_first big_last /\
  exists applied1 applied2,
    apply_rules no_literal big_first srv_1 e1 f0 [] = Ok (Z2f (10 ^ 16), applied1) /\
    apply_rules no_literal big_last srv_1 e1 f0 [] = Ok (Z2f (10 ^ 16 + 2), applied2) /\
    feq (Z2f (10 ^ 16)) (Z2f (10 ^ 16 + 2)) = false.
Proof.
  split.
  - unfold big_first, big_last.
    rewrite (Permutation_cons_append [always "one" 1; always "uno" 1] (always "big" (10 ^ 16))).
    reflexivity.
  - eexists. eexists. split; [vm_compute; reflexivity|].
    split; [vm_compute; reflexivity|]. vm_compute. reflexivity.
Qed.

Lemma rule_order_permutes_applied_witness :
  exists total' applied',
    apply_rules no_literal (rev (rules bootstrap_policy)) srv_1 e1 f0 []
      = Ok (total', applied') /\
    Permutation
      [mkApplied "sev-asset" "Severity and criticality" (Z2f 93);
       mkApplied "label-bonus" "Label bonus" (Z2f 40);
       mkApplied "tag-bonus" "Asset tag bonus" (Z2f 55)] applied' /\
    Z2f 188 =
      fold_left fadd
        (map ap_score
           [mkApplied "sev-asset" "Severity and criticality" (Z2f 93);
            mkApplied "label-bonus" "Label bonus" (Z2f 40);
            mkApplied "tag-bonus" "Asset tag bonus" (Z2f 55)]) f0 /\
    total' = fold_left fadd (map ap_score applied') f0.
Proof.
  destruct (rule_order_permutes_applied no_literal
              (rules bootstrap_policy) (rev (rules bootstrap_policy)) srv_1 e1
              (Z2f 188)
              [mkApplied "sev-asset" "Severity and criticality" (Z2f 93);
               mkApplied "label-bonus" "Label bonus" (Z2f 40);
               mkApplied "tag-bonus" "Asset tag bonus" (Z2f 55)])
    as (total' & applied' & H1 & H2 & H3 & H4 & _).
  - apply Permutation_rev.
  - vm_compute. reflexivity.
  - exists total', applied'. repeat split; assumption.
Defined.

Lemma export_summary_sorted_witness :
  exists rep,
    export_report sum_left 0 sorting_engine sorting_store = Ok rep /\
    map row_asset (summary rep) = ["A"; "B"] /\
    StronglySorted summary_order (summary rep).
Proof.
  destruct (export_report sum_left 0 sorting_engine sorting_store) as [rep|x] eqn:H;
    [|vm_compute in H; discriminate H].
  exists rep. split; [reflexivity|].
  assert (summary rep = [row_A; row_B]) as Hrows.
  { vm_compute in H. injection H as <-. vm_compute. reflexivity. }
  split; [rewrite Hrows; reflexivity|].
  apply (export_summary_sorted sum_left 0 sorting_engine sorting_store rep H).
  rewrite Hrows. repeat constructor.
Defined.

Lemma percentile_linear_interpolation_witness :
  percentile [Z2f 4; Z2f 1; Z2f 3; Z2f 2] (PyFloat (Z2f 50)) =
    Ok (percentile_formula [Z2f 4; Z2f 1; Z2f 3; Z2f 2] (Z2f 50)) /\
  percentile_formula [Z2f 4; Z2f 1; Z2f 3; Z2f 2] (Z2f 50) = dec 25 10.
Proof.
  split; [|vm_compute; reflexivity].
  apply (percentile_linear_interpolation [Z2f 4; Z2f 1; Z2f 3; Z2f 2] (PyFloat (Z2f 50))).
  - vm_compute. discriminate.
  - repeat constructor.
  - vm_compute. reflexivity.
Defined.

Lemma aggregate_keys_witness :
  exists agg,
    aggregate sum_left sorting_engine = Ok agg /\
    map fst agg = ["B"; "A"] /\
    NoDup (map fst agg) /\
    (forall aid, aid ∈ map fst agg <-> aid ∈ map sr_asset (results sorting_engine)).
Proof.
  destruct (aggregate_keys no_literal sum_left sorting_engine)
    as (agg & Hagg & Hnd & Hkeys & _).
  - apply (evaluated_call no_literal
             (RiskEngine_init sorting_store sorting_events times_ten)).
    + apply evaluated_init.
    + vm_compute. reflexivity.
  - vm_compute. reflexivity.
  - exists agg. split; [exact Hagg|]. split; [|split; [exact Hnd|exact Hkeys]].
    assert (aggregate sum_left sorting_engine <> Raise TypeError /\
            match aggregate sum_left sorting_engine with
            | Ok a => map fst a = ["B"; "A"]
            | Raise _ => True
            end) as [_ H] by (vm_compute; split; [discriminate|reflexivity]).
    rewrite Hagg in H. exact H.
Defined.

Lemma unknown_asset_skipped_witness :
  evaluate_event no_literal e_ghost scenario_engine = Ok scenario_engine /\
  evaluate_loop no_literal [e_ghost; e1] scenario_engine
  = evaluate_loop no_literal [e1] scenario_engine.
Proof.
  destruct (unknown_asset_skipped no_literal) as (Hskip & Hfilter & _).
  split.
  - apply Hskip. reflexivity.
  - rewrite Hfilter. reflexivity.
Defined.

Lemma Rule_match_empty_when_witness :
  Rule_match no_literal (always "one" 1) srv_1 e1 = Ok true.
Proof. apply (Rule_match_empty_when no_literal (always "one" 1) srv_1 e1). reflexivity. Defined.

(** The engine of the sorting scenario is reached by one call of
    [evaluate]. *)
Lemma sorting_evaluated : evaluated no_literal sorting_engine.
Proof.
  apply (evaluated_call no_literal
           (RiskEngine_init sorting_store sorting_events times_ten)).
  - apply evaluated_init.
  - vm_compute. reflexivity.
Defined.

Lemma scenario_store_numeric : store_numeric no_literal (assets scenario_engine).
Proof.
  intros k a H. cbn [assets scenario_engine RiskEngine_init] in H.
  unfold AssetStore_put in H. apply lookup_insert_Some in H as [[_ <-]|[_ H]].
  - cbn. eexists. reflexivity.
  - rewrite lookup_empty in H. discriminate H.
Defined.

Lemma zero_weight_rule_never_applied_witness :
  Rule_score no_literal zero_rule srv_1 e1 = Ok f0 /\
  forall rs total applied,
    apply_rules no_literal (zero_rule :: rs) srv_1 e1 total applied =
    apply_rules no_literal rs srv_1 e1 total applied.
Proof.
  apply (zero_weight_rule_never_applied no_literal zero_rule srv_1 e1).
  - unfold score_inputs_numeric, opt_numeric, bonus_numeric, returns; simpl.
    repeat split; eexists; reflexivity.
  - exact I.
  - reflexivity.
Defined.

Lemma empty_calc_rule_never_applied_witness :
  Rule_score no_literal bare_rule srv_1 e1 = Ok f0 /\
  forall rs total applied,
    apply_rules no_literal (bare_rule :: rs) srv_1 e1 total applied =
    apply_rules no_literal rs srv_1 e1 total applied.
Proof.
  apply (empty_calc_rule_never_applied no_literal bare_rule srv_1 e1).
  - reflexivity.
  - simpl. eexists. reflexivity.
  - simpl. eexists. reflexivity.
  - exact I.
Defined.

Lemma evaluate_never_raises_witness : returns (evaluate no_literal scenario_engine).
Proof.
  apply (evaluate_never_raises no_literal scenario_engine).
  - apply bootstrap_policy_numeric.
  - apply scenario_store_numeric.
  - repeat constructor. simpl. eexists. reflexivity.
Defined.

Lemma evaluate_results_follow_events_witness :
  exists eng' batch,
    evaluate no_literal scenario_engine = Ok eng' /\
    results eng' = results scenario_engine ++ batch /\
    map sr_event batch = ["e1"] /\
    map sr_ts batch = [0].
Proof.
  destruct (evaluate no_literal scenario_engine) as [eng'|x] eqn:H;
    [|vm_compute in H; discriminate H].
  destruct (evaluate_results_follow_events no_literal scenario_engine eng' H)
    as (batch & Hr & Hid & Hts & _).
  exists eng', batch. split; [reflexivity|]. split; [exact Hr|].
  split; [exact Hid|exact Hts].
Defined.

Lemma result_scores_nonneg_witness :
  exists eng,
    evaluate no_literal scenario_engine = Ok eng /\
    forall r, r ∈ results eng ->
      nonneg (sr_score r) = true /\ is_nan (sr_score r) = false /\
      fle f0 (sr_score r) = true.
Proof.
  destruct scenario_evaluated as (eng & H & Hev).
  exists eng. split; [exact H|].
  exact (proj1 (result_scores_nonneg no_literal eng Hev)).
Defined.

Lemma aggregate_counts_add_up_witness :
  exists agg,
    aggregate sum_left sorting_engine = Ok agg /\
    fold_right Z.add 0 (map (fun kv => agg_count (snd kv)) agg) =
    Z.of_nat (length (results sorting_engine)).
Proof.
  apply (aggregate_counts_add_up no_literal sum_left sorting_engine).
  - exact sorting_evaluated.
  - vm_compute. reflexivity.
Defined.

Lemma agg_max_is_greatest_witness :
  exists agg st,
    aggregate sum_left sorting_engine = Ok agg /\
    ("B", st) ∈ agg /\
    agg_max st ∈ scores_of "B" (results sorting_engine) /\
    forall v, v ∈ scores_of "B" (results sorting_engine) -> fle v (agg_max st) = true.
Proof.
  destruct (aggregate sum_left sorting_engine) as [agg|x] eqn:H;
    [|vm_compute in H; discriminate H].
  assert (exists st rest, agg = ("B", st) :: rest) as (st & rest & Hagg).
  { pose proof H as H'. vm_compute in H'. injection H' as <-.
    eexists. eexists. reflexivity. }
  assert (("B", st) ∈ agg) as Hin by (rewrite Hagg; left).
  exists agg, st. split; [reflexivity|]. split; [exact Hin|].
  exact (agg_max_is_greatest no_literal sum_left sorting_engine agg "B" st
           sorting_evaluated H Hin).
Defined.

Lemma percentile_extremes_witness :
  (exists lo, percentile [Z2f 4; Z2f 1; Z2f 3; Z2f 2] (PyInt 0) = Ok lo /\
     lo ∈ [Z2f 4; Z2f 1; Z2f 3; Z2f 2] /\
     forall v, v ∈ [Z2f 4; Z2f 1; Z2f 3; Z2f 2] -> fle lo v = true) /\
  (exists hi, percentile [Z2f 4; Z2f 1; Z2f 3; Z2f 2] (PyInt 100) = Ok hi /\
     hi ∈ [Z2f 4; Z2f 1; Z2f 3; Z2f 2] /\
     forall v, v ∈ [Z2f 4; Z2f 1; Z2f 3; Z2f 2] -> fle v hi = true).
Proof.
  apply (percentile_extremes [Z2f 4; Z2f 1; Z2f 3; Z2f 2]).
  - discriminate.
  - vm_compute. discriminate.
  - repeat constructor.
Defined.

Lemma export_report_rows_witness :
  exists rep,
    export_report sum_left 0 sorting_engine sorting_store = Ok rep /\
    generated_at rep = 0 /\
    details rep = results sorting_engine /\
    (store_keyed_by_id sorting_store ->
     NoDup (map row_asset (summary rep)) /\
     forall aid, aid ∈ map row_asset (summary rep) <->
                 aid ∈ map sr_asset (results sorting_engine)).
Proof.
  apply (export_report_rows no_literal sum_left 0 sorting_engine sorting_store).
  - exact sorting_evaluated.
  - vm_compute. reflexivity.
Defined.

Lemma AssetStore_load_lookup_witness :
  exists store' n',
    AssetStore_load_json no_literal sample_nid [raw_srv_1] ∅ 0 = Ok (store', n') /\
    store_keyed_by_id store' /\
    exists r, AssetStore_get store' (Some "srv-1") = Some r /\ as_id r = "srv-1" /\
              exists f, as_criticality r = Some (PyFloat f).
Proof.
  destruct (AssetStore_load_json no_literal sample_nid [raw_srv_1] ∅ 0)
    as [[store' n']|x] eqn:H; [|vm_compute in H; discriminate H].
  destruct (AssetStore_load_lookup no_literal sample_nid [raw_srv_1] ∅ 0 store' n' H)
    as (Hk & _ & _ & Hget).
  exists store', n'. split; [reflexivity|]. split.
  - apply Hk. intros k a Hl. rewrite lookup_empty in Hl. discriminate Hl.
  - apply (Hget raw_srv_1 "srv-1"); [left|reflexivity|discriminate].
Defined.

Lemma EventStore_load_appends_witness :
  exists events' n' t' new,
    EventStore_load no_literal no_int sample_nid sample_now [raw_e1] [e_ghost] 0 0
      = Ok (events', n', t') /\
    events' = [e_ghost] ++ new /\
    t' = 1%nat /\
    length new = 1%nat.
Proof.
  destruct (EventStore_load no_literal no_int sample_nid sample_now [raw_e1] [e_ghost] 0 0)
    as [[[events' n'] t']|x] eqn:H; [|vm_compute in H; discriminate H].
  destruct (EventStore_load_appends no_literal no_int sample_nid sample_now
              [raw_e1] [e_ghost] 0 0 events' n' t' H) as (new & Hev & Ht & Hall).
  exists events', n', t', new. split; [reflexivity|]. split; [exact Hev|].
  split; [exact Ht|]. apply Forall2_length in Hall. symmetry. exact Hall.
Defined.


Lemma cmd_report_default_witness :
  exists store n1 es n2 t1 eng rep,
    AssetStore_load_json no_literal sample_nid [raw_srv_1] ∅ 0 = Ok (store, n1) /\
    EventStore_load no_literal no_int sample_nid sample_now [raw_e1] [] n1 0
      = Ok (es, n2, t1) /\
    evaluate no_literal (RiskEngine_init store es bootstrap_policy) = Ok eng /\
    cmd_report no_literal sum_left no_int sample_nid sample_now
      [raw_srv_1] [raw_e1] (Raise ValueError) 0 0 = Ok rep /\
    generated_at rep = sample_now t1 /\
    details rep = results eng.
Proof.
  destruct (AssetStore_load_json no_literal sample_nid [raw_srv_1] ∅ 0)
    as [[store n1]|x] eqn:Ha; [|vm_compute in Ha; discriminate Ha].
  destruct (EventStore_load no_literal no_int sample_nid sample_now [raw_e1] [] n1 0)
    as [[[es n2] t1]|x] eqn:He; [|vm_compute in He; discriminate He].
  destruct (cmd_report_default no_literal sum_left no_int sample_nid sample_now
              [raw_srv_1] [raw_e1] ValueError 0 0 store n1 es n2 t1 Ha He)
    as (eng & rep & Hev & Hrep & Hgen & Hdet & _).
  - vm_compute. reflexivity.
  - exists store, n1, es, n2, t1, eng, rep.
    split; [reflexivity|]. split; [exact He|]. split; [exact Hev|].
    split; [exact Hrep|]. split; [exact Hgen|exact Hdet].
Defined.
